(** * ioBroker.apple-tv: device connectivity and pairing orchestration

    A shallow embedding of the parts of the adapter that drive the pyatv
    command-line tools: the credential extraction of the pairing
    protocol, the pairing handlers of the adapter's message surface, the
    push-updates line parser, the poll and reconnect logic of the device
    manager, and the app-list query of both backends.

    JavaScript strings are modelled as [string]: a character stands for a
    UTF-16 code unit below 256.  A promise is modelled by the value it
    settles with; callbacks registered on a child process are modelled as
    handlers folded over the signals the process delivers. *)

From Stdlib Require Import String Ascii List ZArith Lia Bool Arith.
From Stdlib Require Import Numbers.DecimalString.
From stdpp Require Import gmap strings.
Import ListNotations.

Local Open Scope string_scope.
Local Open Scope nat_scope.
Local Open Scope list_scope.

Set Warnings "-register-all".

(** ** JavaScript string primitives *)

Module JS.

(** [WhiteSpace] and [LineTerminator] code units below 256: TAB, LF, VT,
    FF, CR, SP and NBSP.  [String.prototype.trim] and the regular
    expression class [\s] use the same set. *)
Definition is_ws (c : ascii) : bool :=
  let n := nat_of_ascii c in
  ((9 <=? n) && (n <=? 13)) || (n =? 32) || (n =? 160).

(** The characters [.] does not match: LF and CR. *)
Definition is_line_terminator (c : ascii) : bool :=
  let n := nat_of_ascii c in (n =? 10) || (n =? 13).

Definition LF : ascii := ascii_of_nat 10.
Definition CR : ascii := ascii_of_nat 13.
Definition nl : string := String LF "".

Fixpoint trimStart (s : string) : string :=
  match s with
  | "" => ""
  | String c r => if is_ws c then trimStart r else s
  end.

Fixpoint trimEnd (s : string) : string :=
  match s with
  | "" => ""
  | String c r =>
      match trimEnd r with
      | "" => if is_ws c then "" else String c ""
      | r' => String c r'
      end
  end.

Definition trim (s : string) : string := trimEnd (trimStart s).

(** [s.split('\n')]: never empty, the last piece is what follows the
    last newline. *)
Fixpoint split_nl (s : string) : list string :=
  match s with
  | "" => [""]
  | String c r =>
      if Ascii.eqb c LF then "" :: split_nl r
      else match split_nl r with
           | h :: t => String c h :: t
           | [] => [String c ""]
           end
  end.

(** [s.includes(p)] *)
Fixpoint includes (s p : string) : bool :=
  String.prefix p s ||
  match s with
  | "" => false
  | String _ r => includes r p
  end.

(** A string is truthy when it is not empty. *)
Definition truthy (s : string) : bool := negb (String.eqb s "").

(** Lower-casing of a code unit below 256: A-Z and the Latin-1 capitals
    (0xC0-0xDE without the multiplication sign 0xD7). *)
Definition toLowerChar (c : ascii) : ascii :=
  let n := nat_of_ascii c in
  if ((65 <=? n) && (n <=? 90)) ||
     ((192 <=? n) && (n <=? 222) && negb (n =? 215))
  then ascii_of_nat (n + 32) else c.

Fixpoint toLowerCase (s : string) : string :=
  match s with
  | "" => ""
  | String c r => String (toLowerChar c) (toLowerCase r)
  end.

(** [s.substring(0, n)] *)
Definition substring0 (n : nat) (s : string) : string := String.substring 0 n s.

End JS.

(** ** Credential extraction (pyatv backend) *)

Module Credentials.
Import JS.

(** If [s] starts with [p], what follows. *)
Fixpoint strip_prefix (p s : string) : option string :=
  match p, s with
  | "", _ => Some s
  | String a p', String b s' => if Ascii.eqb a b then strip_prefix p' s' else None
  | String _ _, "" => None
  end.

(** [[Cc]redentials?:] tried at the start of [s]. *)
Definition marker_here (s : string) : option string :=
  match s with
  | String c r =>
      if Ascii.eqb c "C" || Ascii.eqb c "c" then
        match strip_prefix "redential" r with
        | Some r1 =>
            match strip_prefix "s" r1 with
            | Some r2 =>
                match strip_prefix ":" r2 with
                | Some r3 => Some r3
                | None => strip_prefix ":" r1
                end
            | None => strip_prefix ":" r1
            end
        | None => None
        end
      else None
  | "" => None
  end.

(** The longest run of characters [.] matches. *)
Fixpoint dot_run (s : string) : string :=
  match s with
  | "" => ""
  | String c r => if is_line_terminator c then "" else String c (dot_run r)
  end.

(** [(.+)]: greedy, at least one character. *)
Definition dot_plus (s : string) : option string :=
  match dot_run s with
  | "" => None
  | g => Some g
  end.

(** [\s*(.+)]: the whitespace run is taken as long as possible and given
    back one character at a time while the group fails. *)
Fixpoint ws_then_group (s : string) : option string :=
  match s with
  | "" => None
  | String c r =>
      if is_ws c then
        match ws_then_group r with
        | Some g => Some g
        | None => dot_plus s
        end
      else dot_plus s
  end.

Definition match_here (s : string) : option string :=
  match marker_here s with
  | Some rest => ws_then_group rest
  | None => None
  end.

(** [line.match(/[Cc]redentials?:\s*(.+)/)]: the expression is not
    anchored, start positions are tried left to right; the result is the
    capture group [match[1]]. *)
Fixpoint regex_credentials (line : string) : option string :=
  match match_here line with
  | Some g => Some g
  | None =>
      match line with
      | "" => None
      | String _ r => regex_credentials r
      end
  end.

Definition is_hex_colon (c : ascii) : bool :=
  let n := nat_of_ascii c in
  ((48 <=? n) && (n <=? 57)) || ((97 <=? n) && (n <=? 102)) ||
  ((65 <=? n) && (n <=? 70)) || (n =? 58).

Fixpoint all_hex_colon (s : string) : bool :=
  match s with
  | "" => true
  | String c r => is_hex_colon c && all_hex_colon r
  end.

(** [/^[0-9a-fA-F:]+$/.test(l) && l.length > 20] *)
Definition looks_like_credentials (l : string) : bool :=
  (truthy l && all_hex_colon l) && (20 <? String.length l).

(** [output.split('\n').map(l => l.trim()).filter(l => l)] *)
Definition lines_of (output : string) : list string :=
  List.filter truthy (List.map trim (split_nl output)).

(** [for (const line of lines)] with its early return. *)
Fixpoint scan_marker (lines : list string) : option string :=
  match lines with
  | [] => None
  | line :: rest =>
      match regex_credentials line with
      | Some g => Some (trim g)
      | None => scan_marker rest
      end
  end.

(** [for (let i = lines.length - 1; i >= 0; i--)]: [scan_hex n lines]
    visits the indices [n-1 .. 0]. *)
Fixpoint scan_hex (n : nat) (lines : list string) : option string :=
  match n with
  | O => None
  | S i =>
      match nth_error lines i with
      | Some l => if looks_like_credentials l then Some l else scan_hex i lines
      | None => scan_hex i lines
      end
  end.

(** [PyatvBackend._extractCredentials]; [None] is [null]. *)
Definition _extractCredentials (output : string) : option string :=
  let lines := lines_of output in
  match scan_marker lines with
  | Some c => Some c
  | None => scan_hex (List.length lines) lines
  end.

End Credentials.

(** ** JavaScript values and completions *)

Module Values.

(** A JavaScript value as [JSON.parse] or the admin message surface can
    deliver it.  Numbers are kept abstract: the code only tests them for
    truthiness, prints them and passes them on. *)
Inductive value (num : Type) : Type :=
| VUndefined
| VNull
| VBool (b : bool)
| VNum (n : num)
| VStr (s : string)
| VArr (items : list (value num))
| VObj (fields : list (string * value num)).

Arguments VUndefined {num}.
Arguments VNull {num}.
Arguments VBool {num} b.
Arguments VNum {num} n.
Arguments VStr {num} s.
Arguments VArr {num} items.
Arguments VObj {num} fields.

(** What the JavaScript engine provides: its numbers and [JSON.parse]
    ([inl m]: a [SyntaxError] with message [m]). *)
Class Engine := {
  num : Type;
  num_zero : num;
  num_truthy : num -> bool;
  num_toString : num -> string;
  JSON_parse : string -> string + value num;
  JSON_stringify : value num -> string
}.

Section WithEngine.
Context {E : Engine}.

Definition truthy (v : value num) : bool :=
  match v with
  | VUndefined | VNull => false
  | VBool b => b
  | VNum n => num_truthy n
  | VStr s => JS.truthy s
  | VArr _ | VObj _ => true
  end.

(** [a || b] *)
Definition or_else (a b : value num) : value num := if truthy a then a else b.

Fixpoint join (sep : string) (l : list string) : string :=
  match l with
  | [] => ""
  | [x] => x
  | x :: rest => x +:+ sep +:+ join sep rest
  end.

(** [String(v)] *)
Fixpoint String_ (v : value num) : string :=
  match v with
  | VUndefined => "undefined"
  | VNull => "null"
  | VBool true => "true"
  | VBool false => "false"
  | VNum n => num_toString n
  | VStr s => s
  | VArr items =>
      join "," (List.map (fun x => match x with
                                   | VUndefined | VNull => ""
                                   | _ => String_ x
                                   end) items)
  | VObj _ => "[object Object]"
  end.

Fixpoint assoc (k : string) (fields : list (string * value num)) : option (value num) :=
  match fields with
  | [] => None
  | (k', v) :: rest => if String.eqb k k' then Some v else assoc k rest
  end.

(** [k in v] for an object [v]. *)
Definition has_key (k : string) (fields : list (string * value num)) : bool :=
  match assoc k fields with Some _ => true | None => false end.

(** [o.k] for an object [o]. *)
Definition field (k : string) (fields : list (string * value num)) : value num :=
  match assoc k fields with Some v => v | None => VUndefined end.

(** [v === 's'] *)
Definition is_str (s : string) (v : value num) : bool :=
  match v with
  | VStr x => String.eqb x s
  | _ => false
  end.

End WithEngine.

(** The outcome of a call: a normal value or a thrown [Error] (for an
    async function: the promise resolved or rejected), together with the
    effects the call performed on its collaborators, in order. *)
Inductive completion (A : Type) : Type :=
| Normal (a : A)
| Throw (message : string).
Arguments Normal {A} a.
Arguments Throw {A} message.

Definition M (Eff A : Type) : Type := list Eff * completion A.

Definition ret {Eff A} (a : A) : M Eff A := ([], Normal a).
Definition throw {Eff A} (m : string) : M Eff A := ([], Throw m).
Definition emit {Eff} (e : Eff) : M Eff unit := ([e], Normal tt).

Definition bind {Eff A B} (m : M Eff A) (f : A -> M Eff B) : M Eff B :=
  match m with
  | (es, Normal a) => let (es', r) := f a in (es ++ es', r)
  | (es, Throw msg) => (es, Throw msg)
  end.

(** [try { m } catch (err) { h err.message }] *)
Definition try_catch {Eff A} (m : M Eff A) (h : string -> M Eff A) : M Eff A :=
  match m with
  | (es, Normal a) => (es, Normal a)
  | (es, Throw msg) => let (es', r) := h msg in (es ++ es', r)
  end.

#[global] Instance M_ret {Eff} : MRet (M Eff) := fun A => @ret Eff A.
#[global] Instance M_bind {Eff} : MBind (M Eff) := fun A B f m => @bind Eff A B m f.

Inductive level := debug | info | warn | error.

End Values.

(** ** Child processes *)

Module Proc.

(** A child process as the adapter sees it.  Processes live in a table
    indexed by pid; the objects of the program refer to them by pid, so
    that a [kill] through one reference is seen through every other. *)
Record ChildProcess := {
  command : string;
  args : list string;
  killed : bool;          (* [ChildProcess.killed] *)
  exited : bool;          (* its ['exit'] has been delivered *)
  stdin : list string     (* what has been written to its stdin *)
}.

Definition live (p : ChildProcess) : bool := negb (exited p) && negb (killed p).

Definition spawn (cmd : string) (a : list string) (t : list ChildProcess)
  : nat * list ChildProcess :=
  (length t,
   t ++ [ {| command := cmd; args := a; killed := false; exited := false; stdin := [] |} ]).

(** [proc.kill('SIGTERM')]: the signal is sent, and [killed] set, unless
    the process is gone already. *)
Definition kill (pid : nat) (t : list ChildProcess) : list ChildProcess :=
  alter (fun p => if exited p then p
                  else {| command := command p; args := args p; killed := true;
                          exited := exited p; stdin := stdin p |}) pid t.

Definition mark_exited (pid : nat) (t : list ChildProcess) : list ChildProcess :=
  alter (fun p => {| command := command p; args := args p; killed := killed p;
                     exited := true; stdin := stdin p |}) pid t.

(** [proc.stdin.write(s)] *)
Definition write (pid : nat) (s : string) (t : list ChildProcess) : list ChildProcess :=
  alter (fun p => {| command := command p; args := args p; killed := killed p;
                     exited := exited p; stdin := stdin p ++ [s] |}) pid t.

Definition is_killed (t : list ChildProcess) (pid : nat) : bool :=
  match t !! pid with
  | Some p => killed p
  | None => false
  end.

(** What a child process delivers to the handlers registered on it, and
    the firing of the timer that guards the wait. *)
Inductive Signal :=
| Stdout (chunk : string)
| Stderr (chunk : string)
| ProcError (message : string)
| Exit (code : option nat)       (* [None]: [null], ended by a signal *)
| TimerFired.

(** [code] as it appears in a concatenation. *)
Definition show_code (code : option nat) : string :=
  match code with
  | None => "null"
  | Some n => NilEmpty.string_of_uint (Nat.to_uint n)
  end.

End Proc.

(** ** Interactive pairing (pyatv backend) *)

Module Pairing.
Import JS Credentials Values Proc.

Record PyatvBackend := {
  identifier : string;           (* [deviceConfig.identifier] *)
  address : string;              (* [deviceConfig.address] *)
  atvremotePath : string;
  _pairProcess : option nat
}.

Definition set_pairProcess (b : PyatvBackend) (p : option nat) : PyatvBackend :=
  {| identifier := identifier b; address := address b;
     atvremotePath := atvremotePath b; _pairProcess := p |}.

Inductive status := awaitingPin | paired.

(** The [credentials] property of a result: absent, [null] or a string. *)
Inductive credentials := Absent | Null | Str (s : string).

Definition of_extracted (c : option string) : credentials :=
  match c with
  | Some s => Str s
  | None => Null
  end.

Definition cred_truthy (c : credentials) : bool :=
  match c with
  | Str s => JS.truthy s
  | _ => false
  end.

Record PairResult := { r_status : status; r_credentials : credentials }.

(** [PyatvBackend.pairAbort] *)
Definition pairAbort (b : PyatvBackend) (t : list ChildProcess)
  : PyatvBackend * list ChildProcess :=
  match _pairProcess b with
  | Some pid =>
      if negb (is_killed t pid) then (set_pairProcess b None, kill pid t)
      else (b, t)
  | None => (b, t)
  end.

(** The variables shared by the handlers of one [pairStart] or
    [pairFinish] promise; [settled] is what the promise settled with. *)
Record Pending := {
  output : string;
  resolved : bool;
  timer : bool;
  settled : option (completion PairResult)
}.

Definition pending0 : Pending :=
  {| output := ""; resolved := false; timer := true; settled := None |}.

Definition pin_prompt (out : string) : bool :=
  includes out "Enter PIN" || includes out "pin:".

(** The handlers [pairStart] registers on the process [pid]. *)
Definition pairStart_on (pid : nat) (s : PyatvBackend * list ChildProcess * Pending)
    (sig : Signal) : PyatvBackend * list ChildProcess * Pending :=
  let '(b, t, st) := s in
  match sig with
  | Stdout chunk | Stderr chunk =>
      let out := output st +:+ chunk in
      if negb (resolved st) && pin_prompt out then
        (b, t, {| output := out; resolved := true; timer := false;
                  settled := Some (Normal {| r_status := awaitingPin;
                                             r_credentials := Absent |}) |})
      else
        (b, t, {| output := out; resolved := resolved st; timer := timer st;
                  settled := settled st |})
  | ProcError message =>
      if negb (resolved st) then
        (b, t, {| output := output st; resolved := true; timer := false;
                  settled := Some (Throw ("Failed to start pairing: " +:+ message)) |})
      else
        (b, t, {| output := output st; resolved := resolved st; timer := false;
                  settled := settled st |})
  | Exit code =>
      let t := mark_exited pid t in
      if negb (resolved st) then
        if includes (output st) "credentials:" || includes (output st) "Credentials:" then
          (b, t, {| output := output st; resolved := true; timer := false;
                    settled := Some (Normal {| r_status := paired;
                                               r_credentials :=
                                                 of_extracted (_extractCredentials (output st)) |}) |})
        else
          (b, t, {| output := output st; resolved := true; timer := false;
                    settled := Some (Throw ("Pairing failed (exit code " +:+ show_code code
                                            +:+ "): " +:+ substring0 300 (output st))) |})
      else
        (b, t, {| output := output st; resolved := resolved st; timer := false;
                  settled := settled st |})
  | TimerFired =>
      if timer st && negb (resolved st) then
        let (b', t') := pairAbort b t in
        (b', t', {| output := output st; resolved := true; timer := false;
                    settled := Some (Throw
                      "Pairing timeout: Apple TV did not respond within 30 seconds") |})
      else
        (b, t, {| output := output st; resolved := resolved st; timer := false;
                  settled := settled st |})
  end.

Definition device_args (b : PyatvBackend) : list string :=
  if JS.truthy (identifier b) then ["--id"; identifier b]
  else if JS.truthy (address b) then ["-s"; address b]
  else [].

(** [PyatvBackend.pairStart(protocol)], the process delivering [sigs]
    while the caller waits.  The last component is [None] when the
    promise is still pending after [sigs]. *)
Definition pairStart (b : PyatvBackend) (t : list ChildProcess) (protocol : string)
    (sigs : list Signal)
  : PyatvBackend * list ChildProcess * option (completion PairResult) :=
  let (b1, t1) := pairAbort b t in
  let a := device_args b1 ++
           ["--protocol"; if JS.truthy protocol then protocol else "airplay"; "pair"] in
  let (pid, t2) := spawn (atvremotePath b1) a t1 in
  let b2 := set_pairProcess b1 (Some pid) in
  let '(b3, t3, st) := fold_left (pairStart_on pid) sigs (b2, t2, pending0) in
  (b3, t3, settled st).

(** The handlers [pairFinish] registers on the process [pid]. *)
Definition pairFinish_on (pid : nat) (s : PyatvBackend * list ChildProcess * Pending)
    (sig : Signal) : PyatvBackend * list ChildProcess * Pending :=
  let '(b, t, st) := s in
  match sig with
  | Stdout chunk | Stderr chunk =>
      (b, t, {| output := output st +:+ chunk; resolved := resolved st;
                timer := timer st; settled := settled st |})
  | ProcError _ => (b, t, st)
  | Exit code =>
      let t := mark_exited pid t in
      if resolved st then
        (b, t, {| output := output st; resolved := true; timer := false;
                  settled := settled st |})
      else
        let b := set_pairProcess b None in
        let c := of_extracted (_extractCredentials (output st)) in
        let r :=
          if cred_truthy c then
            Normal {| r_status := paired; r_credentials := c |}
          else if match code with Some 0 => true | _ => false end then
            Normal {| r_status := paired; r_credentials := Str (trim (output st)) |}
          else
            Throw ("Pairing failed after PIN entry (exit code " +:+ show_code code
                   +:+ "): " +:+ substring0 300 (output st)) in
        (b, t, {| output := output st; resolved := true; timer := false;
                  settled := Some r |})
  | TimerFired =>
      if timer st && negb (resolved st) then
        let (b', t') := pairAbort b t in
        (b', t', {| output := output st; resolved := true; timer := false;
                    settled := Some (Throw "Pairing PIN verification timeout") |})
      else
        (b, t, {| output := output st; resolved := resolved st; timer := false;
                  settled := settled st |})
  end.

(** [PyatvBackend.pairFinish(pin)]; [write_error] is [Some m] when the
    write to the process's stdin throws [Error(m)]. *)
Definition pairFinish (b : PyatvBackend) (t : list ChildProcess) (pin : string)
    (write_error : option string) (sigs : list Signal)
  : PyatvBackend * list ChildProcess * option (completion PairResult) :=
  match _pairProcess b with
  | None => (b, t, Some (Throw "No active pairing process. Start pairing first."))
  | Some pid =>
      if is_killed t pid then
        (b, t, Some (Throw "No active pairing process. Start pairing first."))
      else
        let '(t1, st1) :=
          match write_error with
          | None => (write pid (pin +:+ nl) t, pending0)
          | Some m =>
              (t, {| output := ""; resolved := true; timer := false;
                     settled := Some (Throw ("Failed to send PIN: " +:+ m)) |})
          end in
        let '(b2, t2, st2) := fold_left (pairFinish_on pid) sigs (b, t1, st1) in
        (b2, t2, settled st2)
  end.

End Pairing.

(** ** The adapter's pairing messages (main.js) *)

Module Adapter.
Import JS Values Proc Pairing.

Section WithEngine.
Context {E : Engine}.

(** [obj.message]: [None] is a field that is [undefined]. *)
Record Message := {
  m_identifier : option string;
  m_address : option string;
  m_protocol : option string;
  m_pin : value num
}.

Definition empty_message : Message :=
  {| m_identifier := None; m_address := None; m_protocol := None; m_pin := VUndefined |}.

Record Obj := {
  message : option Message;
  callback : bool
}.

Definition str_truthy (s : option string) : bool :=
  match s with
  | Some x => JS.truthy x
  | None => false
  end.

(** [a || b] on fields that hold a string or [undefined]. *)
Definition str_or (a b : option string) : option string :=
  if str_truthy a then a else b.

(** [a || 'd'] *)
Definition str_default (a : option string) (d : string) : string :=
  match a with
  | Some x => if JS.truthy x then x else d
  | None => d
  end.

(** A string or [undefined] in a concatenation. *)
Definition show_str (a : option string) : string :=
  match a with
  | Some x => x
  | None => "undefined"
  end.

Inductive Response :=
| RError (message : string)
| RAwaitingPin (identifier : string)
| RPaired (c : credentials)
| RAborted.

Inductive Effect :=
| SendTo (data : Response)
| StorePairCredentials (identifier protocol : string) (c : credentials).

(** The adapter: its registry of pairing backends, keyed by device
    identifier, and the processes spawned so far. *)
Record Adapter := {
  _pairingSessions : gmap string PyatvBackend;
  processes : list ChildProcess
}.

(** [_respond(obj, data)] *)
Definition _respond (obj : Obj) (data : Response) : list Effect :=
  if callback obj then [SendTo data] else [].

(** What the [await this._storePairCredentials(...)] of a handler comes
    to when the call is made: the answer of the handler when the call
    resolves, and the answer of its [catch] when the call rejects with
    [Error(m)] ([store_rejects = Some m]). *)
Definition after_store (obj : Obj) (store_rejects : option string) (c : credentials)
  : list Effect :=
  match store_rejects with
  | None => _respond obj (RPaired c)
  | Some m => _respond obj (RError m)
  end.

(** [case 'startPairing']; [path] is the atvremote binary the new
    backend finds, [store_rejects] what [_storePairCredentials] rejects
    with if it is called and rejects, [sigs] what the pairing process
    delivers. *)
Definition startPairing (a : Adapter) (obj : Obj) (path : string)
    (store_rejects : option string) (sigs : list Signal)
  : Adapter * list Effect :=
  let msg := match message obj with Some m => m | None => empty_message end in
  match str_or (m_identifier msg) (m_address msg) with
  | Some identifier =>
      if JS.truthy identifier then
        let pairBackend :=
          {| Pairing.identifier := str_default (m_identifier msg) "";
             address := str_default (m_address msg) "";
             atvremotePath := path;
             _pairProcess := None |} in
        let '(b, t, r) :=
          pairStart pairBackend (processes a) (str_default (m_protocol msg) "airplay") sigs in
        match r with
        | Some (Normal result) =>
            match r_status result with
            | awaitingPin =>
                ({| _pairingSessions := <[identifier := b]> (_pairingSessions a);
                    processes := t |},
                 _respond obj (RAwaitingPin identifier))
            | paired =>
                ({| _pairingSessions := _pairingSessions a; processes := t |},
                 StorePairCredentials identifier (str_default (m_protocol msg) "airplay")
                                      (r_credentials result)
                 :: after_store obj store_rejects (r_credentials result))
            end
        | Some (Throw m) =>
            ({| _pairingSessions := _pairingSessions a; processes := t |},
             _respond obj (RError m))
        | None =>
            ({| _pairingSessions := _pairingSessions a; processes := t |}, [])
        end
      else (a, _respond obj (RError "No device identifier provided"))
  | None => (a, _respond obj (RError "No device identifier provided"))
  end.

(** [String(msg.pin || '')] *)
Definition pin_of (msg : Message) : string := String_ (or_else (m_pin msg) (VStr "")).

(** [case 'submitPin']; [write_error] is what the write of the PIN to
    stdin throws, if it does, [store_rejects] what
    [_storePairCredentials] rejects with if it is called and rejects. *)
Definition submitPin (a : Adapter) (obj : Obj) (write_error : option string)
    (store_rejects : option string) (sigs : list Signal) : Adapter * list Effect :=
  let msg := match message obj with Some m => m | None => empty_message end in
  let identifier := str_or (m_identifier msg) (m_address msg) in
  let pin := pin_of msg in
  if negb (JS.truthy pin) || negb (String.length pin =? 4) then
    (a, _respond obj (RError "PIN must be exactly 4 digits"))
  else
    match identifier ≫= (fun k => _pairingSessions a !! k) with
    | None =>
        (a, _respond obj (RError ("No active pairing session for " +:+ show_str identifier
                                  +:+ ". Start pairing first.")))
    | Some pairBackend =>
        let key := show_str identifier in
        let '(b, t, r) := pairFinish pairBackend (processes a) pin write_error sigs in
        match r with
        | Some (Normal result) =>
            ({| _pairingSessions := delete key (_pairingSessions a); processes := t |},
             if cred_truthy (r_credentials result)
             then StorePairCredentials key (str_default (m_protocol msg) "airplay")
                                       (r_credentials result)
                  :: after_store obj store_rejects (r_credentials result)
             else _respond obj (RPaired (r_credentials result)))
        | Some (Throw m) =>
            ({| _pairingSessions := <[key := b]> (_pairingSessions a); processes := t |},
             _respond obj (RError m))
        | None =>
            ({| _pairingSessions := <[key := b]> (_pairingSessions a); processes := t |}, [])
        end
    end.

(** [case 'abortPairing'] *)
Definition abortPairing (a : Adapter) (obj : Obj) : Adapter * list Effect :=
  let msg := match message obj with Some m => m | None => empty_message end in
  let identifier := str_or (m_identifier msg) (m_address msg) in
  match identifier ≫= (fun k => _pairingSessions a !! k) with
  | Some pairBackend =>
      let (_, t) := pairAbort pairBackend (processes a) in
      ({| _pairingSessions := delete (show_str identifier) (_pairingSessions a);
          processes := t |},
       _respond obj RAborted)
  | None => (a, _respond obj RAborted)
  end.

(** The pairing processes of a device: spawned with [--id k] or [-s k]. *)
Definition pairs_with (k : string) (p : ChildProcess) : bool :=
  match args p with
  | flag :: target :: _ =>
      (String.eqb flag "--id" || String.eqb flag "-s") && String.eqb target k
  | _ => false
  end.

Definition live_pairing (k : string) (a : Adapter) : list ChildProcess :=
  List.filter (fun p => pairs_with k p && live p) (processes a).

End WithEngine.

End Adapter.

(** ** Push updates and app list (pyatv and node-appletv-x backends) *)

Module Push.
Import JS Values Proc.

Section WithEngine.
Context {E : Engine}.

Record Playing := {
  title : value num;
  artist : value num;
  album : value num;
  genre : value num;
  mediaType : string;
  deviceState : string;
  app : value num;
  appId : value num;
  position : value num;
  duration : value num;
  shuffle : string;
  repeat : string
}.

(** The argument of [onUpdate]. *)
Inductive PushEvent :=
| EvPower (state : bool)
| EvPlaying (data : Playing)
| EvVolume (level : value num)
| EvConnection (connected : bool) (reason : value num).

(** What the backend does to its collaborators: a call of [onUpdate] or
    a line on the log. *)
Inductive Out :=
| Update (e : PushEvent)
| Log (l : level) (message : string).

(** [(v || 'd').toLowerCase()]: only a string has the method.  The text
    of the [TypeError] is the engine's own (it quotes the expression);
    the text here stands for it, and no caller looks at it. *)
Definition lower_or (v : value num) (d : string) : M Out string :=
  match or_else v (VStr d) with
  | VStr s => mret (toLowerCase s)
  | _ => throw "(intermediate value).toLowerCase is not a function"
  end.

(** [PyatvBackend._processPushEvent(event, onUpdate)] *)
Definition _processPushEvent (event : list (string * value num)) : M Out unit :=
  (if has_key "power_state" event
   then emit (Update (EvPower (is_str "on" (field "power_state" event))))
   else mret tt) ;;
  (if has_key "title" event || has_key "device_state" event
   then
     mt ← lower_or (field "media_type" event) "unknown";
     ds ← lower_or (field "device_state" event) "idle";
     sh ← lower_or (field "shuffle" event) "off";
     rp ← lower_or (field "repeat" event) "off";
     emit (Update (EvPlaying
       {| title := or_else (field "title" event) (VStr "");
          artist := or_else (field "artist" event) (VStr "");
          album := or_else (field "album" event) (VStr "");
          genre := or_else (field "genre" event) (VStr "");
          mediaType := mt;
          deviceState := ds;
          app := or_else (field "app" event) (VStr "");
          appId := or_else (field "app_id" event) (VStr "");
          position := or_else (field "position" event) (VNum num_zero);
          duration := or_else (field "total_time" event) (VNum num_zero);
          shuffle := sh;
          repeat := rp |}))
   else mret tt) ;;
  (if has_key "volume" event
   then emit (Update (EvVolume (field "volume" event)))
   else mret tt) ;;
  (if has_key "connection" event
   then emit (Update (EvConnection false (field "connection" event)))
   else mret tt).

(** One complete line of the stream: the body of the [for] loop with its
    [try]/[catch]. *)
Definition process_line (line : string) : list Out :=
  if negb (JS.truthy (trim line)) then []
  else
    fst (try_catch
      (match JSON_parse line with
       | inl m => throw m
       | inr VNull | inr VUndefined =>
           throw "Cannot read properties of null (reading 'result')"
       | inr (VObj event) =>
           if is_str "success" (field "result" event) then _processPushEvent event
           else emit (Log warn ("Push update error: " +:+ JSON_stringify (VObj event)))
       | inr v => emit (Log warn ("Push update error: " +:+ JSON_stringify v))
       end)
      (fun _ => emit (Log debug ("Failed to parse push update line: " +:+ line)))).

(** The ['data'] handler of stdout: [buffer] is the variable it shares
    between calls. *)
Definition on_stdout_data (buffer chunk : string) : string * list Out :=
  let lines := split_nl (buffer +:+ chunk) in
  (List.last lines "", flat_map process_line (removelast lines)).

Definition on_stderr_data (chunk : string) : list Out :=
  [Log debug ("atvscript push_updates stderr: " +:+ chunk)].

Definition on_error (message : string) : list Out :=
  [Log error ("Push updates process error: " +:+ message);
   Update (EvConnection false (VStr "process_error"))].

Definition on_exit (code : option nat) : list Out :=
  [Log info ("Push updates process exited with code " +:+ show_code code);
   Update (EvConnection false (VStr "process_exit"))].

(** The handlers [startPushUpdates] registers, by signal; it sets no
    timer of its own. *)
Definition deliver (buffer : string) (sig : Signal) : string * list Out :=
  match sig with
  | Stdout chunk => on_stdout_data buffer chunk
  | Stderr chunk => (buffer, on_stderr_data chunk)
  | ProcError message => (buffer, on_error message)
  | Exit code => (buffer, on_exit code)
  | TimerFired => (buffer, [])
  end.

(** A run of the push-updates process: the signals it delivers, in
    order, starting from the empty buffer. *)
Fixpoint run_from (buffer : string) (sigs : list Signal) : string * list Out :=
  match sigs with
  | [] => (buffer, [])
  | sig :: rest =>
      let (b, out) := deliver buffer sig in
      let (b', out') := run_from b rest in
      (b', out ++ out')
  end.

Definition startPushUpdates (sigs : list Signal) : list Out := snd (run_from "" sigs).

(** The calls of [onUpdate] among the effects, in order. *)
Fixpoint updates (outs : list Out) : list PushEvent :=
  match outs with
  | [] => []
  | Update e :: rest => e :: updates rest
  | Log _ _ :: rest => updates rest
  end.

(** *** App list *)

(** How [execFile] called back. *)
Inductive ExecResult :=
| ExecFailed (message stderr : string)
| ExecDone (stdout : string).

Definition parse_failure (m stdout : string) : string :=
  "Failed to parse atvscript output: " +:+ m +:+ ". Raw: " +:+ substring0 200 stdout.

(** [PyatvBackend._execAtvscript]: what its promise settles with. *)
Definition _execAtvscript (r : ExecResult) : completion (value num) :=
  match r with
  | ExecFailed m stderr =>
      Throw ("atvscript failed: " +:+ m +:+
             (if JS.truthy stderr then ". stderr: " +:+ stderr else ""))
  | ExecDone stdout =>
      match JSON_parse (trim stdout) with
      | inl m => Throw (parse_failure m stdout)
      | inr VNull | inr VUndefined =>
          Throw (parse_failure "Cannot read properties of null (reading 'result')" stdout)
      | inr (VObj result) =>
          if is_str "failure" (field "result" result) then
            Throw ("atvscript error: " +:+
                   String_ (or_else (or_else (field "error" result) (field "exception" result))
                                    (VStr "unknown")))
          else Normal (VObj result)
      | inr v => Normal v
      end
  end.

Record App := { name : value num; id : value num }.

(** [a => ({ name: a.name || '', id: a.identifier || '' })] *)
Definition app_of (a : value num) : M Out App :=
  match a with
  | VNull | VUndefined => throw "Cannot read properties of null (reading 'name')"
  | VObj f => mret {| name := or_else (field "name" f) (VStr "");
                      id := or_else (field "identifier" f) (VStr "") |}
  | _ => mret {| name := VStr ""; id := VStr "" |}
  end.

Fixpoint map_apps (items : list (value num)) : M Out (list App) :=
  match items with
  | [] => mret []
  | a :: rest => x ← app_of a; xs ← map_apps rest; mret (x :: xs)
  end.

(** [(result.apps || []).map(...)]; the text of the [TypeError] stands
    for the engine's own, which quotes the expression. *)
Definition apps_of (result : value num) : M Out (list App) :=
  let apps := match result with
              | VObj f => field "apps" f
              | _ => VUndefined
              end in
  match or_else apps (VArr []) with
  | VArr items => map_apps items
  | _ => throw "(intermediate value).map is not a function"
  end.

(** [PyatvBackend.getAppList], [r] being the outcome of the atvscript
    invocation it makes. *)
Definition getAppList (r : ExecResult) : M Out (list App) :=
  try_catch
    (result ← ([], _execAtvscript r); apps_of result)
    (fun m => emit (Log warn ("Failed to get app list (companion credentials may be needed): "
                              +:+ m)) ;; mret []).

(** [NodeBackend.getAppList] *)
Definition NodeBackend_getAppList : M Out (list App) :=
  emit (Log warn "App list is not supported by node-appletv-x backend") ;; mret [].

End WithEngine.

End Push.

(** ** The per-device connectivity controller (device-manager.js) *)

Module DeviceManager.
Import JS Values Push.

Definition RECONNECT_BASE_DELAY : N := 5000.
Definition RECONNECT_MAX_DELAY : N := 300000.
Definition MAX_RECONNECT_ATTEMPTS : N := 10.

Definition show_N (n : N) : string := NilEmpty.string_of_uint (N.to_uint n).

Section WithEngine.
Context {E : Engine}.

(** The mutable fields of a [DeviceManager]; [label] is
    [deviceConfig.name || deviceId].  A timer slot holds [true] (for the
    reconnect timer: its delay) while a timer is pending, [null]
    otherwise. *)
Record DeviceManager := {
  label : string;
  pushHandle : bool;
  pollTimer : bool;
  reconnectTimer : option N;
  artworkTimer : bool;
  connected : bool;
  reconnectAttempts : N
}.

Inductive Slot := PollSlot | ArtworkSlot.

Inductive Effect :=
| ELog (l : level) (message : string)
| SetState (path : string) (v : value num)
| UpdateDeviceInfo                 (* the [info.*] states of [_updateDeviceInfo] *)
| StartPush
| StopPush
| SetInterval (s : Slot)
| ClearInterval (s : Slot)
| SetTimeout (delay : N)
| ClearTimeout
| Invoke_scheduleReconnect.        (* [_scheduleReconnect] has been entered *)

(** [_updatePlayingStates(data)] *)
Definition _updatePlayingStates (data : Playing) : list Effect :=
  [SetState "playing.title" (title data);
   SetState "playing.artist" (artist data);
   SetState "playing.album" (album data);
   SetState "playing.genre" (genre data);
   SetState "playing.mediaType" (VStr (mediaType data));
   SetState "playing.deviceState" (VStr (deviceState data));
   SetState "playing.app" (app data);
   SetState "playing.appId" (appId data);
   SetState "playing.position" (position data);
   SetState "playing.duration" (duration data);
   SetState "playing.shuffle" (VStr (shuffle data));
   SetState "playing.repeat" (VStr (repeat data));
   SetState "apps.current" (app data);
   SetState "apps.currentId" (appId data)].

(** [Math.min(RECONNECT_BASE_DELAY * Math.pow(2, attempts), RECONNECT_MAX_DELAY)] *)
Definition reconnect_delay (attempts : N) : N :=
  N.min (RECONNECT_BASE_DELAY * 2 ^ attempts) RECONNECT_MAX_DELAY.

(** [_scheduleReconnect()], up to the [setTimeout]. *)
Definition _scheduleReconnect (d : DeviceManager) : DeviceManager * list Effect :=
  match reconnectTimer d with
  | Some _ => (d, [Invoke_scheduleReconnect])
  | None =>
      if (MAX_RECONNECT_ATTEMPTS <=? reconnectAttempts d)%N then
        (d, [Invoke_scheduleReconnect;
             ELog error ("Max reconnect attempts reached for " +:+ label d)])
      else
        let delay := reconnect_delay (reconnectAttempts d) in
        let attempts := (reconnectAttempts d + 1)%N in
        ({| label := label d; pushHandle := pushHandle d; pollTimer := pollTimer d;
            reconnectTimer := Some delay; artworkTimer := artworkTimer d;
            connected := connected d; reconnectAttempts := attempts |},
         [Invoke_scheduleReconnect;
          ELog info ("Reconnecting to " +:+ label d +:+ " in " +:+ show_N (delay / 1000)%N
                     +:+ "s (attempt " +:+ show_N attempts +:+ ")");
          SetTimeout delay])
  end.

(** [disconnect()]; [fails] is [Some m] when the final [_setState]
    rejects with [Error(m)]. *)
Definition disconnect (d : DeviceManager) (fails : option string)
  : DeviceManager * M Effect unit :=
  ({| label := label d; pushHandle := false; pollTimer := false;
      reconnectTimer := None; artworkTimer := false;
      connected := false; reconnectAttempts := reconnectAttempts d |},
   ((if pushHandle d then [StopPush] else []) ++
    (if pollTimer d then [ClearInterval PollSlot] else []) ++
    (match reconnectTimer d with Some _ => [ClearTimeout] | None => [] end) ++
    (if artworkTimer d then [ClearInterval ArtworkSlot] else []) ++
    [SetState "info.connected" (VBool false)],
    match fails with
    | Some m => Throw m
    | None => Normal tt
    end)).

(** What the collaborators of [connect()] do: whether
    [backend.startPushUpdates] throws, and whether the [_setState] that
    follows it rejects. *)
Record ConnectEnv := {
  startPush_throws : option string;
  setState_rejects : option string
}.

(** [_startPolling()] *)
Definition _startPolling (d : DeviceManager) : DeviceManager * list Effect :=
  ({| label := label d; pushHandle := pushHandle d; pollTimer := true;
      reconnectTimer := reconnectTimer d; artworkTimer := artworkTimer d;
      connected := connected d; reconnectAttempts := reconnectAttempts d |},
   [SetInterval PollSlot]).

(** [connect()]: it has a handler for every failure and never throws. *)
Definition connect (d : DeviceManager) (env : ConnectEnv) : DeviceManager * list Effect :=
  let pre := [ELog info ("Connecting to Apple TV: " +:+ label d); UpdateDeviceInfo] in
  let fallback (d' : DeviceManager) (es : list Effect) (m : string) :=
    let (d'', es') := _startPolling d' in
    (d'', pre ++ es ++
          [ELog warn ("Push updates failed for " +:+ label d +:+
                      ", falling back to polling: " +:+ m)] ++ es') in
  match startPush_throws env with
  | Some m => fallback d [] m
  | None =>
      let d1 := {| label := label d; pushHandle := true; pollTimer := pollTimer d;
                   reconnectTimer := reconnectTimer d; artworkTimer := artworkTimer d;
                   connected := true; reconnectAttempts := 0 |} in
      let es1 := [StartPush; SetState "info.connected" (VBool true)] in
      match setState_rejects env with
      | Some m => fallback d1 es1 m
      | None =>
          ({| label := label d; pushHandle := true; pollTimer := pollTimer d;
              reconnectTimer := reconnectTimer d; artworkTimer := true;
              connected := true; reconnectAttempts := 0 |},
           pre ++ es1 ++
           [ELog info ("Push updates active for " +:+ label d); SetInterval ArtworkSlot])
      end
  end.

(** The callback of the reconnect timer. *)
Definition reconnect_timer_fired (d : DeviceManager) (disconnect_rejects : option string)
    (env : ConnectEnv) : DeviceManager * list Effect :=
  let d0 := {| label := label d; pushHandle := pushHandle d; pollTimer := pollTimer d;
               reconnectTimer := None; artworkTimer := artworkTimer d;
               connected := connected d; reconnectAttempts := reconnectAttempts d |} in
  match disconnect d0 disconnect_rejects with
  | (d1, (es1, Normal _)) =>
      let (d2, es2) := connect d1 env in (d2, es1 ++ es2)
  | (d1, (es1, Throw m)) =>
      let (d2, es2) := _scheduleReconnect d1 in
      (d2, es1 ++ [ELog warn ("Reconnect failed: " +:+ m)] ++ es2)
  end.

(** [_handlePushEvent(event)]; the state writes it starts are not
    awaited. *)
Definition _handlePushEvent (d : DeviceManager) (event : PushEvent)
  : DeviceManager * list Effect :=
  match event with
  | EvPlaying data => (d, _updatePlayingStates data)
  | EvPower state => (d, [SetState "power.state" (VBool state)])
  | EvVolume lvl => (d, [SetState "volume.level" lvl])
  | EvConnection c reason =>
      if negb c then
        let d1 := {| label := label d; pushHandle := pushHandle d; pollTimer := pollTimer d;
                     reconnectTimer := reconnectTimer d; artworkTimer := artworkTimer d;
                     connected := false; reconnectAttempts := reconnectAttempts d |} in
        let (d2, es) := _scheduleReconnect d1 in
        (d2, [ELog warn ("Connection lost for " +:+ label d +:+ ": " +:+ String_ reason);
              SetState "info.connected" (VBool false)] ++ es)
      else (d, [])
  end.

(** Where the [try] block of a poll tick throws, if it does:
    [AtUpdatePlaying k] is a rejection of the write number [k] (from 0,
    the last one when [k] is larger) of [_updatePlayingStates]. *)
Inductive PollStage :=
| AtGetPlaying
| AtUpdatePlaying (k : nat)
| AtGetPowerState
| AtSetPower
| AtSetConnected.

Record PollEnv := {
  playing : Playing;              (* what [getPlaying] resolves with *)
  power : bool;                   (* what [getPowerState] resolves with *)
  fails : option (PollStage * string)
}.

Definition set_connected (d : DeviceManager) (c : bool) (attempts : N) : DeviceManager :=
  {| label := label d; pushHandle := pushHandle d; pollTimer := pollTimer d;
     reconnectTimer := reconnectTimer d; artworkTimer := artworkTimer d;
     connected := c; reconnectAttempts := attempts |}.

(** The [try] block of the poll tick: the state it leaves and whether it
    threw. *)
Definition poll_try (d : DeviceManager) (env : PollEnv)
  : DeviceManager * M Effect unit :=
  let es1 := _updatePlayingStates (playing env) in
  let es2 := es1 ++ [SetState "power.state" (VBool (power env))] in
  match fails env with
  | Some (AtGetPlaying, m) => (d, ([], Throw m))
  | Some (AtUpdatePlaying k, m) => (d, (firstn (Nat.min k 13 + 1) es1, Throw m))
  | Some (AtGetPowerState, m) => (d, (es1, Throw m))
  | Some (AtSetPower, m) => (d, (es2, Throw m))
  | last =>
      if connected d then (d, (es2, Normal tt))
      else
        (set_connected d true 0,
         (es2 ++ [SetState "info.connected" (VBool true)],
          match last with
          | Some (_, m) => Throw m
          | None => Normal tt
          end))
  end.

(** One tick of the interval [_startPolling] sets. *)
Definition poll_tick (d : DeviceManager) (env : PollEnv) : DeviceManager * list Effect :=
  match poll_try d env with
  | (d1, (es, Normal _)) => (d1, es)
  | (d1, (es, Throw m)) =>
      let es' := es ++ [ELog debug ("Poll failed for " +:+ label d +:+ ": " +:+ m)] in
      if connected d1 then
        (set_connected d1 false (reconnectAttempts d1),
         es' ++ [SetState "info.connected" (VBool false)])
      else (d1, es')
  end.

(** What can happen to a device manager. *)
Inductive Input :=
| PushInput (event : PushEvent)
| PollTick (env : PollEnv)
| ReconnectTimer (disconnect_rejects : option string) (env : ConnectEnv).

Definition step (d : DeviceManager) (i : Input) : DeviceManager * list Effect :=
  match i with
  | PushInput event => _handlePushEvent d event
  | PollTick env => poll_tick d env
  | ReconnectTimer r env => reconnect_timer_fired d r env
  end.

Definition invokes_scheduler (es : list Effect) : bool :=
  existsb (fun e => match e with Invoke_scheduleReconnect => true | _ => false end) es.

(** [new DeviceManager(...)] *)
Definition new_manager (name : string) : DeviceManager :=
  {| label := name; pushHandle := false; pollTimer := false; reconnectTimer := None;
     artworkTimer := false; connected := false; reconnectAttempts := 0 |}.

(** The reconnect timer fires only while it is pending. *)
Definition enabled (d : DeviceManager) (i : Input) : bool :=
  match i with
  | ReconnectTimer _ _ =>
      match reconnectTimer d with Some _ => true | None => false end
  | _ => true
  end.

(** A run of the manager: the effects of its inputs, in order; [None]
    when an input comes that is not enabled. *)
Fixpoint run (d : DeviceManager) (inputs : list Input)
  : option (DeviceManager * list Effect) :=
  match inputs with
  | [] => Some (d, [])
  | i :: rest =>
      if enabled d i then
        let (d1, es) := step d i in
        match run d1 rest with
        | Some (d2, es') => Some (d2, es ++ es')
        | None => None
        end
      else None
  end.

(** A push connection event with [connected = false]. *)
Definition is_connection_loss (i : Input) : bool :=
  match i with
  | PushInput (EvConnection false _) => true
  | _ => false
  end.

End WithEngine.

End DeviceManager.

(** ** Object ids and the routing of state changes (main.js, device-manager.js) *)

Module Ids.

(** The class [[a-zA-Z0-9_-]]. *)
Definition is_id_char (c : ascii) : bool :=
  let n := nat_of_ascii c in
  ((97 <=? n) && (n <=? 122)) || ((65 <=? n) && (n <=? 90)) ||
  ((48 <=? n) && (n <=? 57)) || (n =? 95) || (n =? 45).

Definition underscore : ascii := ascii_of_nat 95.
Definition dot : ascii := ascii_of_nat 46.

(** [s.replace(/[^a-zA-Z0-9_-]/g, '_')] *)
Fixpoint replace_foreign (s : string) : string :=
  match s with
  | "" => ""
  | String c r => String (if is_id_char c then c else underscore) (replace_foreign r)
  end.

(** [AppleTvAdapter._sanitizeId(raw)] *)
Definition _sanitizeId (raw : string) : string := replace_foreign raw.

(** [s.replace(/_+/g, '_')]: of every run of underscores one is left. *)
Fixpoint collapse (s : string) : string :=
  match s with
  | "" => ""
  | String c r =>
      if Ascii.eqb c underscore then
        match r with
        | String c' _ => if Ascii.eqb c' underscore then collapse r else String c (collapse r)
        | "" => String c ""
        end
      else String c (collapse r)
  end.

(** [s.replace(/^_|_$/g, '')]: the first alternative takes an underscore
    at index 0, the second one at the last index of what is left. *)
Definition strip_first (s : string) : string :=
  match s with
  | String c r => if Ascii.eqb c underscore then r else s
  | "" => ""
  end.

Fixpoint strip_last (s : string) : string :=
  match s with
  | "" => ""
  | String c r =>
      match r with
      | "" => if Ascii.eqb c underscore then "" else s
      | String _ _ => String c (strip_last r)
      end
  end.

(** [DeviceManager._sanitizeAppName(name)] *)
Definition _sanitizeAppName (name : string) : string :=
  strip_last (strip_first (collapse (replace_foreign name))).

(** The object ids below a device, as [refreshAppList] builds them ... *)
Definition appFolderPath (deviceId name : string) : string :=
  deviceId +:+ ".apps." +:+ _sanitizeAppName name.

Definition launchButton (deviceId name : string) : string :=
  appFolderPath deviceId name +:+ ".launch".

Definition channelsPath (deviceId name : string) : string :=
  appFolderPath deviceId name +:+ ".channels".

Definition channelButton (deviceId name channel : string) : string :=
  channelsPath deviceId name +:+ "." +:+ _sanitizeAppName channel.

(** ... and as [handleAppFolderLaunch] and [handleChannelButton] read
    them. *)
Definition folderPath (deviceId appFolderName : string) : string :=
  deviceId +:+ ".apps." +:+ appFolderName.

Definition channelPath (deviceId appFolderName channelStateName : string) : string :=
  deviceId +:+ ".apps." +:+ appFolderName +:+ ".channels." +:+ channelStateName.

End Ids.

Module Router.
Import JS Values Ids.

(** [s.substring(n)] *)
Fixpoint substring_from (n : nat) (s : string) : string :=
  match n, s with
  | S n', String _ r => substring_from n' r
  | _, _ => s
  end.

(** [s.split('.')] *)
Fixpoint split_dot (s : string) : list string :=
  match s with
  | "" => [""]
  | String c r =>
      if Ascii.eqb c dot then "" :: split_dot r
      else match split_dot r with
           | h :: t => String c h :: t
           | [] => [String c ""]
           end
  end.

Section WithEngine.
Context {E : Engine}.

(** An ioBroker state object: what [onStateChange] reads of it. *)
Record State := { val : value num; ack : bool }.

(** The handler of the device manager that is called, with its
    arguments. *)
Inductive Call :=
| handleRemoteCommand (command : string)
| handlePowerCommand (turnOn : value num)
| handleSeek (positionSeconds : value num)
| handleAppLaunch (appId : value num)
| handleAppFolderLaunch (appFolderName : string)
| handleChannelButton (appFolderName channelStateName : string)
| handleAppButton (stateName : string).

Inductive Outcome :=
| Ignored
| Warned (message : string)
| Dispatched (deviceId : string) (c : Call).

(** The chain of tests inside the [try] block. *)
Definition dispatch (parts : list string) (v : value num) : option Call :=
  match parts with
  | _ :: channel :: stateName :: _ =>
      if String.eqb channel "remote" then Some (handleRemoteCommand stateName)
      else if String.eqb channel "power" && String.eqb stateName "state"
      then Some (handlePowerCommand v)
      else if String.eqb channel "playing" && String.eqb stateName "position"
      then Some (handleSeek v)
      else if String.eqb channel "apps" then
        if String.eqb stateName "launch" && (length parts =? 3)
        then Some (handleAppLaunch v)
        else if (length parts =? 4) && String.eqb (nth 3 parts "") "launch"
        then Some (handleAppFolderLaunch stateName)
        else if (length parts =? 5) && String.eqb (nth 3 parts "") "channels"
        then Some (handleChannelButton stateName (nth 4 parts ""))
        else if (length parts =? 3) && negb (String.eqb stateName "list") &&
                negb (String.eqb stateName "current") &&
                negb (String.eqb stateName "currentId")
        then Some (handleAppButton stateName)
        else None
      else None
  | _ => None
  end.

(** [AppleTvAdapter.onStateChange(id, state)]: which handler of which
    device manager it calls.  [devices] are the keys of [this.devices]. *)
Definition onStateChange (namespace : string) (devices : gset string)
    (id : string) (state : option State) : Outcome :=
  match state with
  | None => Ignored
  | Some st =>
      if ack st then Ignored
      else
        let adapterPrefix := namespace +:+ "." in
        if negb (String.prefix adapterPrefix id) then Ignored
        else
          let parts := split_dot (substring_from (String.length adapterPrefix) id) in
          if length parts <? 3 then Ignored
          else
            let deviceId := nth 0 parts "" in
            if bool_decide (deviceId ∈ devices) then
              match dispatch parts (val st) with
              | Some c => Dispatched deviceId c
              | None => Ignored
              end
            else Warned ("State change for unknown device: " +:+ deviceId)
  end.

End WithEngine.

End Router.

(** ** Polling calls of the pyatv backend *)

Module Backend.
Import JS Values Push.

Section WithEngine.
Context {E : Engine}.

(** [deviceConfig.credentials]: an absent credential is the empty
    string. *)
Record Credentials := { mrp : string; airplay : string; companion : string }.

Record DeviceConfig := {
  identifier : string;
  address : string;
  credentials : option Credentials    (* [None]: no [credentials] object *)
}.

(** [PyatvBackend._buildDeviceArgs()] *)
Definition _buildDeviceArgs (c : DeviceConfig) : list string :=
  let creds := match credentials c with
               | Some x => x
               | None => {| mrp := ""; airplay := ""; companion := "" |}
               end in
  (if JS.truthy (identifier c) then ["--id"; identifier c]
   else if JS.truthy (address c) then ["-s"; address c]
   else []) ++
  (if JS.truthy (mrp creds) then ["--mrp-credentials"; mrp creds] else []) ++
  (if JS.truthy (airplay creds) then ["--airplay-credentials"; airplay creds] else []) ++
  (if JS.truthy (companion creds) then ["--companion-credentials"; companion creds] else []).

(** [result.k] for what [_execAtvscript] resolved with; of the keys read
    here only [repeat] exists on a value that is not an object (the
    method of a string). *)
Definition get (k : string) (result : value num) : value num :=
  match result with
  | VObj f => field k f
  | _ => VUndefined
  end.

(** The object [getPlaying] builds from the result.  On a string
    [result.repeat] is the [repeat] method, which has no [toLowerCase]. *)
Definition playing_of (result : value num) : M Out Playing :=
  mt ← lower_or (get "media_type" result) "unknown";
  ds ← lower_or (get "device_state" result) "idle";
  sh ← lower_or (get "shuffle" result) "off";
  rp ← match result with
       | VStr _ => throw "(intermediate value).toLowerCase is not a function"
       | _ => lower_or (get "repeat" result) "off"
       end;
  mret {| title := or_else (get "title" result) (VStr "");
          artist := or_else (get "artist" result) (VStr "");
          album := or_else (get "album" result) (VStr "");
          genre := or_else (get "genre" result) (VStr "");
          mediaType := mt;
          deviceState := ds;
          app := or_else (get "app" result) (VStr "");
          appId := or_else (get "app_id" result) (VStr "");
          position := or_else (get "position" result) (VNum num_zero);
          duration := or_else (get "total_time" result) (VNum num_zero);
          shuffle := sh;
          repeat := rp |}.

(** [PyatvBackend.getPlaying()], [r] being the outcome of its atvscript
    invocation. *)
Definition getPlaying (r : ExecResult) : M Out Playing :=
  result ← ([], _execAtvscript r); playing_of result.

(** [PyatvBackend.getPowerState()] *)
Definition getPowerState (r : ExecResult) : M Out bool :=
  result ← ([], _execAtvscript r); mret (is_str "on" (get "power_state" result)).

(** [PyatvBackend.isReachable()] *)
Definition isReachable (r : ExecResult) : M Out bool :=
  try_catch (_ ← getPowerState r; mret true) (fun _ => mret false).

(** [NodeBackend.getPlaying()] with nothing cached. *)
Definition NodeBackend_default_playing : Playing :=
  {| title := VStr ""; artist := VStr ""; album := VStr ""; genre := VStr "";
     mediaType := "unknown"; deviceState := "idle";
     app := VStr ""; appId := VStr "";
     position := VNum num_zero; duration := VNum num_zero;
     shuffle := "off"; repeat := "off" |}.

End WithEngine.

End Backend.

(** ** The device manager on the pyatv backend *)

Module Wiring.
Import JS Values Proc Push Backend DeviceManager.

Section WithEngine.
Context {E : Engine}.

(** The callback [connect()] hands to [startPushUpdates]:
    [(event) => this._handlePushEvent(event)], applied to what the
    backend does; its log lines are not the manager's. *)
Fixpoint forward (d : DeviceManager) (outs : list Out) : DeviceManager * list Effect :=
  match outs with
  | [] => (d, [])
  | Update e :: rest =>
      let (d1, es) := _handlePushEvent d e in
      let (d2, es') := forward d1 rest in
      (d2, es ++ es')
  | Log _ _ :: rest => forward d rest
  end.

(** The calls a poll tick makes on the pyatv backend: [getPlaying()],
    then [getPowerState()], each with the outcome of its atvscript
    invocation; [write_fails] names the state write of the tick that
    rejects, if one does.  A call that is not reached is not made, and
    what stands for its answer is never read. *)
Definition poll_env (playing_run power_run : ExecResult)
    (write_fails : option (PollStage * string)) : PollEnv :=
  match getPlaying playing_run with
  | (_, Throw m) =>
      {| playing := NodeBackend_default_playing; power := false;
         fails := Some (AtGetPlaying, m) |}
  | (_, Normal data) =>
      match write_fails with
      | Some (AtUpdatePlaying k, m) =>
          {| playing := data; power := false; fails := Some (AtUpdatePlaying k, m) |}
      | _ =>
          match getPowerState power_run with
          | (_, Throw m) => {| playing := data; power := false;
                               fails := Some (AtGetPowerState, m) |}
          | (_, Normal on) =>
              {| playing := data; power := on;
                 fails := match write_fails with
                          | Some (AtSetPower, m) => Some (AtSetPower, m)
                          | Some (AtSetConnected, m) => Some (AtSetConnected, m)
                          | _ => None
                          end |}
          end
      end
  end.

End WithEngine.

End Wiring.

(** ** Finding and installing pyatv (pyatv backend) *)

Module Install.
Import JS Values.

Definition SEARCH_PATHS : list string :=
  ["/usr/local/bin"; "/usr/bin"; "/home/iobroker/.local/bin"; "/root/.local/bin";
   "/opt/iobroker/.local/bin"; "/snap/bin"].

(** What [findBinary] sees of the file system: whether
    [fs.accessSync(path, X_OK)] returns, and what [fs.readdirSync('/home')]
    returns ([None] when it throws). *)
Record FileSystem := {
  executable : string -> bool;
  homes : option (list string)
}.

(** The paths [findBinary(name)] tries, in order. *)
Definition known_paths (name : string) : list string :=
  List.map (fun dir => dir +:+ "/" +:+ name) SEARCH_PATHS.

Definition home_paths (fs : FileSystem) (name : string) : list string :=
  match homes fs with
  | Some users => List.map (fun user => "/home/" +:+ user +:+ "/.local/bin/" +:+ name) users
  | None => []
  end.

(** [findBinary(name)] *)
Definition findBinary (fs : FileSystem) (name : string) : string :=
  match List.find (executable fs) (known_paths name) with
  | Some fullPath => fullPath
  | None =>
      match List.find (executable fs) (home_paths fs name) with
      | Some fullPath => fullPath
      | None => name
      end
  end.

Inductive Eff :=
| Log (l : level) (message : string)
| ExecFile (cmd : string) (args : list string).

(** [PyatvBackend.checkInstalled()]; [probe] is the error of the
    fallback [execFile], if it is run and fails. *)
Definition checkInstalled (fs : FileSystem) (probe : option string) : M Eff bool :=
  if negb (String.eqb (findBinary fs "atvscript") "atvscript") then mret true
  else if negb (String.eqb (findBinary fs "atvremote") "atvremote") then mret true
  else
    emit (ExecFile "atvscript" ["scan"; "--help"]) ;;
    mret (match probe with None => true | Some _ => false end).

(** [tryExec(cmd, args)]; [answer] is [None] when the command succeeds
    and [Some m] when it fails, reported as [m] ([stderr ||
    error.message]). *)
Definition tryExec (cmd : string) (args : list string) (answer : option string)
  : M Eff bool :=
  emit (Log info ("Trying: " +:+ cmd +:+ " " +:+ join " " args)) ;;
  emit (ExecFile cmd args) ;;
  match answer with
  | None => mret true
  | Some m => emit (Log debug (cmd +:+ " failed: " +:+ m)) ;; mret false
  end.

Definition pip_flagged : list string := ["install"; "pyatv"; "--break-system-packages"].
Definition pip_plain : list string := ["install"; "pyatv"].

(** [PyatvBackend.installPyatv(log)]; [answers i] is the answer of the
    command that is run as number [i] (from 0). *)
Definition installPyatv (answers : nat -> option string) : M Eff bool :=
  emit (Log info "Attempting to install pyatv automatically...") ;;
  ok ← tryExec "pip3" pip_flagged (answers 0);
  if (ok : bool) then
    emit (Log info "pyatv installed successfully via pip3 (--break-system-packages)") ;;
    mret true
  else
    ok ← tryExec "pip3" pip_plain (answers 1);
    if (ok : bool) then
      emit (Log info "pyatv installed successfully via pip3") ;; mret true
    else
      emit (Log info "pip3 not found or failed, trying to install python3-pip via apt...") ;;
      _ ← tryExec "apt-get" ["update"; "-qq"] (answers 2);
      apt ← tryExec "apt-get" ["install"; "-y"; "python3-pip"; "python3-venv"] (answers 3);
      retried ← (if (apt : bool) then
                   emit (Log info "python3-pip installed, retrying pyatv install...") ;;
                   ok ← tryExec "pip3" pip_flagged (answers 4);
                   if (ok : bool) then
                     emit (Log info "pyatv installed successfully after apt install python3-pip") ;;
                     mret true
                   else
                     ok ← tryExec "pip3" pip_plain (answers 5);
                     if (ok : bool) then
                       emit (Log info
                               "pyatv installed successfully after apt install python3-pip") ;;
                       mret true
                     else mret false
                 else mret false);
      if (retried : bool) then mret true
      else
        ok ← tryExec "pip" pip_flagged (answers (if (apt : bool) then 6 else 4));
        if (ok : bool) then
          emit (Log info "pyatv installed successfully via pip") ;; mret true
        else
          emit (Log error ("pyatv auto-install failed. Please install manually: " +:+
                           "sudo pip3 install pyatv --break-system-packages")) ;;
          mret false.

End Install.

(** ** The node-appletv-x backend *)

Module NodeBackend.
Import JS Values Push.

Section WithEngine.
Context {E : Engine}.

(** The own keys of [stateMap]. *)
Definition stateMap : list (string * string) :=
  [("0", "paused"); ("1", "playing"); ("2", "idle")].

(** The property names every object inherits from [Object.prototype];
    their values are functions or objects, so truthy. *)
Definition inherited_keys : list string :=
  ["constructor"; "__defineGetter__"; "__defineSetter__"; "hasOwnProperty";
   "__lookupGetter__"; "__lookupSetter__"; "isPrototypeOf"; "propertyIsEnumerable";
   "toString"; "valueOf"; "__proto__"; "toLocaleString"].

(** What [_mapNodePlaybackState] returns: one of its strings, or, for a
    key found on the prototype, that inherited property. *)
Inductive DeviceState :=
| Named (s : string)
| Inherited (key : string).

Fixpoint lookup (k : string) (m : list (string * string)) : option string :=
  match m with
  | [] => None
  | (k', v) :: rest => if String.eqb k k' then Some v else lookup k rest
  end.

(** [NodeBackend._mapNodePlaybackState(info)] *)
Definition _mapNodePlaybackState (info : value num) : DeviceState :=
  let playbackState := match info with
                       | VObj f => field "playbackState" f
                       | _ => VUndefined
                       end in
  if negb (truthy info) || negb (truthy playbackState) then Named "idle"
  else
    let key := String_ playbackState in
    match lookup key stateMap with
    | Some s => Named s
    | None =>
        if existsb (String.eqb key) inherited_keys then Inherited key
        else Named "idle"
    end.

End WithEngine.

End NodeBackend.

(** ** Unloading the adapter (main.js) *)

Module Unload.
Import JS Values Proc Pairing.

Section WithEngine.
Context {E : Engine}.

(** What [onUnload] touches of the adapter: the auto-scan timer, the
    refresh timer of the streaming manager ([None]: no streaming
    manager), the pairing sessions with the process table, and the
    device managers in the order of [this.devices]. *)
Record Runtime := {
  autoScanTimer : bool;
  refreshTimer : option bool;
  _pairingSessions : gmap string PyatvBackend;
  processes : list ChildProcess;
  devices : list (string * DeviceManager.DeviceManager)
}.

Inductive Effect :=
| ClearAutoScan
| ClearRefresh
| OfManager (deviceId : string) (e : DeviceManager.Effect)
| SetConnection (connected : bool)      (* [setState('info.connection', c, true)] *)
| LogError (message : string)
| Callback.

(** [for (const [_id, backend] of this._pairingSessions) backend.pairAbort()] *)
Definition abort_all (sessions : list (string * PyatvBackend)) (t : list ChildProcess)
  : list ChildProcess :=
  fold_left (fun t kb => (pairAbort kb.2 t).2) sessions t.

(** [for (const [_deviceId, manager] of this.devices) await
    manager.disconnect()]: the loop ends at the first [disconnect()]
    that rejects; [rejects id] is what the [disconnect()] of the device
    [id] rejects with, if it does. *)
Fixpoint disconnect_all (devs : list (string * DeviceManager.DeviceManager))
    (rejects : string -> option string)
  : list (string * DeviceManager.DeviceManager) * M Effect unit :=
  match devs with
  | [] => ([], ([], Normal tt))
  | (deviceId, manager) :: rest =>
      match DeviceManager.disconnect manager (rejects deviceId) with
      | (manager', (es, Normal _)) =>
          let (rest', r) := disconnect_all rest rejects in
          ((deviceId, manager') :: rest', (List.map (OfManager deviceId) es ++ r.1, r.2))
      | (manager', (es, Throw m)) =>
          ((deviceId, manager') :: rest, (List.map (OfManager deviceId) es, Throw m))
      end
  end.

(** [AppleTvAdapter.onUnload(callback)].  The second component are the
    device managers as the loop left them; [this.devices] itself is
    cleared when the loop completes. *)
Definition onUnload (r : Runtime) (rejects : string -> option string)
  : Runtime * list (string * DeviceManager.DeviceManager) * list Effect :=
  let es0 := (if autoScanTimer r then [ClearAutoScan] else []) ++
             (match refreshTimer r with Some true => [ClearRefresh] | _ => [] end) in
  let refresh := match refreshTimer r with Some _ => Some false | None => None end in
  let t := abort_all (map_to_list (_pairingSessions r)) (processes r) in
  let (managers, res) := disconnect_all (devices r) rejects in
  match res with
  | (es, Normal _) =>
      ({| autoScanTimer := false; refreshTimer := refresh; _pairingSessions := ∅;
          processes := t; devices := [] |},
       managers,
       es0 ++ es ++ [SetConnection false; Callback])
  | (es, Throw m) =>
      ({| autoScanTimer := false; refreshTimer := refresh; _pairingSessions := ∅;
          processes := t; devices := managers |},
       managers,
       es0 ++ es ++ [LogError ("Error during unload: " +:+ m); Callback])
  end.

End WithEngine.

End Unload.

(** ** The extraction rule as the specification words it *)

Module Spec.
Import JS Credentials.

(** If [s] starts with [p] up to letter case, what follows. *)
Fixpoint strip_prefix_ci (p s : string) : option string :=
  match p, s with
  | "", _ => Some s
  | String a p', String b s' =>
      if Ascii.eqb (toLowerChar a) (toLowerChar b) then strip_prefix_ci p' s' else None
  | String _ _, "" => None
  end.

(** Top to bottom: the first line with a case-insensitive
    [credentials:] prefix, its remainder trimmed. *)
Fixpoint scan_prefix (lines : list string) : option string :=
  match lines with
  | [] => None
  | line :: rest =>
      match strip_prefix_ci "credentials:" line with
      | Some r => Some (trim r)
      | None => scan_prefix rest
      end
  end.

(** Bottom to top: the first line made of hexadecimal digits and colons
    only, longer than 20. *)
Definition scan_hex_line (lines : list string) : option string :=
  List.find looks_like_credentials (rev lines).

Definition extractCredentials (output : string) : option string :=
  let lines := split_nl output in
  match scan_prefix lines with
  | Some c => Some c
  | None => scan_hex_line lines
  end.

End Spec.

(** ** An engine for the examples *)

Module Example.
Import Values.

(** A quoted JSON string, the quote built from its code. *)
Definition quoted (s : string) : string :=
  String (ascii_of_nat 34) s +:+ String (ascii_of_nat 34) "".

(** [{"result":"success","power_state":"on"}] *)
Definition line_power : string :=
  "{" +:+ quoted "result" +:+ ":" +:+ quoted "success" +:+ "," +:+
  quoted "power_state" +:+ ":" +:+ quoted "on" +:+ "}".

(** [{"result":"success","volume":20}] *)
Definition line_volume : string :=
  "{" +:+ quoted "result" +:+ ":" +:+ quoted "success" +:+ "," +:+
  quoted "volume" +:+ ":20}".

Definition show_Z (z : Z) : string := NilZero.string_of_int (Z.to_int z).

(** Numbers are integers, and [JSON.parse] knows the two sample lines
    above; every other text is a syntax error to it. *)
Definition engine : Engine := {|
  num := Z;
  num_zero := 0%Z;
  num_truthy := fun z => negb (z =? 0)%Z;
  num_toString := show_Z;
  JSON_parse := fun s =>
    if String.eqb s line_power then
      inr (VObj [("result", VStr "success"); ("power_state", VStr "on")])
    else if String.eqb s line_volume then
      inr (VObj [("result", VStr "success"); ("volume", VNum 20%Z)])
    else inl "Unexpected token";
  JSON_stringify := fun _ => "{}"
|}.

#[local] Existing Instance engine.

(** A pairing process waiting for its PIN, and the backend that owns
    it. *)
Definition pairing_table : list Proc.ChildProcess :=
  [ {| Proc.command := "atvremote";
       Proc.args := ["--id"; "tv"; "--protocol"; "airplay"; "pair"];
       Proc.killed := false; Proc.exited := false; Proc.stdin := [] |} ].

Definition pairing_backend : Pairing.PyatvBackend :=
  {| Pairing.identifier := "tv"; Pairing.address := "";
     Pairing.atvremotePath := "atvremote"; Pairing._pairProcess := Some 0 |}.

(** A backend fresh from its constructor. *)
Definition fresh_backend : Pairing.PyatvBackend :=
  {| Pairing.identifier := "tv"; Pairing.address := "";
     Pairing.atvremotePath := "atvremote"; Pairing._pairProcess := None |}.

(** The adapter before any pairing, and the admin messages for the
    device [tv]. *)
Definition adapter0 : Adapter.Adapter :=
  {| Adapter._pairingSessions := ∅; Adapter.processes := [] |}.

Definition start_tv : Adapter.Obj (E := engine) :=
  {| Adapter.message :=
       Some {| Adapter.m_identifier := Some "tv"; Adapter.m_address := None;
               Adapter.m_protocol := Some "airplay"; Adapter.m_pin := VUndefined |};
     Adapter.callback := true |}.

Definition submit_tv (pin : value (@num engine)) : Adapter.Obj (E := engine) :=
  {| Adapter.message :=
       Some {| Adapter.m_identifier := Some "tv"; Adapter.m_address := None;
               Adapter.m_protocol := Some "airplay"; Adapter.m_pin := pin |};
     Adapter.callback := true |}.

(** The pairing tool asking for the PIN. *)
Definition prompt : list Proc.Signal := [Proc.Stdout "Enter PIN on screen: "].

(** A device manager whose push connection was lost once: the first
    reconnect timer is pending. *)
Definition manager_waiting : DeviceManager.DeviceManager :=
  {| DeviceManager.label := "Living Room";
     DeviceManager.pushHandle := true;
     DeviceManager.pollTimer := false;
     DeviceManager.reconnectTimer := Some 5000%N;
     DeviceManager.artworkTimer := true;
     DeviceManager.connected := false;
     DeviceManager.reconnectAttempts := 1%N |}.

(** A device manager in poll mode, connected. *)
Definition manager_polling : DeviceManager.DeviceManager :=
  {| DeviceManager.label := "Living Room";
     DeviceManager.pushHandle := false;
     DeviceManager.pollTimer := true;
     DeviceManager.reconnectTimer := None;
     DeviceManager.artworkTimer := false;
     DeviceManager.connected := true;
     DeviceManager.reconnectAttempts := 0%N |}.

Definition connect_ok : DeviceManager.ConnectEnv :=
  {| DeviceManager.startPush_throws := None; DeviceManager.setState_rejects := None |}.

Definition idle : Push.Playing (E := engine) :=
  {| Push.title := VStr ""; Push.artist := VStr ""; Push.album := VStr "";
     Push.genre := VStr ""; Push.mediaType := "unknown"; Push.deviceState := "idle";
     Push.app := VStr ""; Push.appId := VStr ""; Push.position := VNum 0%Z;
     Push.duration := VNum 0%Z; Push.shuffle := "off"; Push.repeat := "off" |}.

(** A poll tick on which [getPlaying] fails. *)
Definition poll_unreachable : DeviceManager.PollEnv (E := engine) :=
  {| DeviceManager.playing := idle; DeviceManager.power := false;
     DeviceManager.fails := Some (DeviceManager.AtGetPlaying, "atvscript failed: timeout") |}.

End Example.

(** ** Vocabulary of the statements *)

Module Vocabulary.
Import JS Proc.

(** A string [trimEnd] leaves alone: it does not end in whitespace. *)
Definition clean (s : string) : Prop := trimEnd s = s.

(** The characters of the fallback credential test. *)
Definition hex_alphabet : list ascii := list_ascii_of_string "0123456789abcdefABCDEF:".

(** The output chunks among the signals. *)
Definition is_data (sig : Signal) : bool :=
  match sig with
  | Stdout _ | Stderr _ => true
  | _ => false
  end.

(** What the data handlers have appended after [sigs]. *)
Fixpoint collected (sigs : list Signal) : string :=
  match sigs with
  | [] => ""
  | Stdout chunk :: rest | Stderr chunk :: rest => chunk +:+ collected rest
  | _ :: rest => collected rest
  end.

(** A text without a newline in it. *)
Fixpoint no_newline (s : string) : bool :=
  match s with
  | "" => true
  | String c r => negb (Ascii.eqb c LF) && no_newline r
  end.

(** Complete lines, each followed by its newline. *)
Fixpoint unlines (lines : list string) : string :=
  match lines with
  | [] => ""
  | l :: rest => l +:+ nl +:+ unlines rest
  end.

(** Chunks, one after the other. *)
Fixpoint concat_chunks (chunks : list string) : string :=
  match chunks with
  | [] => ""
  | c :: rest => c +:+ concat_chunks rest
  end.

(** The signals with which a process ends or fails: its ['error'] and
    its ['exit']. *)
Definition is_terminal (sig : Signal) : bool :=
  match sig with
  | ProcError _ | Exit _ => true
  | _ => false
  end.

Definition not_terminal (sig : Signal) : bool := negb (is_terminal sig).

Section WithEngine.
Import Values Push.
Context {E : Engine}.

(** The connection event the handler of a terminal signal hands to
    [onUpdate]. *)
Definition terminal_event (sig : Signal) : list PushEvent :=
  match sig with
  | ProcError _ => [EvConnection false (VStr "process_error")]
  | Exit _ => [EvConnection false (VStr "process_exit")]
  | _ => []
  end.

(** A connection event with [connected = false] and one of the two
    process tags. *)
Definition is_terminal_event (e : PushEvent) : bool :=
  match e with
  | EvConnection false (VStr reason) =>
      String.eqb reason "process_error" || String.eqb reason "process_exit"
  | _ => false
  end.

End WithEngine.

End Vocabulary.

(** ** A second engine and further sample data *)

Module Scenario.
Import Values.

(** [{"result":"success","title":"Song","device_state":"Playing"}] *)
Definition line_song : string :=
  "{" +:+ Example.quoted "result" +:+ ":" +:+ Example.quoted "success" +:+ "," +:+
  Example.quoted "title" +:+ ":" +:+ Example.quoted "Song" +:+ "," +:+
  Example.quoted "device_state" +:+ ":" +:+ Example.quoted "Playing" +:+ "}".

(** [{"result":"success","power_state":"on","title":"Song","media_type":3,"volume":20}] *)
Definition line_bad : string :=
  "{" +:+ Example.quoted "result" +:+ ":" +:+ Example.quoted "success" +:+ "," +:+
  Example.quoted "power_state" +:+ ":" +:+ Example.quoted "on" +:+ "," +:+
  Example.quoted "title" +:+ ":" +:+ Example.quoted "Song" +:+ "," +:+
  Example.quoted "media_type" +:+ ":3," +:+ Example.quoted "volume" +:+ ":20}".

Definition song_fields : list (string * value Z) :=
  [("result", VStr "success"); ("title", VStr "Song"); ("device_state", VStr "Playing")].

Definition bad_fields : list (string * value Z) :=
  [("result", VStr "success"); ("power_state", VStr "on"); ("title", VStr "Song");
   ("media_type", VNum 3%Z); ("volume", VNum 20%Z)].

(** Numbers are integers, and [JSON.parse] knows the two lines above. *)
Definition engine : Engine := {|
  num := Z;
  num_zero := 0%Z;
  num_truthy := fun z => negb (z =? 0)%Z;
  num_toString := Example.show_Z;
  JSON_parse := fun s =>
    if String.eqb s line_song then inr (VObj song_fields)
    else if String.eqb s line_bad then inr (VObj bad_fields)
    else inl "Unexpected token";
  JSON_stringify := fun _ => "{}"
|}.

#[local] Existing Instance engine.

(** What [getPlaying] and the push parser make of [line_song]. *)
Definition song : Push.Playing (E := engine) :=
  {| Push.title := VStr "Song"; Push.artist := VStr ""; Push.album := VStr "";
     Push.genre := VStr ""; Push.mediaType := "unknown"; Push.deviceState := "playing";
     Push.app := VStr ""; Push.appId := VStr ""; Push.position := VNum 0%Z;
     Push.duration := VNum 0%Z; Push.shuffle := "off"; Push.repeat := "off" |}.

(** The adapter instance [apple-tv.0] with one device, and a button
    press. *)
Definition namespace : string := "apple-tv.0".
Definition raw_id : string := "AA:BB:CC".
Definition devices : gset string := {[ "AA_BB_CC" ]}.

Definition pressed : Router.State (E := engine) :=
  {| Router.val := VBool true; Router.ack := false |}.

(** A system with [atvscript] in [/usr/bin] only. *)
Definition fs : Install.FileSystem :=
  {| Install.executable := fun p => String.eqb p "/usr/bin/atvscript";
     Install.homes := None |}.

(** An installation on which the first [pip3] call is refused and the
    second succeeds. *)
Definition answers (i : nat) : option string :=
  match i with
  | 0 => Some "error: externally-managed-environment"
  | _ => None
  end.

(** An adapter with one pairing session and one device manager. *)
Definition runtime : Unload.Runtime :=
  {| Unload.autoScanTimer := true;
     Unload.refreshTimer := None;
     Unload._pairingSessions := {[ "tv" := Example.pairing_backend ]};
     Unload.processes := Example.pairing_table;
     Unload.devices := [("tv", Example.manager_waiting)] |}.

Definition no_rejection (deviceId : string) : option string := None.

Definition config : Backend.DeviceConfig :=
  {| Backend.identifier := "tv"; Backend.address := "";
     Backend.credentials :=
       Some {| Backend.mrp := ""; Backend.airplay := "a1b2c3"; Backend.companion := "" |} |}.

(** An atvscript call that timed out. *)
Definition timed_out : Push.ExecResult := Push.ExecFailed "Command failed: timeout" "".

End Scenario.

(** ** Vocabulary of the further statements *)

Module Notions.
Import JS Ids.

(** Every character of [s] satisfies [p]. *)
Fixpoint all_chars (p : ascii -> bool) (s : string) : bool :=
  match s with
  | "" => true
  | String c r => p c && all_chars p r
  end.

Definition no_dot (s : string) : bool := all_chars (fun c => negb (Ascii.eqb c dot)) s.

Definition starts_with_underscore (s : string) : bool :=
  match s with
  | String c _ => Ascii.eqb c underscore
  | "" => false
  end.

Fixpoint ends_with_underscore (s : string) : bool :=
  match s with
  | "" => false
  | String c r =>
      match r with
      | "" => Ascii.eqb c underscore
      | String _ _ => ends_with_underscore r
      end
  end.

Fixpoint no_double_underscore (s : string) : bool :=
  match s with
  | "" => true
  | String c r =>
      negb (Ascii.eqb c underscore && starts_with_underscore r) && no_double_underscore r
  end.

(** A name made of [[a-zA-Z0-9_-]] in which underscores only stand
    alone between other characters. *)
Definition well_formed_name (s : string) : bool :=
  all_chars is_id_char s && no_double_underscore s &&
  negb (starts_with_underscore s) && negb (ends_with_underscore s).

Section WithEngine.
Import Values Push Backend.
Context {E : Engine}.

(** A value [(v || d).toLowerCase()] throws on: truthy and no string. *)
Definition not_a_string (v : value num) : bool :=
  truthy v && negb (match v with VStr _ => true | _ => false end).

(** The fields [toLowerCase] is called on. *)
Definition lowered_fields : list string := ["media_type"; "device_state"; "shuffle"; "repeat"].

(** The calls of [onUpdate] for the power, volume and connection fields
    of a push event. *)
Definition power_part (event : list (string * value num)) : list Out :=
  if has_key "power_state" event
  then [Update (EvPower (is_str "on" (field "power_state" event)))] else [].

Definition volume_part (event : list (string * value num)) : list Out :=
  if has_key "volume" event then [Update (EvVolume (field "volume" event))] else [].

Definition connection_part (event : list (string * value num)) : list Out :=
  if has_key "connection" event
  then [Update (EvConnection false (field "connection" event))] else [].

(** A call of [onUpdate] with a playing event. *)
Definition is_playing_update (o : Out) : bool :=
  match o with
  | Update (EvPlaying _) => true
  | _ => false
  end.


End WithEngine.

Section Installation.
Import Values Install.

(** Every path [findBinary] tries for a name. *)
Definition candidates (fs : FileSystem) (name : string) : list string :=
  known_paths name ++ home_paths fs name.

(** The commands among the effects, in order. *)
Fixpoint commands (es : list Eff) : list (string * list string) :=
  match es with
  | [] => []
  | ExecFile cmd args :: rest => (cmd, args) :: commands rest
  | Log _ _ :: rest => commands rest
  end.

(** [pip3 install pyatv ...] or [pip install pyatv ...]. *)
Definition is_pyatv_install (c : string * list string) : bool :=
  (String.eqb c.1 "pip3" || String.eqb c.1 "pip") &&
  match c.2 with
  | verb :: package :: _ => String.eqb verb "install" && String.eqb package "pyatv"
  | _ => false
  end.

(** Whether the command number [i] of a run succeeded. *)
Definition succeeded (answers : nat -> option string) (i : nat) : bool :=
  match answers i with
  | None => true
  | Some _ => false
  end.

Definition is_final_error (e : Eff) : bool :=
  match e with
  | Log error _ => true
  | _ => false
  end.

End Installation.

Section PairingNotions.
Import Credentials Values Proc Pairing.

(** As long as [resolved] is unset nothing has been settled. *)
Definition unsettled_while_pending (st : Pending) : Prop :=
  resolved st = false -> settled st = None.

(** The state of the [pairStart] handlers after output [out]. *)
Definition after_output (tm : bool) (out : string) : Pending :=
  if pin_prompt out then
    {| output := out; resolved := true; timer := false;
       settled := Some (Normal {| r_status := awaitingPin; r_credentials := Absent |}) |}
  else
    {| output := out; resolved := false; timer := tm; settled := None |}.

(** What the exit handler of [pairFinish] settles with after output
    [out] and exit code [code]. *)
Definition exit_outcome (out : string) (code : option nat) : completion PairResult :=
  match _extractCredentials out with
  | Some c => Normal {| r_status := paired; r_credentials := Str c |}
  | None =>
      match code with
      | Some 0 => Normal {| r_status := paired; r_credentials := Str (trim out) |}
      | _ => Throw ("Pairing failed after PIN entry (exit code " +:+ show_code code
                    +:+ "): " +:+ substring0 300 out)
      end
  end.

End PairingNotions.

Section SessionNotions.
Import Values Proc Pairing Adapter.
Context {E : Engine}.

(** The message names the device [k]. *)
Definition targets (obj : Obj) (k : string) : Prop :=
  let msg := match message obj with Some m => m | None => empty_message end in
  str_or (m_identifier msg) (m_address msg) = Some k.

(** The message carries a PIN of four characters. *)
Definition has_pin (obj : Obj) : Prop :=
  let msg := match message obj with Some m => m | None => empty_message end in
  String.length (pin_of msg) = 4.

End SessionNotions.

Section ManagerNotions.
Import Values Push DeviceManager.
Context {E : Engine}.

(** No push handle and no timer of any kind. *)
Definition no_handles (d : DeviceManager) : Prop :=
  pushHandle d = false /\ pollTimer d = false /\ reconnectTimer d = None /\
  artworkTimer d = false.

(** How many effects of a kind a run has performed. *)
Definition count (kind : Effect -> bool) (es : list Effect) : nat :=
  List.length (List.filter kind es).

Definition is_StartPush (e : Effect) : bool :=
  match e with StartPush => true | _ => false end.
Definition is_StopPush (e : Effect) : bool :=
  match e with StopPush => true | _ => false end.
Definition is_SetInterval (s : Slot) (e : Effect) : bool :=
  match e, s with
  | SetInterval PollSlot, PollSlot | SetInterval ArtworkSlot, ArtworkSlot => true
  | _, _ => false
  end.
Definition is_ClearInterval (s : Slot) (e : Effect) : bool :=
  match e, s with
  | ClearInterval PollSlot, PollSlot | ClearInterval ArtworkSlot, ArtworkSlot => true
  | _, _ => false
  end.
Definition is_SetTimeout (e : Effect) : bool :=
  match e with SetTimeout _ => true | _ => false end.

(** [connect()] then [disconnect()], again and again; each round has its
    own outcomes of the collaborators. *)
Fixpoint cycles (d : DeviceManager) (rounds : list (ConnectEnv * option string))
  : DeviceManager * list Effect :=
  match rounds with
  | [] => (d, [])
  | (env, rejects) :: rest =>
      let r1 := connect d env in
      let r2 := disconnect r1.1 rejects in
      let r3 := cycles r2.1 rest in
      (r3.1, r1.2 ++ r2.2.1 ++ r3.2)
  end.

(** The attempt counter is within its ceiling and a pending reconnect
    timer within the delay bounds. *)
Definition within_bounds (d : DeviceManager) : Prop :=
  (reconnectAttempts d <= MAX_RECONNECT_ATTEMPTS)%N /\
  forall x, reconnectTimer d = Some x ->
            (RECONNECT_BASE_DELAY <= x <= RECONNECT_MAX_DELAY)%N.

(** Every timeout among the effects is within the delay bounds. *)
Definition timeouts_within (es : list Effect) : bool :=
  forallb (fun e => match e with
                    | SetTimeout x =>
                        (RECONNECT_BASE_DELAY <=? x)%N && (x <=? RECONNECT_MAX_DELAY)%N
                    | _ => true
                    end) es.

End ManagerNotions.

End Notions.

(** * Properties *)

Import JS Credentials Values Proc Vocabulary.

(** ** Strings *)

Lemma append_cons (x : ascii) (a b : string) : String x a +:+ b = String x (a +:+ b).
Proof. reflexivity. Qed.

Lemma append_nil_l (b : string) : "" +:+ b = b.
Proof. reflexivity. Qed.

Lemma append_assoc (a b c : string) : (a +:+ b) +:+ c = a +:+ (b +:+ c).
Proof.
  induction a as [|x a IH]; [reflexivity |].
  now rewrite !append_cons, IH.
Qed.

Lemma append_nil_r (a : string) : a +:+ "" = a.
Proof.
  induction a as [|x a IH]; [reflexivity |].
  now rewrite append_cons, IH.
Qed.

Lemma truthy_true (s : string) : JS.truthy s = true <-> s <> "".
Proof.
  unfold JS.truthy. destruct s; simpl; split; intros H; congruence.
Qed.

Lemma truthy_false (s : string) : JS.truthy s = false <-> s = "".
Proof.
  unfold JS.truthy. destruct s; simpl; split; intros H; congruence.
Qed.

Lemma line_terminator_is_ws (c : ascii) : is_line_terminator c = true -> is_ws c = true.
Proof.
  unfold is_line_terminator, is_ws. intros H.
  apply orb_true_iff in H. destruct H as [H | H]; apply Nat.eqb_eq in H; rewrite H; reflexivity.
Qed.

Lemma split_nl_nonempty (s : string) : split_nl s <> [].
Proof.
  induction s as [|c r IH]; simpl; [discriminate |].
  destruct (Ascii.eqb c LF); [discriminate |].
  destruct (split_nl r); discriminate.
Qed.

(** Splitting a concatenation: the last piece of the first part is
    continued by the second part. *)
Lemma split_nl_app (a b : string) :
  split_nl (a +:+ b) =
  removelast (split_nl a) ++ split_nl (List.last (split_nl a) "" +:+ b).
Proof.
  induction a as [|c r IH]; [reflexivity |].
  rewrite append_cons. simpl.
  destruct (Ascii.eqb c LF) eqn:Hc.
  - rewrite IH. pose proof (split_nl_nonempty r) as Hne.
    destruct (split_nl r) as [|h t]; [now elim Hne |]. reflexivity.
  - rewrite IH. pose proof (split_nl_nonempty r) as Hne.
    destruct (split_nl r) as [|h t] eqn:Hr; [now elim Hne |].
    destruct t as [|h' t'].
    + simpl. now rewrite Hc.
    + reflexivity.
Qed.

Lemma split_nl_newline (a b : string) :
  split_nl (a +:+ nl +:+ b) = split_nl a ++ split_nl b.
Proof.
  induction a as [|c r IH]; [reflexivity |].
  rewrite append_cons. simpl.
  destruct (Ascii.eqb c LF); rewrite IH; [reflexivity |].
  pose proof (split_nl_nonempty r) as Hne.
  destruct (split_nl r); [now elim Hne | reflexivity].
Qed.

(** ** Credential extraction *)

Lemma lines_of_newline (a b : string) :
  lines_of (a +:+ nl +:+ b) = lines_of a ++ lines_of b.
Proof.
  unfold lines_of. now rewrite split_nl_newline, List.map_app, List.filter_app.
Qed.

Lemma scan_marker_first (before after : list string) (line g : string) :
  Forall (fun l => regex_credentials l = None) before ->
  regex_credentials line = Some g ->
  scan_marker (before ++ line :: after) = Some (trim g).
Proof.
  intros Hb Hl. induction Hb as [|x xs Hx _ IH]; simpl.
  - now rewrite Hl.
  - now rewrite Hx.
Qed.

Lemma scan_marker_none (lines : list string) :
  Forall (fun l => regex_credentials l = None) lines -> scan_marker lines = None.
Proof.
  intros H. induction H as [|x xs Hx _ IH]; simpl; [reflexivity | now rewrite Hx].
Qed.

(** The reverse loop, one index down. *)
Lemma scan_hex_snoc (xs zs : list string) (y : string) :
  scan_hex (List.length (xs ++ [y])) ((xs ++ [y]) ++ zs) =
  if looks_like_credentials y then Some y
  else scan_hex (List.length xs) (xs ++ y :: zs).
Proof.
  rewrite List.length_app, Nat.add_1_r. simpl.
  rewrite <- List.app_assoc. simpl.
  rewrite List.nth_error_app2 by lia. rewrite Nat.sub_diag. simpl.
  reflexivity.
Qed.

Lemma scan_hex_last (before after zs : list string) (line : string) :
  looks_like_credentials line = true ->
  Forall (fun l => looks_like_credentials l = false) after ->
  scan_hex (List.length (before ++ line :: after)) ((before ++ line :: after) ++ zs)
  = Some line.
Proof.
  intros Hl. revert zs. induction after as [|y ys IH] using rev_ind; intros zs Ha.
  - rewrite scan_hex_snoc. now rewrite Hl.
  - apply Forall_app in Ha. destruct Ha as [Hys Hy].
    inversion Hy as [|? ? Hy' _]; subst.
    replace (before ++ line :: ys ++ [y]) with ((before ++ line :: ys) ++ [y])
      by now rewrite <- List.app_assoc.
    rewrite scan_hex_snoc, Hy'.
    specialize (IH (y :: zs) Hys). exact IH.
Qed.

Lemma scan_hex_none (xs zs : list string) :
  Forall (fun l => looks_like_credentials l = false) xs ->
  scan_hex (List.length xs) (xs ++ zs) = None.
Proof.
  revert zs. induction xs as [|y ys IH] using rev_ind; intros zs H; [reflexivity |].
  apply Forall_app in H. destruct H as [Hys Hy].
  inversion Hy as [|? ? Hy' _]; subst.
  rewrite scan_hex_snoc, Hy'. now apply IH.
Qed.

Lemma clean_tail (c : ascii) (r : string) : clean (String c r) -> clean r.
Proof.
  unfold clean. simpl. destruct (trimEnd r) as [|x r'] eqn:Hr.
  - destruct (is_ws c); intros H; [discriminate |].
    injection H as <-. reflexivity.
  - intros H. now injection H.
Qed.

Lemma trimEnd_clean (s : string) : clean (trimEnd s).
Proof.
  unfold clean. induction s as [|c r IH]; [reflexivity |].
  simpl. destruct (trimEnd r) as [|x r'] eqn:Hr.
  - destruct (is_ws c) eqn:Hc; [reflexivity |]. simpl. now rewrite Hc.
  - change (trimEnd (String c (String x r'))) with
      (match trimEnd (String x r') with
       | "" => if is_ws c then "" else String c ""
       | r'' => String c r''
       end).
    now rewrite IH.
Qed.

Lemma trim_clean (s : string) : clean (trim s).
Proof. apply trimEnd_clean. Qed.

Lemma clean_trimStart (s : string) : clean s -> s <> "" -> trimStart s <> "".
Proof.
  induction s as [|c r IH]; intros Hc Hne; [now elim Hne |].
  simpl. destruct (is_ws c) eqn:Hw; [| discriminate].
  apply IH; [now apply clean_tail in Hc |].
  intros ->. unfold clean in Hc. simpl in Hc. now rewrite Hw in Hc.
Qed.

Lemma trimStart_head (s : string) :
  trimStart s <> "" -> exists c r, trimStart s = String c r /\ is_ws c = false.
Proof.
  induction s as [|c r IH]; simpl; intros H; [now elim H |].
  destruct (is_ws c) eqn:Hw; [now apply IH |]. now exists c, r.
Qed.

Lemma trimEnd_head (c : ascii) (r : string) :
  is_ws c = false -> exists r', trimEnd (String c r) = String c r'.
Proof.
  intros Hw. simpl. destruct (trimEnd r) as [|x r'].
  - rewrite Hw. now exists "".
  - now exists (String x r').
Qed.

(** [\s*(.+)] on a text with something other than whitespace in it:
    the group starts at the first such character. *)
Lemma ws_then_group_trimStart (rest : string) :
  trimStart rest <> "" -> ws_then_group rest = Some (dot_run (trimStart rest)).
Proof.
  induction rest as [|c r IH]; simpl; intros H; [now elim H |].
  destruct (is_ws c) eqn:Hw.
  - now rewrite (IH H).
  - unfold dot_plus. simpl.
    destruct (is_line_terminator c) eqn:Hl; [| reflexivity].
    apply line_terminator_is_ws in Hl. congruence.
Qed.

Lemma group_truthy (rest : string) :
  trimStart rest <> "" -> trim (dot_run (trimStart rest)) <> "".
Proof.
  intros H. destruct (trimStart_head rest H) as (c & r & -> & Hw).
  simpl. destruct (is_line_terminator c) eqn:Hl.
  - apply line_terminator_is_ws in Hl. congruence.
  - unfold trim. simpl trimStart. rewrite Hw.
    destruct (trimEnd_head c (dot_run r) Hw) as [r' ->]. discriminate.
Qed.

Lemma strip_prefix_clean (p s r : string) :
  strip_prefix p s = Some r -> clean s -> clean r.
Proof.
  revert s. induction p as [|a p IH]; intros s H Hc.
  - destruct s; simpl in H; injection H as <-; exact Hc.
  - destruct s as [|b s]; simpl in H; [discriminate |].
    destruct (Ascii.eqb a b); [| discriminate].
    apply (IH s H). now apply clean_tail in Hc.
Qed.

Lemma marker_here_clean (s r : string) :
  marker_here s = Some r -> clean s -> clean r.
Proof.
  unfold marker_here. destruct s as [|c s]; [discriminate |].
  intros H Hc. apply clean_tail in Hc.
  destruct (Ascii.eqb c "C" || Ascii.eqb c "c"); [| discriminate].
  destruct (strip_prefix "redential" s) as [r1|] eqn:H1; [| discriminate].
  pose proof (strip_prefix_clean _ _ _ H1 Hc) as Hc1.
  destruct (strip_prefix "s" r1) as [r2|] eqn:H2.
  - pose proof (strip_prefix_clean _ _ _ H2 Hc1) as Hc2.
    destruct (strip_prefix ":" r2) as [r3|] eqn:H3.
    + injection H as <-. exact (strip_prefix_clean _ _ _ H3 Hc2).
    + exact (strip_prefix_clean _ _ _ H Hc1).
  - exact (strip_prefix_clean _ _ _ H Hc1).
Qed.

(** On a trimmed line the capture group is never blank. *)
Lemma regex_credentials_truthy (line g : string) :
  clean line -> regex_credentials line = Some g -> trim g <> "".
Proof.
  induction line as [|c r IH]; intros Hc H.
  - simpl in H. discriminate.
  - simpl in H.
    destruct (match_here (String c r)) as [g'|] eqn:Hm.
    + injection H as <-. unfold match_here in Hm.
      destruct (marker_here (String c r)) as [rest|] eqn:Hk; [| discriminate].
      pose proof (marker_here_clean _ _ Hk Hc) as Hrest.
      assert (rest <> "") as Hne by (intros ->; discriminate).
      pose proof (clean_trimStart rest Hrest Hne) as Hts.
      rewrite (ws_then_group_trimStart rest Hts) in Hm. injection Hm as <-.
      now apply group_truthy.
    + apply IH; [now apply clean_tail in Hc | exact H].
Qed.

Lemma lines_of_clean (output : string) : Forall clean (lines_of output).
Proof.
  unfold lines_of. apply List.Forall_forall. intros l Hl.
  apply List.filter_In in Hl. destruct Hl as [Hl _].
  apply List.in_map_iff in Hl. destruct Hl as (x & <- & _). apply trim_clean.
Qed.

Lemma scan_marker_truthy (lines : list string) (c : string) :
  Forall clean lines -> scan_marker lines = Some c -> c <> "".
Proof.
  intros Hc. induction Hc as [|l ls Hl _ IH]; simpl; [discriminate |].
  destruct (regex_credentials l) as [g|] eqn:Hg; [| exact IH].
  intros H. injection H as <-. exact (regex_credentials_truthy l g Hl Hg).
Qed.

Lemma scan_hex_looks (n : nat) (lines : list string) (c : string) :
  scan_hex n lines = Some c -> looks_like_credentials c = true.
Proof.
  induction n as [|i IH]; simpl; [discriminate |].
  destruct (nth_error lines i) as [l|]; [| exact IH].
  destruct (looks_like_credentials l) eqn:Hl; [| exact IH].
  intros H. now injection H as <-.
Qed.

(** What the extraction returns is never the empty string. *)
Lemma extractCredentials_truthy (output c : string) :
  _extractCredentials output = Some c -> JS.truthy c = true.
Proof.
  unfold _extractCredentials. intros H. apply truthy_true.
  destruct (scan_marker (lines_of output)) as [c'|] eqn:Hm.
  - injection H as <-. exact (scan_marker_truthy _ _ (lines_of_clean output) Hm).
  - apply scan_hex_looks in H. unfold looks_like_credentials in H.
    apply andb_true_iff in H. destruct H as [H _].
    apply andb_true_iff in H. destruct H as [H _]. now apply truthy_true.
Qed.

Lemma is_hex_colon_alphabet (c : ascii) :
  is_hex_colon c = existsb (Ascii.eqb c) hex_alphabet.
Proof. destruct c as [[] [] [] [] [] [] [] []]; reflexivity. Qed.

Lemma is_hex_colon_In (c : ascii) : is_hex_colon c = true <-> In c hex_alphabet.
Proof.
  rewrite is_hex_colon_alphabet, List.existsb_exists. split.
  - intros (x & Hx & Heq). apply Ascii.eqb_eq in Heq. now subst.
  - intros H. exists c. split; [exact H | apply Ascii.eqb_refl].
Qed.

Lemma all_hex_colon_Forall (s : string) :
  all_hex_colon s = true <->
  Forall (fun c => In c hex_alphabet) (list_ascii_of_string s).
Proof.
  induction s as [|c r IH]; simpl.
  - split; [constructor | reflexivity].
  - rewrite andb_true_iff, IH, is_hex_colon_In. split.
    + intros [H1 H2]. now constructor.
    + intros H. inversion H; subst. now split.
Qed.

(** The fallback test: hexadecimal digits and colons only, more than 20
    of them. *)
Lemma looks_like_credentials_spec (l : string) :
  looks_like_credentials l = true <->
  20 < String.length l /\ Forall (fun c => In c hex_alphabet) (list_ascii_of_string l).
Proof.
  unfold looks_like_credentials.
  rewrite !andb_true_iff, Nat.ltb_lt, all_hex_colon_Forall, truthy_true. split.
  - intros [[_ H] Hlen]. now split.
  - intros [Hlen H]. repeat split; try assumption.
    intros ->. simpl in Hlen. lia.
Qed.

(** C1 (as the code has it).  [_extractCredentials] splits the output at
    newlines, trims the lines and drops the empty ones.  (1) Top to
    bottom, the first line on which [[Cc]redentials?:\s*(.+)] matches
    decides: the result is its capture group, trimmed; on a line that
    starts with [credentials:] or [Credentials:] the group is what
    follows the marker and its whitespace, up to a carriage return.
    (2) When no line matches, the lowest line made only of hexadecimal
    digits and colons and longer than 20 is the result.  (3) Otherwise
    the result is null.  An output whose first marker line is
    [credentials: AB12:CD34] yields [AB12:CD34]; one without a marker
    line whose last line is [AA11BB22CC33DD44EE55FF66] yields that
    line; one with neither yields null. *)
Theorem extractCredentials_rule :
  (forall output before line after g,
      lines_of output = before ++ line :: after ->
      Forall (fun l => regex_credentials l = None) before ->
      regex_credentials line = Some g ->
      _extractCredentials output = Some (trim g)) /\
  (forall rest,
      trimStart rest <> "" ->
      regex_credentials ("credentials:" +:+ rest) = Some (dot_run (trimStart rest)) /\
      regex_credentials ("Credentials:" +:+ rest) = Some (dot_run (trimStart rest))) /\
  (forall output before line after,
      lines_of output = before ++ line :: after ->
      Forall (fun l => regex_credentials l = None) (lines_of output) ->
      20 < String.length line ->
      Forall (fun c => In c hex_alphabet) (list_ascii_of_string line) ->
      Forall (fun l => looks_like_credentials l = false) after ->
      _extractCredentials output = Some line) /\
  (forall output,
      Forall (fun l => regex_credentials l = None) (lines_of output) ->
      Forall (fun l => looks_like_credentials l = false) (lines_of output) ->
      _extractCredentials output = None) /\
  (forall pre post,
      Forall (fun l => regex_credentials l = None) (lines_of pre) ->
      _extractCredentials (pre +:+ nl +:+ "credentials: AB12:CD34" +:+ nl +:+ post)
      = Some "AB12:CD34") /\
  (forall output before,
      lines_of output = before ++ ["AA11BB22CC33DD44EE55FF66"] ->
      Forall (fun l => regex_credentials l = None) before ->
      _extractCredentials output = Some "AA11BB22CC33DD44EE55FF66").
Proof.
  repeat apply conj.
  - intros output before line after g Hl Hb Hg. unfold _extractCredentials.
    now rewrite Hl, (scan_marker_first before after line g Hb Hg).
  - intros rest H. split.
    + change (regex_credentials ("credentials:" +:+ rest))
        with (match ws_then_group rest with
              | Some g => Some g
              | None => regex_credentials ("redentials:" +:+ rest)
              end).
      now rewrite (ws_then_group_trimStart rest H).
    + change (regex_credentials ("Credentials:" +:+ rest))
        with (match ws_then_group rest with
              | Some g => Some g
              | None => regex_credentials ("redentials:" +:+ rest)
              end).
      now rewrite (ws_then_group_trimStart rest H).
  - intros output before line after Hl Hm Hlen Hhex Ha. unfold _extractCredentials.
    rewrite (scan_marker_none _ Hm), Hl.
    rewrite <- (List.app_nil_r (before ++ line :: after)) at 2.
    apply scan_hex_last; [| exact Ha].
    apply looks_like_credentials_spec. now split.
  - intros output Hm Hh. unfold _extractCredentials.
    rewrite (scan_marker_none _ Hm).
    rewrite <- (List.app_nil_r (lines_of output)) at 2.
    now apply scan_hex_none.
  - intros pre post Hpre. unfold _extractCredentials.
    rewrite !lines_of_newline.
    change (lines_of "credentials: AB12:CD34") with ["credentials: AB12:CD34"].
    simpl app.
    now rewrite (scan_marker_first (lines_of pre) (lines_of post)
                   "credentials: AB12:CD34" "AB12:CD34" Hpre eq_refl).
  - intros output before Hl Hb. unfold _extractCredentials. rewrite Hl.
    assert (regex_credentials "AA11BB22CC33DD44EE55FF66" = None) as Hr by reflexivity.
    rewrite scan_marker_none
      by (apply Forall_app; split; [exact Hb | now constructor]).
    rewrite <- (List.app_nil_r (before ++ ["AA11BB22CC33DD44EE55FF66"])) at 2.
    apply scan_hex_last; [reflexivity | constructor].
Qed.

Lemma extractCredentials_rule_witness :
  Forall (fun l => regex_credentials l = None) (lines_of "Enter PIN on screen: ") /\
  _extractCredentials ("Enter PIN on screen: " +:+ nl +:+ "credentials: AB12:CD34"
                       +:+ nl +:+ "")
  = Some "AB12:CD34".
Proof.
  assert (Forall (fun l => regex_credentials l = None) (lines_of "Enter PIN on screen: "))
    as H by (vm_compute; repeat constructor).
  split; [exact H |].
  exact (proj1 (proj2 (proj2 (proj2 (proj2 extractCredentials_rule))))
           "Enter PIN on screen: " "" H).
Defined.

(** C1 (as the specification words it) fails: the marker is matched with
    its first letter in either case only, so an upper-case
    [CREDENTIALS:] prefix is not found. *)
Lemma extractCredentials_upper_case_prefix :
  Spec.extractCredentials "CREDENTIALS: AB12:CD34" = Some "AB12:CD34" /\
  _extractCredentials "CREDENTIALS: AB12:CD34" = None.
Proof. split; reflexivity. Qed.

(** ** Pairing: the backend *)

Import Pairing.

Lemma substring0_length (n : nat) (s : string) : String.length (substring0 n s) <= n.
Proof.
  unfold substring0. revert s. induction n as [|n IH]; intros [|c s]; simpl; try lia.
  specialize (IH s). lia.
Qed.

Lemma substring0_prefix (n : nat) (s : string) :
  exists rest, s = substring0 n s +:+ rest.
Proof.
  unfold substring0. revert s. induction n as [|n IH]; intros [|c s]; simpl.
  - now exists "".
  - now exists (String c s).
  - now exists "".
  - destruct (IH s) as [rest Hrest]. exists rest.
    rewrite append_cons. now rewrite <- Hrest.
Qed.

Lemma pairFinish_on_data (pid : nat) (sigs : list Signal) (b : PyatvBackend)
    (t : list ChildProcess) (st : Pending) :
  forallb is_data sigs = true ->
  fold_left (pairFinish_on pid) sigs (b, t, st) =
  (b, t, {| output := output st +:+ collected sigs; resolved := resolved st;
            timer := timer st; settled := settled st |}).
Proof.
  revert st. induction sigs as [|sig sigs IH]; intros st H; simpl.
  - rewrite append_nil_r. now destruct st.
  - simpl in H. apply andb_true_iff in H. destruct H as [Hs H].
    destruct sig; try discriminate; simpl; rewrite (IH _ H); simpl;
      now rewrite append_assoc.
Qed.

(** C5.  [pairFinish(pin)] on a live pairing process, the PIN written
    and the process exiting after its output [out]: the PIN and a
    newline went to the process's stdin and the backend lets go of the
    process; the promise resolves with status [paired] and the extracted
    credentials when the extraction finds some in [out]; it resolves
    with [paired] and [out] trimmed when there are none and the exit
    code is 0; otherwise it rejects, the message ending in the first 300
    characters of [out]. *)
Theorem pairFinish_after_exit (b : PyatvBackend) (t : list ChildProcess) (pid : nat)
    (pin : string) (chunks : list Signal) (code : option nat) :
  _pairProcess b = Some pid ->
  is_killed t pid = false ->
  forallb is_data chunks = true ->
  let out := collected chunks in
  let res := pairFinish b t pin None (chunks ++ [Exit code]) in
  fst res = (set_pairProcess b None, mark_exited pid (write pid (pin +:+ nl) t)) /\
  (forall c, _extractCredentials out = Some c ->
     snd res = Some (Normal {| r_status := paired; r_credentials := Str c |})) /\
  (_extractCredentials out = None -> code = Some 0 ->
     snd res = Some (Normal {| r_status := paired; r_credentials := Str (trim out) |})) /\
  (_extractCredentials out = None -> code <> Some 0 ->
     snd res = Some (Throw ("Pairing failed after PIN entry (exit code " +:+ show_code code
                            +:+ "): " +:+ substring0 300 out))) /\
  String.length (substring0 300 out) <= 300 /\
  (exists rest, out = substring0 300 out +:+ rest).
Proof.
  intros Hp Hk Hd out res. subst res. unfold pairFinish. rewrite Hp, Hk.
  rewrite fold_left_app, (pairFinish_on_data pid chunks _ _ _ Hd).
  simpl. fold out. rewrite !append_nil_l.
  repeat apply conj.
  - reflexivity.
  - intros c Hc. rewrite Hc. simpl.
    now rewrite (extractCredentials_truthy out c Hc).
  - intros Hn ->. now rewrite Hn.
  - intros Hn Hcode. rewrite Hn. simpl.
    destruct code as [[|n]|]; [now elim Hcode | reflexivity | reflexivity].
  - apply substring0_length.
  - apply substring0_prefix.
Qed.

Lemma pairFinish_after_exit_witness :
  snd (pairFinish Example.pairing_backend Example.pairing_table "1234" None
         [Stdout "Pairing seems to have succeeded"; Stdout (nl +:+ "credentials: AB12:CD34");
          Exit (Some 0)])
  = Some (Normal {| r_status := paired; r_credentials := Str "AB12:CD34" |}).
Proof.
  exact (proj1 (proj2 (pairFinish_after_exit
           Example.pairing_backend Example.pairing_table 0 "1234"
           [Stdout "Pairing seems to have succeeded"; Stdout (nl +:+ "credentials: AB12:CD34")]
           (Some 0) eq_refl eq_refl eq_refl)) "AB12:CD34" eq_refl).
Defined.



(** ** Pairing: the adapter's messages *)

Import Adapter.

Section AdapterProperties.
Context {E : Engine}.

(** C10.  [submitPin] with a PIN whose string form [String(msg.pin ||
    '')] is empty or not 4 characters long answers [PIN must be exactly
    4 digits] and does nothing else: whatever the registry holds, it and
    the processes are left as they were, and neither the stdin outcome
    nor the signals a [pairFinish] would have consumed play a part. *)
Theorem submitPin_rejects_malformed_pin (a : Adapter) (obj : Obj)
    (write_error store_rejects : option string) (sigs : list Signal) :
  let msg := match message obj with Some m => m | None => empty_message end in
  pin_of msg = "" \/ String.length (pin_of msg) <> 4 ->
  submitPin a obj write_error store_rejects sigs =
  (a, _respond obj (RError "PIN must be exactly 4 digits")).
Proof.
  intros msg H. unfold submitPin. fold msg.
  destruct H as [H | H].
  - rewrite H. reflexivity.
  - apply Nat.eqb_neq in H. rewrite H. simpl. now rewrite orb_true_r.
Qed.

End AdapterProperties.

Lemma submitPin_rejects_malformed_pin_witness :
  submitPin (E := Example.engine)
    {| _pairingSessions := {[ "tv" := Example.pairing_backend ]};
       processes := Example.pairing_table |}
    (Example.submit_tv (VNum 123%Z)) None None [Exit (Some 0)] =
  ({| _pairingSessions := {[ "tv" := Example.pairing_backend ]};
      processes := Example.pairing_table |},
   [SendTo (RError "PIN must be exactly 4 digits")]).
Proof.
  apply (submitPin_rejects_malformed_pin (E := Example.engine)).
  right. vm_compute. lia.
Defined.

(** C2 fails on the code.  Two [startPairing] messages in succession for
    the device [tv], the pairing tool asking for the PIN each time: both
    are answered [awaitingPin], the registry holds the second backend
    only, and the first pairing process has been neither killed nor
    ended: two pairing processes are live for [tv]. *)
Theorem startPairing_twice_leaves_first_process :
  let r1 := startPairing Example.adapter0 Example.start_tv "atvremote" None Example.prompt in
  let r2 := startPairing (fst r1) Example.start_tv "atvremote" None Example.prompt in
  snd r1 = [SendTo (RAwaitingPin "tv")] /\
  snd r2 = [SendTo (RAwaitingPin "tv")] /\
  List.map live (processes (fst r2)) = [true; true] /\
  List.length (live_pairing "tv" (fst r2)) = 2 /\
  (_pairProcess <$> (_pairingSessions (fst r2) !! "tv")) = Some (Some 1).
Proof. vm_compute. repeat split. Qed.

Section StartPairingProperties.
Context {E : Engine}.

(** The handlers of [pairStart] act on the process they were registered
    on, and on no other. *)
Lemma pairStart_on_others (pid : nat) (sigs : list Signal) (b : PyatvBackend)
    (t : list ChildProcess) (st : Pending) :
  _pairProcess b = None \/ _pairProcess b = Some pid ->
  forall q, q <> pid ->
    (fold_left (pairStart_on pid) sigs (b, t, st)).1.2 !! q = t !! q.
Proof.
  revert b t st. induction sigs as [|sig sigs IH]; intros b t st Hb q Hq; [reflexivity |].
  cbn [fold_left].
  assert (forall b' t' st', pairStart_on pid (b, t, st) sig = (b', t', st') ->
            (_pairProcess b' = None \/ _pairProcess b' = Some pid) /\ t' !! q = t !! q)
    as Hstep.
  { intros b' t' st' Hs. unfold pairStart_on in Hs.
    destruct sig as [chunk|chunk|m|code|].
    - destruct (negb (resolved st) && pin_prompt (output st +:+ chunk));
        injection Hs as <- <- <-; now split.
    - destruct (negb (resolved st) && pin_prompt (output st +:+ chunk));
        injection Hs as <- <- <-; now split.
    - destruct (negb (resolved st)); injection Hs as <- <- <-; now split.
    - assert (mark_exited pid t !! q = t !! q) as Hm
          by (unfold mark_exited; apply list_lookup_alter_ne; congruence).
      destruct (negb (resolved st));
        [destruct (includes (output st) "credentials:" || includes (output st) "Credentials:") |];
        injection Hs as <- <- <-; now split.
    - destruct (timer st && negb (resolved st)).
      + unfold pairAbort in Hs.
        destruct Hb as [Hb | Hb]; rewrite Hb in Hs.
        * injection Hs as <- <- <-. split; [now left | reflexivity].
        * destruct (negb (is_killed t pid)); injection Hs as <- <- <-.
          -- split; [now left |]. unfold kill. apply list_lookup_alter_ne. congruence.
          -- split; [now right | reflexivity].
      + injection Hs as <- <- <-. now split. }
  destruct (pairStart_on pid (b, t, st) sig) as [[b' t'] st'] eqn:Hs.
  destruct (Hstep b' t' st' eq_refl) as [Hb' Ht'].
  rewrite (IH b' t' st' Hb' q Hq). exact Ht'.
Qed.

(** [startPairing] leaves every process that exists when the message
    arrives as it is: it kills none, whatever the registry holds for the
    device. *)
Lemma startPairing_keeps_processes (a : Adapter) (obj : Obj) (path : string)
    (store_rejects : option string) (sigs : list Signal) (q : nat) :
  q < List.length (processes a) ->
  processes (startPairing a obj path store_rejects sigs).1 !! q = processes a !! q.
Proof.
  intros Hq. unfold startPairing.
  destruct (str_or _ _) as [identifier|]; [| reflexivity].
  destruct (JS.truthy identifier); [| reflexivity].
  unfold pairStart, pairAbort, spawn. cbn [_pairProcess].
  match goal with
  | |- context [fold_left (pairStart_on ?pid) sigs (?b, ?t, ?st)] =>
      pose proof (pairStart_on_others pid sigs b t st (or_intror eq_refl) q) as H;
      destruct (fold_left (pairStart_on pid) sigs (b, t, st)) as [[b3 t3] st3]
  end.
  cbn [fst snd] in H.
  assert (t3 !! q = processes a !! q) as Ht.
  { rewrite H by lia. now apply lookup_app_l. }
  destruct (settled st3) as [[result | m]|]; [destruct (r_status result) | |]; exact Ht.
Qed.

End StartPairingProperties.

(** On one and the same backend, by contrast, [pairStart] does abort the
    pairing process the backend still holds before it spawns the next. *)
Lemma pairStart_aborts_own_process (b : PyatvBackend) (t : list ChildProcess)
    (protocol : string) (sigs : list Signal) (pid : nat) (p : ChildProcess) :
  _pairProcess b = Some pid ->
  t !! pid = Some p ->
  live p = true ->
  exists p', (pairStart b t protocol sigs).1.2 !! pid = Some p' /\ killed p' = true.
Proof.
  intros Hb Hp Hl. unfold live in Hl. apply andb_true_iff in Hl.
  destruct Hl as [He Hk]. apply negb_true_iff in He, Hk.
  pose proof (lookup_lt_Some _ _ _ Hp) as Hlt.
  unfold pairStart, pairAbort. rewrite Hb. unfold is_killed. rewrite Hp, Hk.
  cbn [negb]. unfold spawn.
  match goal with
  | |- context [fold_left (pairStart_on ?n) sigs (?b2, ?t2, ?st)] =>
      pose proof (pairStart_on_others n sigs b2 t2 st (or_intror eq_refl) pid) as H;
      destruct (fold_left (pairStart_on n) sigs (b2, t2, st)) as [[b3 t3] st3]
  end.
  cbn [fst snd] in *.
  assert (List.length (kill pid t) = List.length t) as Hlen
      by (unfold kill; apply length_alter).
  rewrite H by lia.
  rewrite lookup_app_l by lia.
  unfold kill. rewrite list_lookup_alter_eq, Hp. simpl. rewrite He.
  eexists. split; reflexivity.
Qed.

(** ** Push updates: the line parser *)

Import Push.

Lemma split_nl_no_newline (s : string) : no_newline s = true -> split_nl s = [s].
Proof.
  induction s as [|c r IH]; simpl; [reflexivity |].
  intros H. apply andb_true_iff in H. destruct H as [Hc Hr].
  apply negb_true_iff in Hc. rewrite Hc, (IH Hr). reflexivity.
Qed.

Lemma split_nl_pieces (s : string) :
  Forall (fun l => no_newline l = true) (split_nl s).
Proof.
  induction s as [|c r IH]; simpl; [now repeat constructor |].
  destruct (Ascii.eqb c LF) eqn:Hc; [now constructor |].
  destruct (split_nl r) as [|h t]; [now repeat constructor; simpl; rewrite Hc |].
  inversion IH; subst. constructor; [| assumption].
  simpl. now rewrite Hc.
Qed.

Lemma split_nl_unlines (lines : list string) (partial : string) :
  Forall (fun l => no_newline l = true) lines ->
  no_newline partial = true ->
  split_nl (unlines lines +:+ partial) = lines ++ [partial].
Proof.
  intros Hl Hp. induction Hl as [|l ls Hl _ IH]; simpl.
  - rewrite append_nil_l. now apply split_nl_no_newline.
  - rewrite !append_assoc, split_nl_newline, IH, (split_nl_no_newline l Hl).
    reflexivity.
Qed.

(** Every text is some complete lines followed by a partial one. *)
Lemma unlines_split_nl (s : string) :
  s = unlines (removelast (split_nl s)) +:+ List.last (split_nl s) "".
Proof.
  induction s as [|c r IH]; [reflexivity |].
  simpl split_nl. pose proof (split_nl_nonempty r) as Hne.
  destruct (split_nl r) as [|h t] eqn:Hr; [now elim Hne |].
  destruct (Ascii.eqb c LF) eqn:Hc.
  - apply Ascii.eqb_eq in Hc. subst c.
    change (removelast ("" :: h :: t)) with ("" :: removelast (h :: t)).
    change (List.last ("" :: h :: t) "") with (List.last (h :: t) "").
    cbn [unlines]. rewrite append_nil_l. unfold nl.
    rewrite !append_cons, append_nil_l. f_equal. exact IH.
  - destruct t as [|h' t'].
    + cbn [removelast List.last unlines] in *. rewrite append_nil_l in *. now subst.
    + change (removelast (String c h :: h' :: t'))
        with (String c h :: removelast (h' :: t')).
      change (List.last (String c h :: h' :: t') "") with (List.last (h' :: t') "").
      change (removelast (h :: h' :: t')) with (h :: removelast (h' :: t')) in IH.
      change (List.last (h :: h' :: t') "") with (List.last (h' :: t') "") in IH.
      cbn [unlines] in *. rewrite !append_cons. f_equal. exact IH.
Qed.

Lemma last_app_nonempty {A} (l l' : list A) (d : A) :
  l' <> [] -> List.last (l ++ l') d = List.last l' d.
Proof.
  intros H. induction l as [|x l IH]; [reflexivity |].
  simpl. rewrite IH. destruct (l ++ l') eqn:Hl; [| reflexivity].
  apply app_eq_nil in Hl. destruct Hl as [_ Hl]. now elim H.
Qed.

Section PushProperties.
Context {E : Engine}.

(** A chunk may be cut anywhere: handing over its two halves one after
    the other does what handing it over whole does. *)
Lemma on_stdout_data_app (buffer c1 c2 : string) :
  on_stdout_data buffer (c1 +:+ c2) =
  ((on_stdout_data (on_stdout_data buffer c1).1 c2).1,
   (on_stdout_data buffer c1).2 ++ (on_stdout_data (on_stdout_data buffer c1).1 c2).2).
Proof.
  unfold on_stdout_data. cbn [fst snd].
  rewrite <- append_assoc, split_nl_app.
  pose proof (split_nl_nonempty (List.last (split_nl (buffer +:+ c1)) "" +:+ c2)) as Hne.
  rewrite (last_app_nonempty _ _ _ Hne), (removelast_app _ Hne), flat_map_app.
  reflexivity.
Qed.

Lemma on_stdout_data_buffer (buffer chunk : string) :
  no_newline (on_stdout_data buffer chunk).1 = true.
Proof.
  unfold on_stdout_data. cbn [fst].
  pose proof (split_nl_pieces (buffer +:+ chunk)) as H.
  pose proof (split_nl_nonempty (buffer +:+ chunk)) as Hne.
  rewrite (app_removelast_last "" Hne) in H.
  apply Forall_app in H. destruct H as [_ H]. now inversion H.
Qed.

Lemma run_from_stdout (chunks : list string) (buffer : string) :
  no_newline buffer = true ->
  run_from buffer (List.map Stdout chunks) = on_stdout_data buffer (concat_chunks chunks).
Proof.
  revert buffer. induction chunks as [|c cs IH]; intros buffer Hb.
  - simpl. unfold on_stdout_data. rewrite append_nil_r, (split_nl_no_newline _ Hb).
    reflexivity.
  - cbn [List.map run_from deliver concat_chunks].
    rewrite on_stdout_data_app.
    destruct (on_stdout_data buffer c) as [b1 o1] eqn:H1.
    assert (no_newline b1 = true) as Hb1
        by (pose proof (on_stdout_data_buffer buffer c) as H; now rewrite H1 in H).
    rewrite (IH b1 Hb1). cbn [fst snd].
    now destruct (on_stdout_data b1 (concat_chunks cs)).
Qed.

Lemma process_line_malformed (line m : string) :
  trim line <> "" -> JSON_parse line = inl m ->
  process_line line = [Log debug ("Failed to parse push update line: " +:+ line)].
Proof.
  intros Ht Hp. unfold process_line.
  apply truthy_true in Ht. rewrite Ht, Hp. reflexivity.
Qed.

(** C7.  However stdout is cut into chunks, when the chunks together are
    the complete lines [lines] followed by a partial line [partial]
    (every text is, in one way), the stdout handler has produced, line
    by line and in the order of the lines, what each line alone
    produces, and keeps [partial] in its buffer.  A line that
    [JSON.parse] rejects produces one debug log and nothing else: the
    lines before and after it produce what they produce without it. *)
Theorem push_parser_lines_in_order :
  (forall chunks lines partial,
      Forall (fun l => no_newline l = true) lines ->
      no_newline partial = true ->
      concat_chunks chunks = unlines lines +:+ partial ->
      run_from "" (List.map Stdout chunks) = (partial, flat_map process_line lines)) /\
  (forall text,
      Forall (fun l => no_newline l = true) (removelast (split_nl text)) /\
      no_newline (List.last (split_nl text) "") = true /\
      text = unlines (removelast (split_nl text)) +:+ List.last (split_nl text) "") /\
  (forall line m,
      trim line <> "" -> JSON_parse line = inl m ->
      process_line line = [Log debug ("Failed to parse push update line: " +:+ line)]) /\
  (forall chunks before line after partial m,
      Forall (fun l => no_newline l = true) (before ++ line :: after) ->
      no_newline partial = true ->
      trim line <> "" -> JSON_parse line = inl m ->
      concat_chunks chunks = unlines (before ++ line :: after) +:+ partial ->
      startPushUpdates (List.map Stdout chunks) =
      flat_map process_line before ++
      [Log debug ("Failed to parse push update line: " +:+ line)] ++
      flat_map process_line after).
Proof.
  assert (forall chunks lines partial,
      Forall (fun l => no_newline l = true) lines ->
      no_newline partial = true ->
      concat_chunks chunks = unlines lines +:+ partial ->
      run_from "" (List.map Stdout chunks) = (partial, flat_map process_line lines)) as Hrun.
  { intros chunks lines partial Hl Hp Hc.
    rewrite (run_from_stdout chunks "" eq_refl), Hc.
    unfold on_stdout_data. rewrite append_nil_l, (split_nl_unlines lines partial Hl Hp).
    now rewrite last_last, removelast_last. }
  repeat apply conj.
  - exact Hrun.
  - intros text. pose proof (split_nl_pieces text) as H.
    pose proof (split_nl_nonempty text) as Hne.
    rewrite (app_removelast_last "" Hne) in H.
    apply Forall_app in H. destruct H as [H1 H2].
    repeat split; [exact H1 | now inversion H2 | apply unlines_split_nl].
  - exact process_line_malformed.
  - intros chunks before line after partial m Hl Hp Ht Hm Hc.
    unfold startPushUpdates. rewrite (Hrun chunks _ partial Hl Hp Hc). cbn [snd].
    rewrite flat_map_app. cbn [flat_map].
    now rewrite (process_line_malformed line m Ht Hm).
Qed.

End PushProperties.

Lemma push_parser_lines_in_order_witness :
  startPushUpdates (E := Example.engine)
    (List.map Stdout ["not js"; "on" +:+ nl +:+ Example.line_power; nl]) =
  [Log debug "Failed to parse push update line: not json"; Update (EvPower true)].
Proof.
  exact (proj2 (proj2 (proj2 (push_parser_lines_in_order (E := Example.engine))))
           ["not js"; "on" +:+ nl +:+ Example.line_power; nl]
           [] "not json" [Example.line_power] "" "Unexpected token"
           ltac:(repeat constructor) eq_refl ltac:(vm_compute; discriminate)
           eq_refl eq_refl).
Defined.

Section PushTerminal.
Context {E : Engine}.

Lemma run_from_app (sigs sigs' : list Signal) (buffer : string) :
  run_from buffer (sigs ++ sigs') =
  ((run_from (run_from buffer sigs).1 sigs').1,
   (run_from buffer sigs).2 ++ (run_from (run_from buffer sigs).1 sigs').2).
Proof.
  revert buffer. induction sigs as [|s sigs IH]; intros buffer.
  - cbn. now destruct (run_from buffer sigs').
  - rewrite <- List.app_comm_cons. cbn [run_from].
    destruct (deliver buffer s) as [b o].
    rewrite IH. destruct (run_from b sigs) as [b1 o1]. cbn [fst snd].
    destruct (run_from b1 sigs') as [b2 o2]. cbn [fst snd].
    now rewrite List.app_assoc.
Qed.

Lemma updates_app (o o' : list Out) : updates (o ++ o') = updates o ++ updates o'.
Proof.
  induction o as [|[e | l m] o IH]; simpl; [reflexivity | now rewrite IH | exact IH].
Qed.

Lemma run_from_buffer_terminal (sigs : list Signal) (buffer : string) :
  (run_from buffer (List.filter not_terminal sigs)).1 = (run_from buffer sigs).1 /\
  List.length (updates (run_from buffer sigs).2) =
  List.length (updates (run_from buffer (List.filter not_terminal sigs)).2) +
  List.length (List.filter is_terminal sigs).
Proof.
  revert buffer. induction sigs as [|sig sigs IH]; intros buffer; [now split |].
  assert (is_terminal sig = false /\
          List.filter not_terminal (sig :: sigs) = sig :: List.filter not_terminal sigs /\
          List.filter is_terminal (sig :: sigs) = List.filter is_terminal sigs \/
          is_terminal sig = true /\ (deliver buffer sig).1 = buffer /\
          List.length (updates (deliver buffer sig).2) = 1 /\
          List.filter not_terminal (sig :: sigs) = List.filter not_terminal sigs /\
          List.filter is_terminal (sig :: sigs) = sig :: List.filter is_terminal sigs)
    as [(Ht & -> & ->) | (Ht & Hb & Hu & -> & ->)].
  { destruct sig; [left | left | right | right | left]; repeat split; reflexivity. }
  - cbn [run_from]. destruct (deliver buffer sig) as [b o].
    destruct (IH b) as [IH1 IH2].
    destruct (run_from b sigs) as [b1 o1],
      (run_from b (List.filter not_terminal sigs)) as [b2 o2].
    cbn [fst snd] in *. rewrite !updates_app, !List.length_app. split; [exact IH1 | lia].
  - cbn [run_from]. destruct (deliver buffer sig) as [b o]. cbn [fst snd] in Hb, Hu. subst b.
    destruct (IH buffer) as [IH1 IH2].
    destruct (run_from buffer sigs) as [b1 o1],
      (run_from buffer (List.filter not_terminal sigs)) as [b2 o2].
    cbn [fst snd] in *. rewrite updates_app, List.length_app. cbn [List.length].
    split; [exact IH1 | lia].
Qed.

(** C3 (as the code has it).  The ['error'] handler calls [onUpdate]
    once, with a connection event [connected = false] tagged
    [process_error]; the ['exit'] handler calls it once, with
    [connected = false] tagged [process_exit]; neither touches the line
    buffer.  So every error and every exit the process delivers,
    wherever it comes in the run, adds exactly that one event at its
    place and changes nothing else of what the run hands to [onUpdate];
    and a run hands over exactly as many events more than its output
    alone gives as it delivers errors and exits: one for a run with one
    of them, two for a run with an error and an exit. *)
Theorem push_terminal_event :
  (forall buffer m,
      (deliver buffer (ProcError m)).1 = buffer /\
      updates (deliver buffer (ProcError m)).2 =
      [EvConnection false (VStr "process_error")]) /\
  (forall buffer code,
      (deliver buffer (Exit code)).1 = buffer /\
      updates (deliver buffer (Exit code)).2 =
      [EvConnection false (VStr "process_exit")]) /\
  (forall sigs m,
      updates (startPushUpdates (sigs ++ [ProcError m])) =
      updates (startPushUpdates sigs) ++ [EvConnection false (VStr "process_error")]) /\
  (forall sigs code,
      updates (startPushUpdates (sigs ++ [Exit code])) =
      updates (startPushUpdates sigs) ++ [EvConnection false (VStr "process_exit")]) /\
  (forall pre sig post,
      is_terminal sig = true ->
      List.length (terminal_event sig) = 1 /\
      updates (startPushUpdates (pre ++ sig :: post)) =
      updates (startPushUpdates pre) ++ terminal_event sig ++
      updates (run_from (run_from "" pre).1 post).2 /\
      updates (startPushUpdates (pre ++ post)) =
      updates (startPushUpdates pre) ++ updates (run_from (run_from "" pre).1 post).2) /\
  (forall sigs,
      List.length (updates (startPushUpdates sigs)) =
      List.length (updates (startPushUpdates (List.filter not_terminal sigs))) +
      List.length (List.filter is_terminal sigs)).
Proof.
  repeat apply conj.
  - intros buffer m. split; reflexivity.
  - intros buffer code. split; reflexivity.
  - intros sigs m. unfold startPushUpdates. rewrite run_from_app. cbn [snd].
    rewrite updates_app. reflexivity.
  - intros sigs code. unfold startPushUpdates. rewrite run_from_app. cbn [snd].
    rewrite updates_app. reflexivity.
  - intros pre sig post Hsig. unfold startPushUpdates.
    rewrite !run_from_app. cbn [snd]. rewrite !updates_app.
    destruct sig as [chunk | chunk | m | code |]; try discriminate;
      cbn [run_from deliver on_error on_exit terminal_event];
      destruct (run_from (run_from "" pre).1 post) as [b o]; cbn [fst snd];
      repeat split; reflexivity.
  - intros sigs. unfold startPushUpdates. apply run_from_buffer_terminal.
Qed.

End PushTerminal.

Lemma push_terminal_event_witness :
  updates (startPushUpdates (E := Example.engine)
             ([Stdout (Example.line_power +:+ nl)] ++ Exit (Some 0) ::
              [Stdout (Example.line_volume +:+ nl)])) =
  [EvPower (E := Example.engine) true; EvConnection false (VStr "process_exit");
   EvVolume (E := Example.engine) (VNum 20%Z)].
Proof.
  exact (proj1 (proj2 (proj1 (proj2 (proj2 (proj2 (proj2
           (push_terminal_event (E := Example.engine))))))
           [Stdout (Example.line_power +:+ nl)] (Exit (Some 0))
           [Stdout (Example.line_volume +:+ nl)] eq_refl))).
Defined.

(** C3 (as the specification words it) fails: a process that delivers
    an ['error'] (a [kill] that fails, say) and later its ['exit'] hands
    two terminal connection events to [onUpdate], one with each tag,
    since neither handler looks at what the other has done. *)
Lemma push_error_then_exit_reports_twice :
  updates (startPushUpdates (E := Example.engine)
             [ProcError "kill EPERM"; Exit (Some 0)]) =
  [EvConnection false (VStr "process_error"); EvConnection false (VStr "process_exit")] /\
  List.length
    (List.filter is_terminal_event
       (updates (startPushUpdates (E := Example.engine)
                   [ProcError "kill EPERM"; Exit (Some 0)]))) = 2.
Proof. split; reflexivity. Qed.

(** ** App list *)

Section AppList.
Context {E : Engine}.

Lemma map_apps_pure (items : list (value num)) : (map_apps items).1 = [].
Proof.
  induction items as [|a items IH]; [reflexivity |].
  cbn [map_apps]. unfold mbind, M_bind, bind.
  destruct a; cbn; try reflexivity;
    destruct (map_apps items) as [es [xs | m]]; cbn in *; now subst.
Qed.

Lemma apps_of_pure (result : value num) : (apps_of result).1 = [].
Proof.
  unfold apps_of. destruct (or_else _ _); try reflexivity. apply map_apps_pure.
Qed.

(** C9.  [getAppList()] of the pyatv backend always resolves: with the
    apps and no log, or with the empty list and one warning.  When the
    atvscript invocation fails with message [m] it resolves with the
    empty list and warns with [m].  [getAppList()] of the
    node-appletv-x backend resolves with the empty list and one
    warning. *)
Theorem getAppList_never_rejects :
  (forall r,
      (exists apps, getAppList r = ([], Normal apps)) \/
      (exists m, getAppList r =
         ([Log warn ("Failed to get app list (companion credentials may be needed): "
                     +:+ m)], Normal []))) /\
  (forall r m,
      _execAtvscript r = Throw m ->
      getAppList r =
      ([Log warn ("Failed to get app list (companion credentials may be needed): " +:+ m)],
       Normal [])) /\
  NodeBackend_getAppList =
  ([Log warn "App list is not supported by node-appletv-x backend"], Normal []).
Proof.
  repeat apply conj.
  - intros r. unfold getAppList, mbind, M_bind, bind, try_catch.
    destruct (_execAtvscript r) as [result | m].
    + pose proof (apps_of_pure result) as Hp.
      destruct (apps_of result) as [es [apps | m]]; cbn in Hp; subst es.
      * left. now exists apps.
      * right. now exists m.
    + right. now exists m.
  - intros r m H. unfold getAppList, mbind, M_bind, bind, try_catch.
    now rewrite H.
  - reflexivity.
Qed.

End AppList.

Lemma getAppList_never_rejects_witness :
  getAppList (E := Example.engine) (ExecFailed "Command failed: atvscript app_list" "") =
  ([Log warn ("Failed to get app list (companion credentials may be needed): " +:+
              "atvscript failed: Command failed: atvscript app_list")],
   Normal []).
Proof.
  exact (proj1 (proj2 (getAppList_never_rejects (E := Example.engine)))
           (ExecFailed "Command failed: atvscript app_list" "")
           "atvscript failed: Command failed: atvscript app_list" eq_refl).
Defined.

(** ** The device manager *)

Import DeviceManager.

Lemma reconnect_delay_mono (n m : N) :
  (n <= m)%N -> (reconnect_delay n <= reconnect_delay m)%N.
Proof.
  intros H. unfold reconnect_delay.
  apply N.min_le_compat_r, N.mul_le_mono_l, N.pow_le_mono_r; [discriminate | exact H].
Qed.

Lemma reconnect_delay_saturates (n : N) :
  (6 <= n)%N -> reconnect_delay n = RECONNECT_MAX_DELAY.
Proof.
  intros H. unfold reconnect_delay. apply N.min_r.
  assert (2 ^ 6 <= 2 ^ n)%N as Hp by (apply N.pow_le_mono_r; [discriminate | exact H]).
  change (2 ^ 6)%N with 64%N in Hp.
  unfold RECONNECT_MAX_DELAY, RECONNECT_BASE_DELAY. nia.
Qed.

Lemma reconnect_delay_growing (n : N) :
  (n < 6)%N -> reconnect_delay n = (RECONNECT_BASE_DELAY * 2 ^ n)%N /\
               (reconnect_delay n < RECONNECT_MAX_DELAY)%N.
Proof.
  intros H. unfold reconnect_delay.
  assert (2 ^ n <= 2 ^ 5)%N as Hp by (apply N.pow_le_mono_r; [discriminate | lia]).
  change (2 ^ 5)%N with 32%N in Hp.
  unfold RECONNECT_MAX_DELAY, RECONNECT_BASE_DELAY.
  rewrite N.min_l by nia. split; [reflexivity | nia].
Qed.

Section DeviceManagerProperties.
Context {E : Engine}.

(** C4.  [_scheduleReconnect()]: with a reconnect timer pending it
    changes nothing; without one and with [reconnectAttempts] at 10 or
    more it logs an error and sets no timer; otherwise it sets the timer
    to [min(5000 * 2^reconnectAttempts, 300000)] milliseconds and
    increments [reconnectAttempts].  When the timer fires, [disconnect()]
    runs, then [connect()].  The delays do not decrease as the attempts
    grow, double below 6 attempts and stay at 300000 from 6 on. *)
Theorem scheduleReconnect_backoff :
  (forall d pending,
      reconnectTimer d = Some pending ->
      _scheduleReconnect d = (d, [Invoke_scheduleReconnect])) /\
  (forall d,
      reconnectTimer d = None ->
      (MAX_RECONNECT_ATTEMPTS <= reconnectAttempts d)%N ->
      _scheduleReconnect d =
      (d, [Invoke_scheduleReconnect;
           ELog error ("Max reconnect attempts reached for " +:+ label d)])) /\
  (forall d,
      reconnectTimer d = None ->
      (reconnectAttempts d < MAX_RECONNECT_ATTEMPTS)%N ->
      let delay := N.min (5000 * 2 ^ reconnectAttempts d) 300000 in
      (_scheduleReconnect d).1 =
        {| label := label d; pushHandle := pushHandle d; pollTimer := pollTimer d;
           reconnectTimer := Some delay; artworkTimer := artworkTimer d;
           connected := connected d;
           reconnectAttempts := (reconnectAttempts d + 1)%N |} /\
      exists line,
        (_scheduleReconnect d).2 =
        [Invoke_scheduleReconnect; ELog info line; SetTimeout delay]) /\
  (forall d env,
      let cleared :=
        {| label := label d; pushHandle := pushHandle d; pollTimer := pollTimer d;
           reconnectTimer := None; artworkTimer := artworkTimer d;
           connected := connected d; reconnectAttempts := reconnectAttempts d |} in
      let off := disconnect cleared None in
      reconnect_timer_fired d None env =
      ((connect off.1 env).1, off.2.1 ++ (connect off.1 env).2)) /\
  (forall n m, (n <= m)%N -> (reconnect_delay n <= reconnect_delay m)%N) /\
  (forall n, (n < 6)%N -> reconnect_delay n = (5000 * 2 ^ n)%N /\
                          (reconnect_delay n < 300000)%N) /\
  (forall n, (6 <= n)%N -> reconnect_delay n = 300000%N).
Proof.
  repeat apply conj.
  - intros d pending H. unfold _scheduleReconnect. now rewrite H.
  - intros d H Hmax. unfold _scheduleReconnect. rewrite H.
    apply N.leb_le in Hmax. now rewrite Hmax.
  - intros d H Hlt delay. unfold _scheduleReconnect. rewrite H.
    apply N.leb_gt in Hlt. rewrite Hlt. cbn [fst snd].
    split; [reflexivity | eexists; reflexivity].
  - intros d env cleared off. unfold reconnect_timer_fired. fold cleared.
    subst off. unfold disconnect. cbn [fst snd].
    now destruct (connect _ env).
  - exact reconnect_delay_mono.
  - exact reconnect_delay_growing.
  - exact reconnect_delay_saturates.
Qed.

End DeviceManagerProperties.

Lemma scheduleReconnect_backoff_witness :
  _scheduleReconnect (E := Example.engine) Example.manager_waiting =
  (Example.manager_waiting, [Invoke_scheduleReconnect]).
Proof.
  exact (proj1 (scheduleReconnect_backoff (E := Example.engine))
           Example.manager_waiting 5000%N eq_refl).
Defined.

Section PollProperties.
Context {E : Engine}.

Lemma invokes_scheduler_app (es es' : list Effect) :
  invokes_scheduler (es ++ es') = invokes_scheduler es || invokes_scheduler es'.
Proof. apply existsb_app. Qed.

Lemma updatePlayingStates_quiet (data : Playing) (k : nat) :
  invokes_scheduler (firstn k (_updatePlayingStates data)) = false.
Proof.
  unfold _updatePlayingStates.
  do 15 (destruct k as [|k]; [reflexivity |]). reflexivity.
Qed.

Lemma poll_try_quiet (d : DeviceManager) (env : PollEnv) :
  invokes_scheduler (poll_try d env).2.1 = false /\
  reconnectTimer (poll_try d env).1 = reconnectTimer d /\
  label (poll_try d env).1 = label d /\
  (connected d = true -> connected (poll_try d env).1 = true).
Proof.
  unfold poll_try.
  destruct (fails env) as [[[ | k | | | ] m]|];
    try destruct (connected d) eqn:Hc; cbn [fst snd];
    repeat split;
    first [reflexivity | apply updatePlayingStates_quiet | assumption
          | intros; discriminate | intros; assumption].
Qed.

Lemma poll_tick_quiet (d : DeviceManager) (env : PollEnv) :
  invokes_scheduler (poll_tick d env).2 = false /\
  reconnectTimer (poll_tick d env).1 = reconnectTimer d.
Proof.
  unfold poll_tick.
  destruct (poll_try_quiet d env) as (Hq & Ht & _ & _).
  destruct (poll_try d env) as [d1 [es [[] | m]]]; cbn [fst snd] in *.
  - now split.
  - destruct (connected d1); cbn [fst snd];
      rewrite !invokes_scheduler_app, Hq; now split.
Qed.

Lemma connect_quiet (d : DeviceManager) (env : ConnectEnv) :
  invokes_scheduler (connect d env).2 = false.
Proof.
  unfold connect. destruct (startPush_throws env), (setState_rejects env); reflexivity.
Qed.

Lemma disconnect_quiet (d : DeviceManager) (r : option string) :
  invokes_scheduler (disconnect d r).2.1 = false.
Proof.
  unfold disconnect. cbn [fst snd].
  destruct (pushHandle d), (pollTimer d), (reconnectTimer d), (artworkTimer d); reflexivity.
Qed.

Lemma step_enters_scheduler (d : DeviceManager) (i : Input) :
  invokes_scheduler (step d i).2 = true ->
  (exists reason, i = PushInput (EvConnection false reason)) \/
  (exists m env, i = ReconnectTimer (Some m) env).
Proof.
  destruct i as [event | env | [m|] env]; intros H; cbn [step] in H.
  - destruct event as [state | data | lvl | c reason]; cbn in H; try discriminate.
    destruct c; [discriminate |]. left. now exists reason.
  - rewrite (proj1 (poll_tick_quiet d env)) in H. discriminate.
  - right. now exists m, env.
  - unfold reconnect_timer_fired in H.
    match type of H with
    | context [disconnect ?d0 None] =>
        pose proof (disconnect_quiet d0 None) as Hq;
        destruct (disconnect d0 None) as [d1 [es1 c]] eqn:Hd
    end.
    unfold disconnect in Hd. injection Hd as <- <- <-.
    pose proof (connect_quiet
      {| label := label d; pushHandle := false; pollTimer := false;
         reconnectTimer := None; artworkTimer := false; connected := false;
         reconnectAttempts := reconnectAttempts d |} env) as Hc.
    cbn [label pushHandle pollTimer reconnectTimer artworkTimer connected
         reconnectAttempts fst snd] in *.
    destruct (connect _ env) as [d2 es2]. cbn [fst snd] in *.
    rewrite invokes_scheduler_app, Hq, Hc in H. discriminate.
Qed.

(** Without a push connection loss among its inputs, a run that starts
    with no reconnect timer pending never enters the scheduler. *)
Lemma run_without_loss (inputs : list Input) (d0 d : DeviceManager) (es : list Effect) :
  reconnectTimer d0 = None ->
  existsb is_connection_loss inputs = false ->
  run d0 inputs = Some (d, es) ->
  invokes_scheduler es = false.
Proof.
  revert d0 d es. induction inputs as [|i rest IH]; intros d0 d es Ht Hl Hr.
  - cbn in Hr. injection Hr as <- <-. reflexivity.
  - cbn [existsb] in Hl. apply orb_false_iff in Hl. destruct Hl as [Hi Hrest].
    cbn [run] in Hr. destruct (enabled d0 i) eqn:He; [| discriminate].
    assert (invokes_scheduler (step d0 i).2 = false /\
            reconnectTimer (step d0 i).1 = None) as [Hq Ht1].
    { destruct i as [event | env | r env].
      - destruct event as [state | data | lvl | c reason]; cbn; try now split.
        destruct c; [now split | discriminate].
      - cbn [step]. destruct (poll_tick_quiet d0 env) as [H1 H2].
        split; [exact H1 | now rewrite H2].
      - cbn [enabled] in He. rewrite Ht in He. discriminate. }
    destruct (step d0 i) as [d1 es1]. cbn [fst snd] in *.
    destruct (run d1 rest) as [[d2 es2]|] eqn:Hrun; [| discriminate].
    injection Hr as <- <-.
    rewrite invokes_scheduler_app, Hq, (IH d1 d2 es2 Ht1 Hrest Hrun). reflexivity.
Qed.

(** C8 (as the code has it).  A poll tick whose [try] block throws
    leaves the manager disconnected, writes [info.connected = false] if
    it was connected, and logs; no poll tick, failed or not, enters
    [_scheduleReconnect] or touches the reconnect timer.
    [_scheduleReconnect] is entered from two places only: the handling
    of a push connection event with [connected = false], always, and
    the reconnect timer's callback when its [disconnect()] rejects.  As
    that timer is set by [_scheduleReconnect] alone, a run of a new
    manager that enters the scheduler has a push connection event with
    [connected = false] among its inputs. *)
Theorem poll_failure_does_not_reconnect :
  (forall d env m,
      (poll_try d env).2.2 = Throw m ->
      connected (poll_tick d env).1 = false /\
      In (ELog debug ("Poll failed for " +:+ label d +:+ ": " +:+ m)) (poll_tick d env).2 /\
      (connected d = true ->
       In (SetState "info.connected" (VBool false)) (poll_tick d env).2)) /\
  (forall d env,
      invokes_scheduler (poll_tick d env).2 = false /\
      reconnectTimer (poll_tick d env).1 = reconnectTimer d) /\
  (forall d i,
      invokes_scheduler (step d i).2 = true ->
      (exists reason, i = PushInput (EvConnection false reason)) \/
      (exists m env, i = ReconnectTimer (Some m) env)) /\
  (forall d reason,
      invokes_scheduler (step d (PushInput (EvConnection false reason))).2 = true) /\
  (forall d m env,
      invokes_scheduler (step d (ReconnectTimer (Some m) env)).2 = true) /\
  (forall name inputs d es,
      run (new_manager name) inputs = Some (d, es) ->
      invokes_scheduler es = true ->
      existsb is_connection_loss inputs = true).
Proof.
  repeat apply conj.
  - intros d env m H. unfold poll_tick.
    destruct (poll_try_quiet d env) as (_ & _ & Hl & Hc).
    destruct (poll_try d env) as [d1 [es [[] | m']]]; cbn [fst snd] in *; [discriminate |].
    injection H as ->.
    destruct (connected d1) eqn:Hd1; cbn [fst snd].
    + repeat split.
      * apply in_or_app. left. apply in_or_app. right. now left.
      * intros _. apply in_or_app. right. now left.
    + repeat split.
      * exact Hd1.
      * apply in_or_app. right. now left.
      * intros Hd. specialize (Hc Hd). congruence.
  - exact poll_tick_quiet.
  - exact step_enters_scheduler.
  - intros d reason. cbn [step _handlePushEvent negb].
    destruct (_scheduleReconnect _) as [d2 es] eqn:Hs. cbn [snd].
    unfold _scheduleReconnect in Hs. cbn [reconnectTimer reconnectAttempts] in Hs.
    destruct (reconnectTimer d); [| destruct (N.leb _ _)]; injection Hs as <- <-; reflexivity.
  - intros d m env. cbn [step]. unfold reconnect_timer_fired, disconnect.
    cbn [fst snd label pushHandle pollTimer reconnectTimer artworkTimer connected
         reconnectAttempts].
    unfold _scheduleReconnect. cbn [reconnectTimer reconnectAttempts].
    destruct (N.leb _ _); cbn [snd]; rewrite !invokes_scheduler_app;
      cbn; now rewrite !orb_true_r.
  - intros name inputs d es Hr Hi.
    destruct (existsb is_connection_loss inputs) eqn:Hl; [reflexivity |].
    rewrite (run_without_loss inputs (new_manager name) d es eq_refl Hl Hr) in Hi.
    discriminate.
Qed.

End PollProperties.

Lemma poll_failure_does_not_reconnect_witness :
  connected (poll_tick (E := Example.engine)
               Example.manager_polling Example.poll_unreachable).1 = false.
Proof.
  exact (proj1 (proj1 (poll_failure_does_not_reconnect (E := Example.engine))
           Example.manager_polling Example.poll_unreachable
           "atvscript failed: timeout" eq_refl)).
Defined.

(** C8 (as the specification words it) fails: when the [disconnect()] of
    the reconnect timer's callback rejects, the callback enters
    [_scheduleReconnect] itself, and no push event is involved. *)
Lemma reconnect_failure_enters_scheduler :
  invokes_scheduler (E := Example.engine)
    (step Example.manager_waiting
          (ReconnectTimer (Some "DB closed") Example.connect_ok)).2 = true /\
  forall event : PushEvent (E := Example.engine),
    ReconnectTimer (Some "DB closed") Example.connect_ok <> PushInput event.
Proof. split; [reflexivity | discriminate]. Qed.

(** * Further properties *)

Import Notions.

(** ** Pairing: abort, single settlement, prompt and timeout *)

Lemma list_alter_map {A B} (f : A -> B) (g : A -> A) (i : nat) (l : list A) :
  (forall x, f (g x) = f x) -> List.map f (alter g i l) = List.map f l.
Proof.
  intros H. revert i. induction l as [|x l IH]; intros [|i]; cbn; try reflexivity.
  - now rewrite H.
  - now rewrite IH.
Qed.

Lemma kill_not_live (pid : nat) (t : list ChildProcess) (p : ChildProcess) :
  kill pid t !! pid = Some p -> live p = false.
Proof.
  unfold kill. rewrite list_lookup_alter_eq.
  destruct (t !! pid) as [p0|]; cbn; [| discriminate].
  intros H. injection H as <-. unfold live.
  destruct (exited p0) eqn:He; cbn; rewrite ?He; cbn;
    first [reflexivity | apply andb_false_r].
Qed.

(** X1.  [pairAbort()] is idempotent; after it the backend holds no
    pairing process that is still live, whether the process was running,
    had been killed or had ended by itself; no other process is touched. *)
Theorem pairAbort_idempotent (b : PyatvBackend) (t : list ChildProcess) :
  let r := pairAbort b t in
  pairAbort r.1 r.2 = r /\
  (forall pid, _pairProcess r.1 = Some pid -> is_killed r.2 pid = true) /\
  (forall pid p, _pairProcess b = Some pid -> r.2 !! pid = Some p ->
                 is_killed t pid = false -> live p = false /\ _pairProcess r.1 = None) /\
  (forall q, _pairProcess b <> Some q -> r.2 !! q = t !! q) /\
  List.length r.2 = List.length t.
Proof.
  unfold pairAbort. destruct (_pairProcess b) as [pid|] eqn:Hb.
  - destruct (is_killed t pid) eqn:Hk; cbn [negb fst snd].
    + rewrite Hb, Hk. cbn. repeat split; try congruence.
      all: intros pid' Hp; now injection Hp as <-.
    + cbn. repeat split; try congruence.
      * match goal with
        | Hp : Some pid = Some ?q, Hl : kill pid t !! ?q = Some ?p |- _ =>
            injection Hp as <-; exact (kill_not_live pid t p Hl)
        end.
      * intros q Hq. unfold kill. apply list_lookup_alter_ne. congruence.
      * unfold kill. apply length_alter.
  - cbn. rewrite Hb. repeat split; congruence.
Qed.

Lemma pairAbort_idempotent_witness :
  live {| command := "atvremote";
          args := ["--id"; "tv"; "--protocol"; "airplay"; "pair"];
          killed := true; exited := false; stdin := [] |} = false /\
  _pairProcess (pairAbort Example.pairing_backend Example.pairing_table).1 = None.
Proof.
  exact (proj1 (proj2 (proj2 (pairAbort_idempotent
           Example.pairing_backend Example.pairing_table)))
           0 {| command := "atvremote";
                args := ["--id"; "tv"; "--protocol"; "airplay"; "pair"];
                killed := true; exited := false; stdin := [] |}
           eq_refl eq_refl eq_refl).
Defined.

Lemma prefix_app (p a b : string) :
  String.prefix p a = true -> String.prefix p (a +:+ b) = true.
Proof.
  revert a. induction p as [|x p IH]; intros a H; [now destruct (a +:+ b) |].
  destruct a as [|y a]; [discriminate |].
  rewrite append_cons. cbn in *. destruct (ascii_dec x y); [now apply IH | discriminate].
Qed.

Lemma includes_app (a b p : string) :
  includes a p = true -> includes (a +:+ b) p = true.
Proof.
  induction a as [|x a IH]; intros H.
  - cbn in H. rewrite orb_false_r in H. destruct p; [| discriminate].
    destruct b; reflexivity.
  - rewrite append_cons. cbn [includes] in *.
    apply orb_true_iff in H. apply orb_true_iff. destruct H as [H | H].
    + left. rewrite <- append_cons. now apply prefix_app.
    + right. now apply IH.
Qed.

Lemma pin_prompt_app (a b : string) : pin_prompt a = true -> pin_prompt (a +:+ b) = true.
Proof.
  unfold pin_prompt. intros H. apply orb_true_iff in H. apply orb_true_iff.
  destruct H as [H | H]; [left | right]; now apply includes_app.
Qed.

(** Once [resolved] is set the handlers leave the settlement alone. *)
Lemma pairStart_on_resolved (pid : nat) (b : PyatvBackend) (t : list ChildProcess)
    (st : Pending) (sig : Signal) :
  resolved st = true ->
  resolved (pairStart_on pid (b, t, st) sig).2 = true /\
  settled (pairStart_on pid (b, t, st) sig).2 = settled st /\
  (pairStart_on pid (b, t, st) sig).1.1 = b.
Proof.
  intros H. unfold pairStart_on. rewrite H. cbn [negb andb].
  destruct sig; rewrite ?andb_false_r; cbn; now repeat split.
Qed.

Lemma pairFinish_on_resolved (pid : nat) (b : PyatvBackend) (t : list ChildProcess)
    (st : Pending) (sig : Signal) :
  resolved st = true ->
  resolved (pairFinish_on pid (b, t, st) sig).2 = true /\
  settled (pairFinish_on pid (b, t, st) sig).2 = settled st /\
  (pairFinish_on pid (b, t, st) sig).1.1 = b /\
  List.map stdin (pairFinish_on pid (b, t, st) sig).1.2 = List.map stdin t /\
  List.map killed (pairFinish_on pid (b, t, st) sig).1.2 = List.map killed t.
Proof.
  intros H. unfold pairFinish_on. rewrite H. cbn [negb andb].
  destruct sig; rewrite ?andb_false_r; cbn; repeat split; try assumption;
    unfold mark_exited; now apply list_alter_map.
Qed.

Lemma pairStart_on_pending (pid : nat) (b : PyatvBackend) (t : list ChildProcess)
    (st : Pending) (sig : Signal) :
  unsettled_while_pending st ->
  unsettled_while_pending (pairStart_on pid (b, t, st) sig).2.
Proof.
  unfold unsettled_while_pending. intros Hinv.
  destruct (resolved st) eqn:Hr.
  - destruct (pairStart_on_resolved pid b t st sig Hr) as (H1 & _). intros H2. congruence.
  - specialize (Hinv eq_refl). unfold pairStart_on. rewrite Hr. cbn [negb andb].
    destruct sig as [chunk|chunk|m|code|]; cbn.
    + destruct (pin_prompt _); cbn; [discriminate | now intros].
    + destruct (pin_prompt _); cbn; [discriminate | now intros].
    + discriminate.
    + destruct (_ || _); cbn; discriminate.
    + destruct (timer st); cbn.
      * destruct (pairAbort b t). cbn. discriminate.
      * now intros.
Qed.

Lemma pairFinish_on_pending (pid : nat) (b : PyatvBackend) (t : list ChildProcess)
    (st : Pending) (sig : Signal) :
  unsettled_while_pending st ->
  unsettled_while_pending (pairFinish_on pid (b, t, st) sig).2.
Proof.
  unfold unsettled_while_pending. intros Hinv.
  destruct (resolved st) eqn:Hr.
  - destruct (pairFinish_on_resolved pid b t st sig Hr) as (H1 & _). intros H2. congruence.
  - specialize (Hinv eq_refl). unfold pairFinish_on. rewrite Hr. cbn [negb andb].
    destruct sig as [chunk|chunk|m|code|]; cbn; try (now intros); try discriminate.
    all: destruct (timer st); cbn;
      [destruct (pairAbort b t); cbn; discriminate | now intros].
Qed.

Section SettleOnce.
Variable step : PyatvBackend * list ChildProcess * Pending -> Signal ->
                PyatvBackend * list ChildProcess * Pending.
Hypothesis step_resolved : forall b t st sig,
  resolved st = true ->
  resolved (step (b, t, st) sig).2 = true /\ settled (step (b, t, st) sig).2 = settled st.
Hypothesis step_pending : forall b t st sig,
  unsettled_while_pending st -> unsettled_while_pending (step (b, t, st) sig).2.

Lemma fold_resolved (sigs : list Signal) (s : PyatvBackend * list ChildProcess * Pending) :
  resolved s.2 = true ->
  resolved (fold_left step sigs s).2 = true /\
  settled (fold_left step sigs s).2 = settled s.2.
Proof.
  revert s. induction sigs as [|sig sigs IH]; intros [[b t] st] H; [now split |].
  cbn [fold_left]. destruct (step_resolved b t st sig H) as [H1 H2].
  destruct (IH (step (b, t, st) sig) H1) as [H3 H4].
  split; [exact H3 | rewrite H4; exact H2].
Qed.

Lemma fold_pending (sigs : list Signal) (s : PyatvBackend * list ChildProcess * Pending) :
  unsettled_while_pending s.2 -> unsettled_while_pending (fold_left step sigs s).2.
Proof.
  revert s. induction sigs as [|sig sigs IH]; intros [[b t] st] H; [exact H |].
  cbn [fold_left]. apply IH. now apply step_pending.
Qed.

Lemma fold_settled_once (sigs sigs' : list Signal)
    (s : PyatvBackend * list ChildProcess * Pending) (r : completion PairResult) :
  unsettled_while_pending s.2 ->
  settled (fold_left step sigs s).2 = Some r ->
  settled (fold_left step (sigs ++ sigs') s).2 = Some r.
Proof.
  intros Hinv Hs. rewrite fold_left_app.
  pose proof (fold_pending sigs s Hinv) as Hp.
  destruct (resolved (fold_left step sigs s).2) eqn:Hr.
  - destruct (fold_resolved sigs' _ Hr) as [_ H]. congruence.
  - rewrite (Hp Hr) in Hs. discriminate.
Qed.

End SettleOnce.

Lemma settled_of_triple (x : PyatvBackend * list ChildProcess * Pending) :
  (let '(b, t, st) := x in (b, t, settled st)) = (x.1.1, x.1.2, settled x.2).
Proof. now destruct x as [[b t] st]. Qed.

(** X2.  The promise of [pairStart] and the promise of [pairFinish]
    settle at most once: what either has settled with after some signals
    is what it has settled with after any further signals (a late exit,
    a late timer, more output). *)
Theorem pairing_settles_once :
  (forall b t protocol sigs sigs' r,
      (pairStart b t protocol sigs).2 = Some r ->
      (pairStart b t protocol (sigs ++ sigs')).2 = Some r) /\
  (forall b t pin write_error sigs sigs' r,
      (pairFinish b t pin write_error sigs).2 = Some r ->
      (pairFinish b t pin write_error (sigs ++ sigs')).2 = Some r).
Proof.
  split.
  - intros b t protocol sigs sigs' r. unfold pairStart.
    destruct (pairAbort b t) as [b1 t1]. unfold spawn.
    rewrite !settled_of_triple. cbn [snd]. intros H.
    apply (fold_settled_once (pairStart_on (List.length t1))); try assumption.
    + intros b0 t0 st sig Hr.
      destruct (pairStart_on_resolved (List.length t1) b0 t0 st sig Hr) as (H1 & H2 & _).
      now split.
    + intros b0 t0 st sig. apply pairStart_on_pending.
    + intros _. reflexivity.
  - intros b t pin we sigs sigs' r. unfold pairFinish.
    destruct (_pairProcess b) as [pid|]; [| exact (fun H => H)].
    destruct (is_killed t pid); [exact (fun H => H) |].
    destruct we as [m|]; rewrite !settled_of_triple; cbn [snd]; intros H;
      apply (fold_settled_once (pairFinish_on pid)); try assumption.
    all: try (intros b0 t0 st sig Hr;
              destruct (pairFinish_on_resolved pid b0 t0 st sig Hr) as (H1 & H2 & _);
              now split).
    all: try (intros b0 t0 st sig; apply pairFinish_on_pending).
    + intros Hr. discriminate.
    + intros _. reflexivity.
Qed.

Lemma pairing_settles_once_witness :
  (pairStart Example.fresh_backend [] "airplay"
     (Example.prompt ++ [Exit (Some 1); TimerFired])).2 =
  Some (Normal {| r_status := awaitingPin; r_credentials := Absent |}).
Proof.
  exact (proj1 pairing_settles_once Example.fresh_backend [] "airplay"
           Example.prompt [Exit (Some 1); TimerFired] _ eq_refl).
Defined.

Lemma pairStart_on_data_resolved (pid : nat) (sigs : list Signal) (b : PyatvBackend)
    (t : list ChildProcess) (st : Pending) :
  resolved st = true ->
  forallb is_data sigs = true ->
  fold_left (pairStart_on pid) sigs (b, t, st) =
  (b, t, {| output := output st +:+ collected sigs; resolved := true;
            timer := timer st; settled := settled st |}).
Proof.
  revert st. induction sigs as [|sig sigs IH]; intros st Hr H.
  - cbn. rewrite append_nil_r. destruct st; cbn in *. now subst.
  - cbn in H. apply andb_true_iff in H. destruct H as [Hs H].
    destruct sig; try discriminate; cbn [fold_left pairStart_on collected];
      rewrite Hr; cbn [negb andb]; (rewrite IH; [| reflexivity | exact H]); cbn;
      now rewrite append_assoc.
Qed.

Lemma pairStart_on_data (pid : nat) (sigs : list Signal) (b : PyatvBackend)
    (t : list ChildProcess) (st : Pending) :
  resolved st = false -> settled st = None -> pin_prompt (output st) = false ->
  forallb is_data sigs = true ->
  fold_left (pairStart_on pid) sigs (b, t, st) =
  (b, t, after_output (timer st) (output st +:+ collected sigs)).
Proof.
  revert st. induction sigs as [|sig sigs IH]; intros st Hr Hs Hp H.
  - cbn. rewrite append_nil_r. unfold after_output. rewrite Hp.
    destruct st; cbn in *. now subst.
  - cbn in H. apply andb_true_iff in H. destruct H as [Hd H].
    assert (forall chunk,
      fold_left (pairStart_on pid) sigs
        (if negb (resolved st) && pin_prompt (output st +:+ chunk)
         then (b, t, {| output := output st +:+ chunk; resolved := true; timer := false;
                        settled := Some (Normal {| r_status := awaitingPin;
                                                   r_credentials := Absent |}) |})
         else (b, t, {| output := output st +:+ chunk; resolved := resolved st;
                        timer := timer st; settled := settled st |})) =
      (b, t, after_output (timer st) (output st +:+ chunk +:+ collected sigs))) as Hstep.
    { intros chunk. rewrite Hr. cbn [negb andb].
      destruct (pin_prompt (output st +:+ chunk)) eqn:Hc.
      - rewrite pairStart_on_data_resolved; [| reflexivity | exact H]. cbn.
        unfold after_output. rewrite <- append_assoc.
        now rewrite (pin_prompt_app _ (collected sigs) Hc).
      - rewrite IH; [| reflexivity | exact Hs | exact Hc | exact H].
        cbn. now rewrite append_assoc. }
    destruct sig; try discriminate; cbn [fold_left pairStart_on collected]; apply Hstep.
Qed.

(** X3.  While the pairing process only produces output, [pairStart]
    resolves with [awaitingPin] exactly when stdout and stderr taken
    together, in the order of arrival, contain [Enter PIN] or [pin:],
    also when the marker is cut by a chunk boundary; until then the
    promise is pending.  The process it spawned is left as it is and the
    backend holds it. *)
Theorem pairStart_prompt_across_chunks (b : PyatvBackend) (t : list ChildProcess)
    (protocol : string) (sigs : list Signal) :
  forallb is_data sigs = true ->
  let r := pairStart b t protocol sigs in
  let pid := List.length (pairAbort b t).2 in
  r.2 = (if pin_prompt (collected sigs)
         then Some (Normal {| r_status := awaitingPin; r_credentials := Absent |})
         else None) /\
  _pairProcess r.1.1 = Some pid /\
  exists p, r.1.2 !! pid = Some p /\ live p = true /\ stdin p = [].
Proof.
  intros H r pid. subst r pid. unfold pairStart.
  destruct (pairAbort b t) as [b1 t1]. unfold spawn. cbn [snd].
  rewrite pairStart_on_data; [| reflexivity | reflexivity | reflexivity | exact H].
  cbn [output timer pending0]. rewrite append_nil_l. unfold after_output.
  destruct (pin_prompt (collected sigs)); cbn; (split; [reflexivity |]);
    (split; [reflexivity |]); eexists;
    (split; [apply list_lookup_middle; reflexivity | split; reflexivity]).
Qed.

Lemma pairStart_prompt_across_chunks_witness :
  (pairStart Example.fresh_backend [] "airplay"
     [Stdout "Please En"; Stderr "ter P"; Stdout "IN on screen"]).2 =
  Some (Normal {| r_status := awaitingPin; r_credentials := Absent |}).
Proof.
  exact (proj1 (pairStart_prompt_across_chunks Example.fresh_backend [] "airplay"
           [Stdout "Please En"; Stderr "ter P"; Stdout "IN on screen"] eq_refl)).
Defined.

(** X4.  When the 30 second timer of [pairStart] fires before any PIN
    prompt has been seen, the promise rejects with the timeout error,
    the process that was spawned is killed and the backend lets go of
    it: a [pairFinish] that follows finds no active pairing process. *)
Theorem pairStart_timeout (b : PyatvBackend) (t : list ChildProcess)
    (protocol : string) (sigs : list Signal) :
  forallb is_data sigs = true ->
  pin_prompt (collected sigs) = false ->
  let r := pairStart b t protocol (sigs ++ [TimerFired]) in
  let pid := List.length (pairAbort b t).2 in
  r.2 = Some (Throw "Pairing timeout: Apple TV did not respond within 30 seconds") /\
  _pairProcess r.1.1 = None /\
  (exists p, r.1.2 !! pid = Some p /\ killed p = true /\ live p = false) /\
  (forall pin write_error later,
      (pairFinish r.1.1 r.1.2 pin write_error later).2 =
      Some (Throw "No active pairing process. Start pairing first.")).
Proof.
  intros H Hp r pid. subst r pid. unfold pairStart.
  destruct (pairAbort b t) as [b1 t1]. unfold spawn. cbn [snd].
  rewrite fold_left_app.
  rewrite pairStart_on_data; [| reflexivity | reflexivity | reflexivity | exact H].
  cbn [output timer pending0]. rewrite append_nil_l. unfold after_output. rewrite Hp.
  cbn [fold_left pairStart_on timer resolved negb andb].
  unfold pairAbort. cbn [_pairProcess set_pairProcess].
  assert (is_killed
            (t1 ++ [ {| command := atvremotePath b1;
                        args := device_args b1 ++
                                ["--protocol";
                                 if JS.truthy protocol then protocol else "airplay"; "pair"];
                        killed := false; exited := false; stdin := [] |} ])
            (List.length t1) = false) as Hk.
  { unfold is_killed. now rewrite list_lookup_middle. }
  rewrite Hk. cbn [negb fst snd _pairProcess set_pairProcess].
  split; [reflexivity | split; [reflexivity | split]].
  - eexists. unfold kill. rewrite list_lookup_alter_eq, list_lookup_middle by reflexivity.
    cbn. repeat split; reflexivity.
  - intros pin we later. unfold pairFinish. reflexivity.
Qed.

Lemma pairStart_timeout_witness :
  (pairStart Example.fresh_backend [] "airplay"
     ([Stdout "Connecting..."] ++ [TimerFired])).2 =
  Some (Throw "Pairing timeout: Apple TV did not respond within 30 seconds").
Proof.
  exact (proj1 (pairStart_timeout Example.fresh_backend [] "airplay"
           [Stdout "Connecting..."] eq_refl eq_refl)).
Defined.

Lemma pairFinish_fold_resolved (pid : nat) (sigs : list Signal) (b : PyatvBackend)
    (t : list ChildProcess) (st : Pending) :
  resolved st = true ->
  settled (fold_left (pairFinish_on pid) sigs (b, t, st)).2 = settled st /\
  (fold_left (pairFinish_on pid) sigs (b, t, st)).1.1 = b /\
  List.map stdin (fold_left (pairFinish_on pid) sigs (b, t, st)).1.2 = List.map stdin t /\
  List.map killed (fold_left (pairFinish_on pid) sigs (b, t, st)).1.2 = List.map killed t.
Proof.
  revert b t st. induction sigs as [|sig sigs IH]; intros b t st Hr; [now repeat split |].
  cbn [fold_left].
  destruct (pairFinish_on_resolved pid b t st sig Hr) as (H1 & H2 & H3 & H4 & H5).
  destruct (pairFinish_on pid (b, t, st) sig) as [[b' t'] st']. cbn [fst snd] in *.
  destruct (IH b' t' st' H1) as (I1 & I2 & I3 & I4). repeat split; congruence.
Qed.

(** X5.  The two failure paths of [pairFinish] on a live pairing
    process.  When the write of the PIN to stdin throws, the promise
    rejects with [Failed to send PIN], nothing has been written to any
    stdin, no process is killed and the backend keeps its process.  When
    the 30 second timer fires before the process has exited, the promise
    rejects with the verification timeout, the process, which received
    the PIN, is killed, and the backend lets go of it. *)
Theorem pairFinish_failure_paths :
  (forall b t pid pin m sigs,
      _pairProcess b = Some pid ->
      is_killed t pid = false ->
      let r := pairFinish b t pin (Some m) sigs in
      r.2 = Some (Throw ("Failed to send PIN: " +:+ m)) /\
      r.1.1 = b /\
      List.map stdin r.1.2 = List.map stdin t /\
      List.map killed r.1.2 = List.map killed t) /\
  (forall b t pid p pin sigs,
      _pairProcess b = Some pid ->
      t !! pid = Some p ->
      live p = true ->
      forallb is_data sigs = true ->
      let r := pairFinish b t pin None (sigs ++ [TimerFired]) in
      r.2 = Some (Throw "Pairing PIN verification timeout") /\
      _pairProcess r.1.1 = None /\
      exists p', r.1.2 !! pid = Some p' /\ killed p' = true /\
                 stdin p' = stdin p ++ [pin +:+ nl]).
Proof.
  split.
  - intros b t pid pin m sigs Hb Hk r. subst r. unfold pairFinish. rewrite Hb, Hk.
    rewrite settled_of_triple. cbn [fst snd].
    match goal with
    | |- context [fold_left _ sigs (b, t, ?st)] =>
        destruct (pairFinish_fold_resolved pid sigs b t st eq_refl) as (H1 & H2 & H3 & H4)
    end.
    repeat split; assumption.
  - intros b t pid p pin sigs Hb Hp Hl Hd r. subst r.
    unfold live in Hl. apply andb_true_iff in Hl. destruct Hl as [He Hk].
    apply negb_true_iff in He, Hk.
    assert (is_killed t pid = false) as Hk0 by (unfold is_killed; now rewrite Hp).
    unfold pairFinish. rewrite Hb, Hk0.
    rewrite settled_of_triple, fold_left_app, (pairFinish_on_data pid sigs _ _ _ Hd).
    cbn [fold_left pairFinish_on timer resolved pending0 negb andb].
    unfold pairAbort. rewrite Hb.
    assert (write pid (pin +:+ nl) t !! pid =
            Some {| command := command p; args := args p; killed := killed p;
                    exited := exited p; stdin := stdin p ++ [pin +:+ nl] |}) as Hw.
    { unfold write. now rewrite list_lookup_alter_eq, Hp. }
    unfold is_killed. rewrite Hw. cbn [killed]. rewrite Hk.
    cbn [negb fst snd _pairProcess set_pairProcess settled].
    split; [reflexivity | split; [reflexivity |]]. eexists. unfold kill.
    rewrite list_lookup_alter_eq, Hw. cbn. rewrite He. cbn. repeat split; reflexivity.
Qed.

Lemma pairFinish_failure_paths_witness :
  (pairFinish Example.pairing_backend Example.pairing_table "1234" None
     ([Stdout "Verifying"] ++ [TimerFired])).2 =
  Some (Throw "Pairing PIN verification timeout").
Proof.
  exact (proj1 (proj2 pairFinish_failure_paths Example.pairing_backend
           Example.pairing_table 0 _ "1234" [Stdout "Verifying"]
           eq_refl eq_refl eq_refl eq_refl)).
Defined.

(** ** Pairing sessions of the adapter *)

Lemma pairFinish_exit (b : PyatvBackend) (t : list ChildProcess) (pid : nat)
    (pin : string) (chunks : list Signal) (code : option nat) :
  _pairProcess b = Some pid ->
  is_killed t pid = false ->
  forallb is_data chunks = true ->
  pairFinish b t pin None (chunks ++ [Exit code]) =
  (set_pairProcess b None, mark_exited pid (write pid (pin +:+ nl) t),
   Some (exit_outcome (collected chunks) code)).
Proof.
  intros Hp Hk Hd. unfold pairFinish. rewrite Hp, Hk.
  rewrite fold_left_app, (pairFinish_on_data pid chunks _ _ _ Hd).
  cbn. rewrite append_nil_l. unfold exit_outcome.
  destruct (_extractCredentials (collected chunks)) as [c|] eqn:Hc; cbn.
  - now rewrite (extractCredentials_truthy _ c Hc).
  - now destruct code as [[|n]|].
Qed.

Section SessionProperties.
Context {E : Engine}.

Lemma submitPin_found (a : Adapter) (obj : Obj) (k : string) (b : PyatvBackend)
    (write_error store_rejects : option string) (sigs : list Signal) :
  targets obj k -> has_pin obj ->
  _pairingSessions a !! k = Some b ->
  submitPin a obj write_error store_rejects sigs =
  let msg := match message obj with Some m => m | None => empty_message end in
  let '(b', t, r) := pairFinish b (processes a) (pin_of msg) write_error sigs in
  match r with
  | Some (Normal result) =>
      ({| _pairingSessions := delete k (_pairingSessions a); processes := t |},
       if cred_truthy (r_credentials result)
       then StorePairCredentials k (str_default (m_protocol msg) "airplay")
                                 (r_credentials result)
            :: after_store obj store_rejects (r_credentials result)
       else _respond obj (RPaired (r_credentials result)))
  | Some (Throw m) =>
      ({| _pairingSessions := <[k := b']> (_pairingSessions a); processes := t |},
       _respond obj (RError m))
  | None =>
      ({| _pairingSessions := <[k := b']> (_pairingSessions a); processes := t |}, [])
  end.
Proof.
  unfold targets, has_pin, submitPin. intros Ht Hp Hs. rewrite Ht, Hp. cbn [mbind].
  assert (JS.truthy (pin_of match message obj with
                            | Some m => m
                            | None => empty_message
                            end) = true) as Htr.
  { apply truthy_true. intros Hn. rewrite Hn in Hp. discriminate. }
  rewrite Htr. cbn [negb orb Nat.eqb option_bind show_str].
  unfold mbind, option_bind. rewrite Hs. reflexivity.
Qed.

Lemma submitPin_missing (a : Adapter) (obj : Obj) (k : string)
    (write_error store_rejects : option string) (sigs : list Signal) :
  targets obj k -> has_pin obj ->
  _pairingSessions a !! k = None ->
  submitPin a obj write_error store_rejects sigs =
  (a, _respond obj (RError ("No active pairing session for " +:+ k
                            +:+ ". Start pairing first."))).
Proof.
  unfold targets, has_pin, submitPin. intros Ht Hp Hs. rewrite Ht, Hp.
  assert (JS.truthy (pin_of match message obj with
                            | Some m => m
                            | None => empty_message
                            end) = true) as Htr.
  { apply truthy_true. intros Hn. rewrite Hn in Hp. discriminate. }
  rewrite Htr. cbn [negb orb Nat.eqb show_str].
  unfold mbind, option_bind. rewrite Hs. reflexivity.
Qed.

(** X6.  The life of a pairing session under [submitPin].  A PIN the
    device refuses (the process exits with a code other than 0 and shows
    no credentials) is answered with the pairing error, and the session
    stays in the registry with a backend that holds no process any more:
    every later [submitPin] for the device is answered [No active
    pairing process] and changes nothing.  A PIN that yields credentials
    hands them to [_storePairCredentials] and removes the session,
    whatever comes of storing them; it is answered [paired] when
    [_storePairCredentials] resolves and with the error of
    [_storePairCredentials] when that rejects, and in both cases every
    later [submitPin] is answered [No active pairing session]. *)
Theorem submitPin_session_lifecycle :
  (forall a obj k b pid chunks code store_rejects,
      targets obj k -> has_pin obj ->
      _pairingSessions a !! k = Some b ->
      _pairProcess b = Some pid ->
      is_killed (processes a) pid = false ->
      forallb is_data chunks = true ->
      _extractCredentials (collected chunks) = None ->
      code <> Some 0 ->
      let r := submitPin a obj None store_rejects (chunks ++ [Exit code]) in
      r.2 = _respond obj (RError ("Pairing failed after PIN entry (exit code "
                                  +:+ show_code code +:+ "): "
                                  +:+ substring0 300 (collected chunks))) /\
      _pairingSessions r.1 !! k = Some (set_pairProcess b None) /\
      forall obj' write_error store_rejects' sigs,
        targets obj' k -> has_pin obj' ->
        submitPin r.1 obj' write_error store_rejects' sigs =
        (r.1, _respond obj' (RError "No active pairing process. Start pairing first."))) /\
  (forall a obj k b pid chunks code c store_rejects,
      targets obj k -> has_pin obj ->
      _pairingSessions a !! k = Some b ->
      _pairProcess b = Some pid ->
      is_killed (processes a) pid = false ->
      forallb is_data chunks = true ->
      _extractCredentials (collected chunks) = Some c ->
      let r := submitPin a obj None store_rejects (chunks ++ [Exit code]) in
      let msg := match message obj with Some m => m | None => empty_message end in
      r.2 = StorePairCredentials k (str_default (m_protocol msg) "airplay") (Str c)
            :: _respond obj (match store_rejects with
                             | None => RPaired (Str c)
                             | Some m => RError m
                             end) /\
      _pairingSessions r.1 !! k = None /\
      forall obj' write_error store_rejects' sigs,
        targets obj' k -> has_pin obj' ->
        submitPin r.1 obj' write_error store_rejects' sigs =
        (r.1, _respond obj' (RError ("No active pairing session for " +:+ k
                                     +:+ ". Start pairing first.")))).
Proof.
  split.
  - intros a obj k b pid chunks code store Ht Hp Hs Hb Hk Hd Hx Hc r. subst r.
    rewrite (submitPin_found a obj k b None store _ Ht Hp Hs).
    cbn zeta. rewrite (pairFinish_exit b _ pid _ chunks code Hb Hk Hd).
    unfold exit_outcome. rewrite Hx.
    assert (match code with
            | Some 0 => Normal {| r_status := paired;
                                  r_credentials := Str (trim (collected chunks)) |}
            | _ => Throw ("Pairing failed after PIN entry (exit code " +:+ show_code code
                          +:+ "): " +:+ substring0 300 (collected chunks))
            end = Throw ("Pairing failed after PIN entry (exit code " +:+ show_code code
                         +:+ "): " +:+ substring0 300 (collected chunks))) as ->.
    { destruct code as [[|n]|]; [now elim Hc | reflexivity | reflexivity]. }
    cbn [fst snd _pairingSessions]. split; [reflexivity |].
    split; [apply lookup_insert_eq |].
    intros obj' we store' sigs Ht' Hp'.
    rewrite (submitPin_found _ obj' k (set_pairProcess b None) we store' sigs Ht' Hp')
      by apply lookup_insert_eq.
    cbn. now rewrite insert_insert_eq.
  - intros a obj k b pid chunks code c store Ht Hp Hs Hb Hk Hd Hx r msg. subst r msg.
    rewrite (submitPin_found a obj k b None store _ Ht Hp Hs).
    cbn zeta. rewrite (pairFinish_exit b _ pid _ chunks code Hb Hk Hd).
    unfold exit_outcome. rewrite Hx. cbn [fst snd _pairingSessions r_credentials cred_truthy].
    rewrite (extractCredentials_truthy _ c Hx).
    split; [now destruct store |]. split; [apply lookup_delete_eq |].
    intros obj' we store' sigs Ht' Hp'.
    now rewrite (submitPin_missing _ obj' k we store' sigs Ht' Hp') by apply lookup_delete_eq.
Qed.

End SessionProperties.

Lemma submitPin_session_lifecycle_witness :
  _pairingSessions
    (submitPin (E := Example.engine)
       (startPairing Example.adapter0 Example.start_tv "atvremote" None Example.prompt).1
       (Example.submit_tv (VStr "1234")) None None
       ([Stdout "Pairing failed"] ++ [Exit (Some 1)])).1 !! "tv"
  = Some Example.fresh_backend.
Proof.
  exact (proj1 (proj2 (proj1 (submitPin_session_lifecycle (E := Example.engine))
           (startPairing Example.adapter0 Example.start_tv "atvremote" None Example.prompt).1
           (Example.submit_tv (VStr "1234")) "tv" Example.pairing_backend 0
           [Stdout "Pairing failed"] (Some 1) None
           eq_refl eq_refl eq_refl eq_refl eq_refl eq_refl eq_refl
           ltac:(discriminate)))).
Defined.

Section AbortProperties.
Context {E : Engine}.

Lemma abortPairing_found (a : Adapter) (obj : Obj) (k : string) (b : PyatvBackend) :
  targets obj k ->
  _pairingSessions a !! k = Some b ->
  abortPairing a obj =
  ({| _pairingSessions := delete k (_pairingSessions a);
      processes := (pairAbort b (processes a)).2 |},
   _respond obj RAborted).
Proof.
  unfold targets, abortPairing. intros Ht Hs. rewrite Ht.
  unfold mbind, option_bind. rewrite Hs. cbn [show_str].
  now destruct (pairAbort b (processes a)).
Qed.

Lemma abortPairing_missing (a : Adapter) (obj : Obj) :
  (forall k, targets obj k -> _pairingSessions a !! k = None) ->
  abortPairing a obj = (a, _respond obj RAborted).
Proof.
  unfold targets, abortPairing. intros H.
  destruct (str_or _ _) as [k|]; [| reflexivity].
  unfold mbind, option_bind. now rewrite (H k eq_refl).
Qed.

Lemma pairAbort_not_live (b : PyatvBackend) (t : list ChildProcess) (pid : nat)
    (p : ChildProcess) :
  _pairProcess b = Some pid ->
  (pairAbort b t).2 !! pid = Some p ->
  live p = false.
Proof.
  intros Hb. unfold pairAbort. rewrite Hb. unfold is_killed.
  destruct (t !! pid) as [p0|] eqn:Hp.
  - destruct (killed p0) eqn:Hk; cbn [negb snd].
    + rewrite Hp. intros H. injection H as <-. unfold live. rewrite Hk.
      apply andb_false_r.
    + apply kill_not_live.
  - cbn [negb snd]. unfold kill. rewrite list_lookup_alter_eq, Hp. discriminate.
Qed.

(** X7.  [abortPairing] for a device with a registered session answers
    [aborted], removes the session, and leaves the session's pairing
    process not live (killed, or already gone) and every other process
    as it was; a second [abortPairing] changes nothing.  Without a
    registered session it answers [aborted] and changes nothing. *)
Theorem abortPairing_kills_and_forgets :
  (forall a obj k b,
      targets obj k ->
      _pairingSessions a !! k = Some b ->
      let r := abortPairing a obj in
      r.2 = _respond obj RAborted /\
      _pairingSessions r.1 !! k = None /\
      (forall pid p, _pairProcess b = Some pid -> processes r.1 !! pid = Some p ->
                     live p = false) /\
      (forall q, _pairProcess b <> Some q -> processes r.1 !! q = processes a !! q) /\
      abortPairing r.1 obj = (r.1, _respond obj RAborted)) /\
  (forall a obj,
      (forall k, targets obj k -> _pairingSessions a !! k = None) ->
      abortPairing a obj = (a, _respond obj RAborted)).
Proof.
  split.
  - intros a obj k b Ht Hs r. subst r. rewrite (abortPairing_found a obj k b Ht Hs).
    cbn [fst snd _pairingSessions processes].
    split; [reflexivity |]. split; [apply lookup_delete_eq |]. split; [| split].
    + intros pid p Hb Hp. exact (pairAbort_not_live b _ pid p Hb Hp).
    + intros q Hq.
      unfold pairAbort. destruct (_pairProcess b) as [pid|]; [| reflexivity].
      destruct (is_killed (processes a) pid); cbn [negb snd]; [reflexivity |].
      unfold kill. apply list_lookup_alter_ne. congruence.
    + apply abortPairing_missing. intros k' Ht'. unfold targets in *.
      cbn [_pairingSessions]. assert (k' = k) as -> by congruence.
      apply lookup_delete_eq.
  - exact abortPairing_missing.
Qed.

Lemma pairStart_fresh_prompt (b : PyatvBackend) (t : list ChildProcess)
    (protocol : string) (sigs : list Signal) :
  _pairProcess b = None ->
  forallb is_data sigs = true ->
  pin_prompt (collected sigs) = true ->
  pairStart b t protocol sigs =
  (set_pairProcess b (Some (List.length t)),
   t ++ [ {| command := atvremotePath b;
             args := device_args b ++
                     ["--protocol"; if JS.truthy protocol then protocol else "airplay";
                      "pair"];
             killed := false; exited := false; stdin := [] |} ],
   Some (Normal {| r_status := awaitingPin; r_credentials := Absent |})).
Proof.
  intros Hb Hd Hp. unfold pairStart, pairAbort. rewrite Hb. unfold spawn.
  rewrite pairStart_on_data; [| reflexivity | reflexivity | reflexivity | exact Hd].
  cbn [output timer pending0]. rewrite append_nil_l. unfold after_output. rewrite Hp.
  reflexivity.
Qed.

(** X8.  A pairing started and then aborted leaves nothing behind: when
    [startPairing] for a device has been answered [awaitingPin], an
    [abortPairing] for the same device kills the pairing process that
    was spawned and empties the device's entry in the registry. *)
Theorem startPairing_then_abort (a : Adapter) (obj : Obj) (k path : string)
    (store_rejects : option string) (sigs : list Signal) :
  targets obj k ->
  k <> "" ->
  forallb is_data sigs = true ->
  pin_prompt (collected sigs) = true ->
  let started := startPairing a obj path store_rejects sigs in
  let aborted := abortPairing started.1 obj in
  started.2 = _respond obj (RAwaitingPin k) /\
  aborted.2 = _respond obj RAborted /\
  _pairingSessions aborted.1 !! k = None /\
  (exists p, processes aborted.1 !! List.length (processes a) = Some p /\
             killed p = true /\ live p = false) /\
  (forall q, q < List.length (processes a) ->
             processes aborted.1 !! q = processes a !! q).
Proof.
  intros Ht Hk Hd Hp started aborted. subst aborted started.
  assert (startPairing a obj path store_rejects sigs =
          (let msg := match message obj with Some m => m | None => empty_message end in
           {| _pairingSessions :=
                <[k := {| identifier := str_default (m_identifier msg) "";
                          address := str_default (m_address msg) "";
                          atvremotePath := path;
                          _pairProcess := Some (List.length (processes a)) |}]>
                  (_pairingSessions a);
              processes :=
                processes a ++
                [ {| command := path;
                     args := device_args
                               {| identifier := str_default (m_identifier msg) "";
                                  address := str_default (m_address msg) "";
                                  atvremotePath := path; _pairProcess := None |} ++
                             ["--protocol";
                              if JS.truthy (str_default (m_protocol msg) "airplay")
                              then str_default (m_protocol msg) "airplay" else "airplay";
                              "pair"];
                     killed := false; exited := false; stdin := [] |} ] |},
           _respond obj (RAwaitingPin k))) as Hstart.
  { unfold startPairing. unfold targets in Ht. rewrite Ht.
    apply truthy_true in Hk. rewrite Hk.
    rewrite pairStart_fresh_prompt by (try reflexivity; assumption). reflexivity. }
  rewrite Hstart. cbn zeta. cbn [fst snd].
  erewrite abortPairing_found; [| exact Ht | apply lookup_insert_eq].
  cbn [fst snd _pairingSessions processes].
  unfold pairAbort. cbn [_pairProcess]. unfold is_killed.
  rewrite list_lookup_middle by reflexivity. cbn [killed negb snd].
  split; [reflexivity |]. split; [reflexivity |]. split; [apply lookup_delete_eq |].
  split.
  - eexists. unfold kill. rewrite list_lookup_alter_eq, list_lookup_middle by reflexivity.
    cbn. repeat split; reflexivity.
  - intros q Hq. unfold kill. rewrite list_lookup_alter_ne by lia.
    now apply lookup_app_l.
Qed.

End AbortProperties.

Lemma abortPairing_kills_and_forgets_witness :
  abortPairing (E := Example.engine) Example.adapter0 Example.start_tv =
  (Example.adapter0, [SendTo RAborted]) /\
  _pairingSessions
    (abortPairing (E := Example.engine)
       {| _pairingSessions := {[ "tv" := Example.pairing_backend ]};
          processes := Example.pairing_table |} Example.start_tv).1 !! "tv" = None.
Proof.
  split.
  - apply (proj2 (abortPairing_kills_and_forgets (E := Example.engine))).
    intros k _. reflexivity.
  - pose proof (proj1 (abortPairing_kills_and_forgets (E := Example.engine))
                  {| _pairingSessions := {[ "tv" := Example.pairing_backend ]};
                     processes := Example.pairing_table |}
                  Example.start_tv "tv" Example.pairing_backend eq_refl eq_refl) as H.
    cbv zeta in H. exact (proj1 (proj2 H)).
Defined.

Lemma startPairing_then_abort_witness :
  List.map live
    (processes (abortPairing (E := Example.engine)
                  (startPairing Example.adapter0 Example.start_tv "atvremote" None
                     Example.prompt).1 Example.start_tv).1) = [false].
Proof.
  destruct (startPairing_then_abort (E := Example.engine) Example.adapter0
              Example.start_tv "tv" "atvremote" None Example.prompt
              eq_refl ltac:(discriminate) eq_refl eq_refl)
    as (_ & _ & _ & (p & Hp & _ & Hl) & _).
  vm_compute in Hp. injection Hp as <-. reflexivity.
Defined.

(** ** The device manager: handles, cycles and the attempt counter *)

Section ManagerCycles.
Context {E : Engine}.

Lemma count_app (kind : Effect -> bool) (es es' : list Effect) :
  count kind (es ++ es') = count kind es + count kind es'.
Proof. unfold count. now rewrite List.filter_app, List.length_app. Qed.

Lemma cycle_balanced (d : DeviceManager) (env : ConnectEnv) (rejects : option string) :
  no_handles d ->
  let r1 := connect d env in
  let r2 := disconnect r1.1 rejects in
  let es := r1.2 ++ r2.2.1 in
  no_handles r2.1 /\
  count is_StartPush es = count is_StopPush es /\
  count (is_SetInterval PollSlot) es = count (is_ClearInterval PollSlot) es /\
  count (is_SetInterval ArtworkSlot) es = count (is_ClearInterval ArtworkSlot) es /\
  count is_SetTimeout es = 0.
Proof.
  intros (H1 & H2 & H3 & H4). unfold connect, disconnect, _startPolling.
  destruct (startPush_throws env), (setState_rejects env);
    cbn [fst snd pushHandle pollTimer reconnectTimer artworkTimer];
    rewrite ?H1, ?H2, ?H3, ?H4; cbn; repeat split; reflexivity.
Qed.

(** X9.  Cycles of [connect()] and [disconnect()] leak nothing.
    Starting without handles, after any number of rounds, whatever fails
    in them, the manager has no push handle and no timer, and every
    push subscription and every interval that was started has been
    stopped: the starts and the stops are equal in number, and no
    reconnect timer was set.  A second [disconnect()] only writes
    [info.connected] again. *)
Theorem connect_disconnect_cycles_leak_nothing :
  (forall rounds d,
      no_handles d ->
      let r := cycles d rounds in
      no_handles r.1 /\
      count is_StartPush r.2 = count is_StopPush r.2 /\
      count (is_SetInterval PollSlot) r.2 = count (is_ClearInterval PollSlot) r.2 /\
      count (is_SetInterval ArtworkSlot) r.2 = count (is_ClearInterval ArtworkSlot) r.2 /\
      count is_SetTimeout r.2 = 0) /\
  (forall d rejects rejects',
      no_handles (disconnect d rejects).1 /\
      (disconnect (disconnect d rejects).1 rejects').1 = (disconnect d rejects).1 /\
      (disconnect (disconnect d rejects).1 rejects').2.1 =
      [SetState "info.connected" (VBool false)]).
Proof.
  split.
  - induction rounds as [|[env rejects] rounds IH]; intros d Hd.
    + cbn. repeat split; apply Hd.
    + cbn [cycles]. cbn zeta.
      destruct (cycle_balanced d env rejects Hd) as (Hn & Hp & Hi & Ha & Ht).
      destruct (IH _ Hn) as (Hn' & Hp' & Hi' & Ha' & Ht').
      cbn [fst snd]. rewrite List.app_assoc. rewrite !count_app in *.
      split; [exact Hn' |]. repeat split; lia.
  - intros d rejects rejects'. unfold disconnect, no_handles. cbn. now repeat split.
Qed.

(** X10.  What [connect()] leaves after a [disconnect()]: the push
    handle is set unless [startPushUpdates] throws; the poll timer runs
    when it throws, and also when the write of [info.connected] that
    follows a successful start rejects - in that case alone a push
    handle and a poll timer are live together; otherwise exactly one of
    the two is.  The artwork timer runs only when neither failed, and no
    reconnect timer is pending. *)
Theorem connect_after_disconnect_transport (d : DeviceManager) (rejects : option string)
    (env : ConnectEnv) :
  let d2 := (connect (disconnect d rejects).1 env).1 in
  (pushHandle d2 = true <-> startPush_throws env = None) /\
  (pollTimer d2 = true <->
   startPush_throws env <> None \/ setState_rejects env <> None) /\
  (pushHandle d2 = true /\ pollTimer d2 = true <->
   startPush_throws env = None /\ setState_rejects env <> None) /\
  (pushHandle d2 = true \/ pollTimer d2 = true) /\
  (artworkTimer d2 = true <->
   startPush_throws env = None /\ setState_rejects env = None) /\
  reconnectTimer d2 = None /\
  (connected d2 = true <-> startPush_throws env = None).
Proof.
  unfold connect, disconnect, _startPolling.
  destruct (startPush_throws env) as [m|], (setState_rejects env) as [m'|]; cbn;
    repeat split; intros; try reflexivity; try discriminate; try congruence;
    try tauto; intuition (try discriminate; try congruence).
Qed.

End ManagerCycles.

Lemma connect_disconnect_cycles_leak_nothing_witness :
  count (E := Example.engine) is_StartPush
    (cycles (new_manager "Living Room")
       [(Example.connect_ok, None);
        ({| startPush_throws := Some "spawn EACCES"; setState_rejects := None |},
         Some "DB closed")]).2 = 1 /\
  count (E := Example.engine) is_StopPush
    (cycles (new_manager "Living Room")
       [(Example.connect_ok, None);
        ({| startPush_throws := Some "spawn EACCES"; setState_rejects := None |},
         Some "DB closed")]).2 = 1.
Proof.
  pose proof (proj1 (proj2 (proj1 (connect_disconnect_cycles_leak_nothing
                (E := Example.engine))
                [(Example.connect_ok, None);
                 ({| startPush_throws := Some "spawn EACCES"; setState_rejects := None |},
                  Some "DB closed")]
                (new_manager "Living Room")
                (conj eq_refl (conj eq_refl (conj eq_refl eq_refl)))))) as H.
  split; [reflexivity | rewrite <- H; reflexivity].
Defined.

Section ManagerRuns.
Context {E : Engine}.

Lemma reconnect_delay_bounds (n : N) :
  (RECONNECT_BASE_DELAY <= reconnect_delay n <= RECONNECT_MAX_DELAY)%N.
Proof.
  unfold reconnect_delay, RECONNECT_BASE_DELAY, RECONNECT_MAX_DELAY.
  assert (1 <= 2 ^ n)%N as H.
  { change 1%N with (2 ^ 0)%N. apply N.pow_le_mono_r; [discriminate | lia]. }
  split; [apply N.min_glb; nia | apply N.le_min_r].
Qed.

Lemma timeouts_within_app (es es' : list Effect) :
  timeouts_within (es ++ es') = timeouts_within es && timeouts_within es'.
Proof. apply forallb_app. Qed.

Lemma scheduleReconnect_bounds (d : DeviceManager) :
  within_bounds d ->
  within_bounds (_scheduleReconnect d).1 /\ timeouts_within (_scheduleReconnect d).2 = true.
Proof.
  intros Hd. pose proof Hd as [Ha Ht]. unfold _scheduleReconnect.
  destruct (reconnectTimer d) as [x|] eqn:Hx; [split; [exact Hd | reflexivity] |].
  destruct (N.leb MAX_RECONNECT_ATTEMPTS (reconnectAttempts d)) eqn:Hm.
  - split; [exact Hd | reflexivity].
  - apply N.leb_gt in Hm. pose proof (reconnect_delay_bounds (reconnectAttempts d)) as Hb.
    split.
    + split; cbn; [unfold MAX_RECONNECT_ATTEMPTS in *; lia |].
      intros x H. now injection H as <-.
    + cbn. rewrite andb_true_r. apply andb_true_iff.
      split; apply N.leb_le; apply Hb.
Qed.

Lemma updatePlayingStates_timeouts (data : Playing) (k : nat) :
  timeouts_within (firstn k (_updatePlayingStates data)) = true.
Proof.
  unfold _updatePlayingStates.
  do 15 (destruct k as [|k]; [reflexivity |]). reflexivity.
Qed.

Lemma step_bounds (d : DeviceManager) (i : Input) :
  within_bounds d ->
  within_bounds (step d i).1 /\ timeouts_within (step d i).2 = true.
Proof.
  intros Hd. pose proof Hd as [Ha Ht].
  assert (0 <= MAX_RECONNECT_ATTEMPTS)%N as H0 by (unfold MAX_RECONNECT_ATTEMPTS; lia).
  destruct i as [event | env | rejects env]; cbn [step].
  - destruct event as [state | data | lvl | c reason]; cbn [_handlePushEvent];
      try (split; [exact Hd | reflexivity]).
    destruct c; cbn [negb]; [split; [exact Hd | reflexivity] |].
    match goal with
    | |- context [_scheduleReconnect ?d1] =>
        destruct (scheduleReconnect_bounds d1 (conj Ha Ht)) as [H1 H2];
        destruct (_scheduleReconnect d1) as [d2 es]
    end.
    cbn [fst snd] in *. split; [exact H1 | exact H2].
  - unfold poll_tick, poll_try.
    destruct (fails env) as [[[ | k | | | ] m]|];
      try destruct (connected d) eqn:Hc; cbn [fst snd connected set_connected];
      rewrite ?Hc; cbn [fst snd];
      (split; [split; cbn; [first [exact Ha | exact H0] | exact Ht] |]);
      rewrite ?timeouts_within_app, ?updatePlayingStates_timeouts; reflexivity.
  - unfold reconnect_timer_fired, disconnect. destruct rejects as [m|].
    + match goal with
      | |- context [_scheduleReconnect ?d1] =>
          assert (within_bounds d1) as Hd1 by (split; [exact Ha | discriminate]);
          destruct (scheduleReconnect_bounds d1 Hd1) as [H1 H2];
          destruct (_scheduleReconnect d1) as [d2 es]
      end.
      cbn [fst snd] in *. split; [exact H1 |].
      rewrite !timeouts_within_app, H2.
      destruct (pushHandle d), (pollTimer d), (reconnectTimer d), (artworkTimer d);
        reflexivity.
    + unfold connect, _startPolling.
      destruct (startPush_throws env), (setState_rejects env);
        cbn [fst snd]; (split; [split; cbn; [first [exact Ha | exact H0] | discriminate] |]);
        destruct (pushHandle d), (pollTimer d), (reconnectTimer d), (artworkTimer d);
        reflexivity.
Qed.

Lemma run_bounds (inputs : list Input) (d0 d : DeviceManager) (es : list Effect) :
  within_bounds d0 ->
  run d0 inputs = Some (d, es) ->
  within_bounds d /\ timeouts_within es = true.
Proof.
  revert d0 d es. induction inputs as [|i rest IH]; intros d0 d es H0 Hr.
  - cbn in Hr. injection Hr as <- <-. now split.
  - cbn [run] in Hr. destruct (enabled d0 i); [| discriminate].
    destruct (step_bounds d0 i H0) as [H1 H2].
    destruct (step d0 i) as [d1 es1]. cbn [fst snd] in *.
    destruct (run d1 rest) as [[d2 es2]|] eqn:Hrun; [| discriminate].
    injection Hr as <- <-. destruct (IH d1 d2 es2 H1 Hrun) as [H3 H4].
    split; [exact H3 |]. now rewrite timeouts_within_app, H2, H4.
Qed.

(** X11.  In every run of a manager from its construction, whatever the
    push events, poll ticks and timer firings and whatever fails in
    them: the attempt counter never exceeds 10, a pending reconnect
    timer has a delay between 5000 and 300000 milliseconds, and so has
    every reconnect timer that was set on the way. *)
Theorem run_keeps_backoff_bounds (name : string) (inputs : list Input)
    (d : DeviceManager) (es : list Effect) :
  run (new_manager name) inputs = Some (d, es) ->
  (reconnectAttempts d <= 10)%N /\
  (forall x, reconnectTimer d = Some x -> (5000 <= x <= 300000)%N) /\
  (forall x, In (SetTimeout x) es -> (5000 <= x <= 300000)%N).
Proof.
  intros Hr.
  assert (within_bounds (new_manager name)) as H0.
  { split; cbn; [unfold MAX_RECONNECT_ATTEMPTS; lia | discriminate]. }
  destruct (run_bounds inputs _ d es H0 Hr) as [[Ha Ht] He].
  split; [exact Ha |]. split; [exact Ht |].
  intros x Hx. unfold timeouts_within in He.
  rewrite forallb_forall in He. specialize (He _ Hx). cbn in He.
  apply andb_true_iff in He. destruct He as [H1 H2].
  apply N.leb_le in H1, H2. split; assumption.
Qed.

(** X12.  A reconnect whose [disconnect()] completes and whose
    [startPushUpdates] does not throw sets the attempt counter back to 0
    and marks the manager connected, before anything is known about the
    device.  The next connection loss is therefore scheduled with the
    base delay of 5000 milliseconds again, as attempt 1: with a push
    start that never throws the backoff does not grow. *)
Theorem reconnect_resets_attempts (d : DeviceManager) (env : ConnectEnv)
    (reason : value num) :
  startPush_throws env = None ->
  let d1 := (reconnect_timer_fired d None env).1 in
  reconnectAttempts d1 = 0%N /\
  connected d1 = true /\
  reconnectTimer d1 = None /\
  let r := step d1 (PushInput (EvConnection false reason)) in
  reconnectTimer r.1 = Some 5000%N /\
  reconnectAttempts r.1 = 1%N /\
  In (SetTimeout 5000) r.2.
Proof.
  intros H. unfold reconnect_timer_fired, disconnect, connect, _startPolling.
  rewrite H. destruct (setState_rejects env); cbn; repeat split; tauto.
Qed.

(** X13.  The recovery through poll mode.  From any manager without a
    pending reconnect timer and below the attempt ceiling: a push
    connection loss sets the reconnect timer to
    [min(5000 * 2^attempts, 300000)]; when the timer fires and
    [startPushUpdates] throws, the manager falls back to polling; the
    first poll tick that succeeds marks it connected and sets the
    attempt counter to 0.  It then has a poll timer and neither push
    handle nor reconnect or artwork timer. *)
Theorem push_loss_recovers_through_polling (d : DeviceManager) (reason : value num)
    (m : string) (rejects : option string) (now_playing : Playing) (on : bool) :
  reconnectTimer d = None ->
  (reconnectAttempts d < MAX_RECONNECT_ATTEMPTS)%N ->
  exists es,
    run d [PushInput (EvConnection false reason);
           ReconnectTimer None {| startPush_throws := Some m; setState_rejects := rejects |};
           PollTick {| playing := now_playing; power := on; fails := None |}]
    = Some ({| label := label d; pushHandle := false; pollTimer := true;
               reconnectTimer := None; artworkTimer := false;
               connected := true; reconnectAttempts := 0 |}, es) /\
    In (SetTimeout (reconnect_delay (reconnectAttempts d))) es /\
    In (SetInterval PollSlot) es /\
    In (SetState "info.connected" (VBool true)) es.
Proof.
  intros Ht Ha. apply N.leb_gt in Ha.
  eexists. cbn [run enabled step _handlePushEvent negb].
  unfold _scheduleReconnect. cbn [reconnectTimer reconnectAttempts]. rewrite Ht, Ha.
  cbn [fst snd reconnectTimer]. unfold reconnect_timer_fired, disconnect, connect.
  cbn [startPush_throws fst snd _startPolling label pushHandle pollTimer reconnectTimer
       artworkTimer connected reconnectAttempts].
  unfold poll_tick, poll_try. cbn [fails connected fst snd set_connected label pushHandle
       pollTimer reconnectTimer artworkTimer reconnectAttempts playing power].
  split; [reflexivity |].
  repeat split.
  - apply in_or_app. left. cbn. tauto.
  - apply in_or_app. right. apply in_or_app. left.
    destruct (pushHandle d), (pollTimer d), (artworkTimer d); cbn; tauto.
  - apply in_or_app. right. apply in_or_app. right.
    apply in_or_app. left. apply in_or_app. right. cbn. tauto.
Qed.

End ManagerRuns.

Lemma run_keeps_backoff_bounds_witness :
  (reconnectAttempts
     (step (E := Example.engine) (new_manager "Living Room")
        (PushInput (EvConnection false (VStr "process_exit")))).1 <= 10)%N.
Proof.
  exact (proj1 (run_keeps_backoff_bounds (E := Example.engine) "Living Room"
           [PushInput (EvConnection false (VStr "process_exit"))] _ _ eq_refl)).
Defined.

Lemma reconnect_resets_attempts_witness :
  reconnectAttempts
    (reconnect_timer_fired (E := Example.engine) Example.manager_waiting None
       Example.connect_ok).1 = 0%N.
Proof.
  exact (proj1 (reconnect_resets_attempts (E := Example.engine) Example.manager_waiting
           Example.connect_ok (VStr "process_exit") eq_refl)).
Defined.

Lemma push_loss_recovers_through_polling_witness :
  exists es,
    run (E := Example.engine) Example.manager_polling
      [PushInput (EvConnection false (VStr "process_exit"));
       ReconnectTimer None {| startPush_throws := Some "spawn ENOENT";
                              setState_rejects := None |};
       PollTick {| playing := Example.idle; power := true; fails := None |}]
    = Some ({| label := "Living Room"; pushHandle := false; pollTimer := true;
               reconnectTimer := None; artworkTimer := false;
               connected := true; reconnectAttempts := 0 |}, es).
Proof.
  destruct (push_loss_recovers_through_polling (E := Example.engine)
              Example.manager_polling (VStr "process_exit") "spawn ENOENT" None
              Example.idle true eq_refl eq_refl) as (es & H & _).
  exists es. exact H.
Defined.

(** ** Object ids *)

Import Ids Router Notions.

Lemma underscore_is_id_char : is_id_char underscore = true.
Proof. reflexivity. Qed.

Lemma id_char_not_dot (c : ascii) : is_id_char c = true -> Ascii.eqb c dot = false.
Proof.
  destruct c as [[] [] [] [] [] [] [] []]; vm_compute; congruence.
Qed.

Lemma all_chars_impl (p q : ascii -> bool) (s : string) :
  (forall c, p c = true -> q c = true) -> all_chars p s = true -> all_chars q s = true.
Proof.
  intros Hpq. induction s as [|c r IH]; [reflexivity |]. cbn.
  intros H. apply andb_true_iff in H. destruct H as [H1 H2].
  now rewrite (Hpq _ H1), IH.
Qed.

Lemma id_chars_no_dot (s : string) : all_chars is_id_char s = true -> no_dot s = true.
Proof.
  apply all_chars_impl. intros c H. now rewrite (id_char_not_dot c H).
Qed.

Lemma replace_foreign_id_chars (s : string) : all_chars is_id_char (replace_foreign s) = true.
Proof.
  induction s as [|c r IH]; [reflexivity |]. cbn [replace_foreign all_chars].
  rewrite IH, andb_true_r. destruct (is_id_char c) eqn:Hc; [exact Hc | reflexivity].
Qed.

Lemma replace_foreign_length (s : string) :
  String.length (replace_foreign s) = String.length s.
Proof. induction s as [|c r IH]; [reflexivity |]. cbn. now rewrite IH. Qed.

Lemma replace_foreign_fixed (s : string) :
  replace_foreign s = s <-> all_chars is_id_char s = true.
Proof.
  split.
  - intros H. rewrite <- H. apply replace_foreign_id_chars.
  - induction s as [|c r IH]; [reflexivity |]. cbn. intros H.
    apply andb_true_iff in H. destruct H as [H1 H2]. now rewrite H1, IH.
Qed.

Lemma collapse_starts (s : string) :
  starts_with_underscore (collapse s) = starts_with_underscore s.
Proof.
  induction s as [|c r IH]; [reflexivity |]. cbn [collapse].
  destruct (Ascii.eqb c underscore) eqn:Hc; [| reflexivity].
  destruct r as [|c' r']; [reflexivity |].
  destruct (Ascii.eqb c' underscore) eqn:Hc'; [| reflexivity].
  rewrite IH. cbn. now rewrite Hc, Hc'.
Qed.

Lemma collapse_no_double (s : string) : no_double_underscore (collapse s) = true.
Proof.
  induction s as [|c r IH]; [reflexivity |]. cbn [collapse].
  destruct (Ascii.eqb c underscore) eqn:Hc.
  - destruct r as [|c' r']; [cbn; now rewrite Hc |].
    destruct (Ascii.eqb c' underscore) eqn:Hc'; [exact IH |].
    cbn [no_double_underscore]. rewrite IH, collapse_starts. cbn. now rewrite Hc, Hc'.
  - cbn [no_double_underscore]. now rewrite IH, Hc.
Qed.

Lemma collapse_all_chars (p : ascii -> bool) (s : string) :
  all_chars p s = true -> all_chars p (collapse s) = true.
Proof.
  induction s as [|c r IH]; [reflexivity |]. cbn [collapse all_chars]. intros H.
  apply andb_true_iff in H. destruct H as [H1 H2]. specialize (IH H2).
  destruct (Ascii.eqb c underscore).
  - destruct r as [|c' r']; [cbn; now rewrite H1 |].
    destruct (Ascii.eqb c' underscore); [exact IH |]. cbn [all_chars]. now rewrite H1, IH.
  - cbn [all_chars]. now rewrite H1, IH.
Qed.

Lemma collapse_fixed (s : string) : no_double_underscore s = true -> collapse s = s.
Proof.
  induction s as [|c r IH]; [reflexivity |]. cbn [collapse no_double_underscore]. intros H.
  apply andb_true_iff in H. destruct H as [H1 H2]. rewrite (IH H2).
  destruct (Ascii.eqb c underscore); [| reflexivity].
  destruct r as [|c' r']; [reflexivity |]. cbn in H1.
  destruct (Ascii.eqb c' underscore); [discriminate | reflexivity].
Qed.

Lemma strip_first_all_chars (p : ascii -> bool) (s : string) :
  all_chars p s = true -> all_chars p (strip_first s) = true.
Proof.
  destruct s as [|c r]; [reflexivity |]. cbn [strip_first]. intros H.
  destruct (Ascii.eqb c underscore); [| exact H].
  cbn in H. apply andb_true_iff in H. apply H.
Qed.

Lemma strip_first_no_double (s : string) :
  no_double_underscore s = true ->
  no_double_underscore (strip_first s) = true /\
  starts_with_underscore (strip_first s) = false.
Proof.
  destruct s as [|c r]; [now split |]. cbn [strip_first no_double_underscore]. intros H.
  apply andb_true_iff in H. destruct H as [H1 H2].
  destruct (Ascii.eqb c underscore) eqn:Hc.
  - cbn in H1. split; [exact H2 |]. now destruct (starts_with_underscore r).
  - split; [| exact Hc]. cbn [no_double_underscore]. now rewrite Hc, H2.
Qed.

Lemma strip_last_all_chars (p : ascii -> bool) (s : string) :
  all_chars p s = true -> all_chars p (strip_last s) = true.
Proof.
  induction s as [|c r IH]; [reflexivity |]. cbn [strip_last all_chars]. intros H.
  apply andb_true_iff in H. destruct H as [H1 H2]. specialize (IH H2).
  destruct r as [|c' r'].
  - destruct (Ascii.eqb c underscore); [reflexivity | cbn; now rewrite H1].
  - cbn [all_chars]. now rewrite H1, IH.
Qed.

Lemma strip_last_starts (s : string) :
  starts_with_underscore s = false -> starts_with_underscore (strip_last s) = false.
Proof.
  destruct s as [|c r]; [reflexivity |]. cbn [strip_last starts_with_underscore]. intros H.
  destruct r as [|c' r']; [now rewrite H | exact H].
Qed.

Lemma strip_last_empty (s : string) :
  strip_last s = "" -> s = "" \/ s = String underscore "".
Proof.
  destruct s as [|c r]; [now left |]. cbn [strip_last].
  destruct r as [|c' r']; [| discriminate].
  destruct (Ascii.eqb c underscore) eqn:Hc; [| discriminate].
  apply Ascii.eqb_eq in Hc. subst c. now right.
Qed.

Lemma strip_last_no_double (s : string) :
  no_double_underscore s = true ->
  no_double_underscore (strip_last s) = true /\
  ends_with_underscore (strip_last s) = false.
Proof.
  induction s as [|c r IH]; [now split |]. cbn [no_double_underscore]. intros H.
  apply andb_true_iff in H. destruct H as [H1 H2]. specialize (IH H2).
  destruct IH as [IH1 IH2]. cbn [strip_last].
  destruct r as [|c' r'].
  - destruct (Ascii.eqb c underscore) eqn:Hc; [now split |].
    split; cbn; now rewrite Hc.
  - remember (String c' r') as r eqn:Hr.
    assert (Ascii.eqb c underscore && starts_with_underscore (strip_last r) = false) as Hs.
    { destruct (Ascii.eqb c underscore); [| reflexivity]. cbn in H1 |- *.
      apply strip_last_starts. now destruct (starts_with_underscore r). }
    split.
    + cbn [no_double_underscore]. now rewrite Hs, IH1.
    + cbn [ends_with_underscore]. destruct (strip_last r) as [|d q] eqn:Hq; [| exact IH2].
      apply strip_last_empty in Hq. destruct Hq as [Hq | Hq]; [congruence |].
      rewrite Hq in H1. cbn in H1. rewrite andb_true_r in H1.
      now destruct (Ascii.eqb c underscore).
Qed.

Lemma strip_first_fixed (s : string) :
  starts_with_underscore s = false -> strip_first s = s.
Proof.
  destruct s as [|c r]; [reflexivity |]. cbn. now intros ->.
Qed.

Lemma strip_last_fixed (s : string) :
  ends_with_underscore s = false -> strip_last s = s.
Proof.
  induction s as [|c r IH]; [reflexivity |]. cbn [strip_last ends_with_underscore].
  destruct r as [|c' r']; [now intros -> |]. intros H. now rewrite (IH H).
Qed.

Lemma sanitizeAppName_well_formed (name : string) :
  well_formed_name (_sanitizeAppName name) = true.
Proof.
  unfold _sanitizeAppName, well_formed_name.
  pose proof (collapse_all_chars _ _ (replace_foreign_id_chars name)) as Ha.
  pose proof (collapse_no_double (replace_foreign name)) as Hd.
  destruct (strip_first_no_double _ Hd) as [Hd1 Hs1].
  apply (strip_first_all_chars is_id_char) in Ha.
  destruct (strip_last_no_double _ Hd1) as [Hd2 He2].
  rewrite (strip_last_all_chars _ _ Ha), Hd2, (strip_last_starts _ Hs1), He2. reflexivity.
Qed.

Lemma sanitizeAppName_fixed (s : string) :
  well_formed_name s = true -> _sanitizeAppName s = s.
Proof.
  unfold well_formed_name, _sanitizeAppName. intros H.
  apply andb_true_iff in H. destruct H as [H He].
  apply andb_true_iff in H. destruct H as [H Hs].
  apply andb_true_iff in H. destruct H as [Ha Hd].
  apply negb_true_iff in He, Hs.
  rewrite (proj2 (replace_foreign_fixed s) Ha), (collapse_fixed s Hd),
    (strip_first_fixed s Hs), (strip_last_fixed s He). reflexivity.
Qed.

(** X14.  [_sanitizeAppName] always yields a name made of letters,
    digits, [_] and [-] (so without a dot, the separator of object ids)
    that neither starts nor ends with an underscore and has no two
    underscores in a row; the names it leaves unchanged are exactly
    those, and sanitizing twice is sanitizing once. *)
Theorem sanitizeAppName_normal_form (name : string) :
  well_formed_name (_sanitizeAppName name) = true /\
  no_dot (_sanitizeAppName name) = true /\
  (_sanitizeAppName name = name <-> well_formed_name name = true) /\
  _sanitizeAppName (_sanitizeAppName name) = _sanitizeAppName name.
Proof.
  pose proof (sanitizeAppName_well_formed name) as Hw.
  split; [exact Hw |]. split; [| split; [split |]].
  - apply id_chars_no_dot. unfold well_formed_name in Hw.
    apply andb_true_iff in Hw. destruct Hw as [Hw _].
    apply andb_true_iff in Hw. destruct Hw as [Hw _].
    apply andb_true_iff in Hw. apply Hw.
  - intros H. now rewrite <- H.
  - apply sanitizeAppName_fixed.
  - now apply sanitizeAppName_fixed.
Qed.

(** X15.  [_sanitizeId] keeps the length of the raw identifier, yields
    only letters, digits, [_] and [-] (so no dot), changes exactly the
    identifiers that contain another character, and is idempotent. *)
Theorem sanitizeId_normal_form (raw : string) :
  String.length (_sanitizeId raw) = String.length raw /\
  all_chars is_id_char (_sanitizeId raw) = true /\
  no_dot (_sanitizeId raw) = true /\
  (_sanitizeId raw = raw <-> all_chars is_id_char raw = true) /\
  _sanitizeId (_sanitizeId raw) = _sanitizeId raw.
Proof.
  unfold _sanitizeId. pose proof (replace_foreign_id_chars raw) as H.
  split; [apply replace_foreign_length |]. split; [exact H |].
  split; [now apply id_chars_no_dot |]. split; [apply replace_foreign_fixed |].
  now apply replace_foreign_fixed.
Qed.

(** ** Routing of state changes *)

Lemma prefix_append (p s : string) : String.prefix p (p +:+ s) = true.
Proof.
  induction p as [|c p IH]; [now destruct s |].
  rewrite append_cons. cbn. now destruct (ascii_dec c c).
Qed.

Lemma substring_from_append (p s : string) :
  substring_from (String.length p) (p +:+ s) = s.
Proof.
  induction p as [|c p IH]; [now destruct s |].
  rewrite append_cons. exact IH.
Qed.

Lemma split_dot_nonempty (s : string) : split_dot s <> [].
Proof.
  induction s as [|c r IH]; cbn; [discriminate |].
  destruct (Ascii.eqb c dot); [discriminate |].
  destruct (split_dot r); discriminate.
Qed.

Lemma split_dot_segment (a b : string) :
  no_dot a = true -> split_dot (a +:+ String dot b) = a :: split_dot b.
Proof.
  induction a as [|c r IH]; intros H.
  - rewrite append_nil_l. cbn. reflexivity.
  - cbn in H. apply andb_true_iff in H. destruct H as [H1 H2].
    apply negb_true_iff in H1. rewrite append_cons. cbn [split_dot].
    now rewrite H1, (IH H2).
Qed.

Lemma split_dot_last (a : string) : no_dot a = true -> split_dot a = [a].
Proof.
  induction a as [|c r IH]; intros H; [reflexivity |].
  cbn in H. apply andb_true_iff in H. destruct H as [H1 H2].
  apply negb_true_iff in H1. cbn [split_dot]. now rewrite H1, (IH H2).
Qed.

Lemma sanitizeId_no_dot (raw : string) : no_dot (_sanitizeId raw) = true.
Proof. apply id_chars_no_dot, replace_foreign_id_chars. Qed.

Lemma sanitizeAppName_no_dot (name : string) : no_dot (_sanitizeAppName name) = true.
Proof.
  apply id_chars_no_dot. pose proof (sanitizeAppName_well_formed name) as Hw.
  unfold well_formed_name in Hw.
  apply andb_true_iff in Hw. destruct Hw as [Hw _].
  apply andb_true_iff in Hw. destruct Hw as [Hw _].
  apply andb_true_iff in Hw. apply Hw.
Qed.

Section RouterProperties.
Context {E : Engine}.

(** A state change that passes the guards of [onStateChange] is
    dispatched on the segments of the id behind the namespace. *)
Lemma onStateChange_segments (namespace : string) (devices : gset string)
    (deviceId channel stateName : string) (more : list string) (rel : string) (st : State) :
  ack st = false ->
  deviceId ∈ devices ->
  split_dot rel = deviceId :: channel :: stateName :: more ->
  onStateChange namespace devices (namespace +:+ "." +:+ rel) (Some st) =
  match dispatch (deviceId :: channel :: stateName :: more) (val st) with
  | Some c => Dispatched deviceId c
  | None => Ignored
  end.
Proof.
  intros Hack Hin Hsplit. unfold onStateChange. rewrite Hack.
  rewrite <- append_assoc, prefix_append, substring_from_append, Hsplit.
  cbn [negb length Nat.ltb Nat.leb nth]. now rewrite bool_decide_eq_true_2.
Qed.

(** X16.  The buttons [refreshAppList] creates reach their own objects.
    For a registered device (its id is [_sanitizeId] of the raw
    identifier) and any app and channel names, an unacknowledged change
    of the launch button [<device>.apps.<app>.launch] makes
    [onStateChange] call [handleAppFolderLaunch] with the sanitized app
    name, and the folder that handler reads is the folder
    [refreshAppList] created; a change of the channel button
    [<device>.apps.<app>.channels.<channel>] calls
    [handleChannelButton], which reads the object of that button. *)
Theorem app_buttons_reach_their_objects (namespace : string) (devices : gset string)
    (raw name channel : string) (st : State) :
  _sanitizeId raw ∈ devices ->
  ack st = false ->
  onStateChange namespace devices
    (namespace +:+ "." +:+ launchButton (_sanitizeId raw) name) (Some st)
  = Dispatched (_sanitizeId raw) (handleAppFolderLaunch (_sanitizeAppName name)) /\
  folderPath (_sanitizeId raw) (_sanitizeAppName name) = appFolderPath (_sanitizeId raw) name /\
  onStateChange namespace devices
    (namespace +:+ "." +:+ channelButton (_sanitizeId raw) name channel) (Some st)
  = Dispatched (_sanitizeId raw)
      (handleChannelButton (_sanitizeAppName name) (_sanitizeAppName channel)) /\
  channelPath (_sanitizeId raw) (_sanitizeAppName name) (_sanitizeAppName channel)
  = channelButton (_sanitizeId raw) name channel.
Proof.
  intros Hin Hack.
  pose proof (sanitizeId_no_dot raw) as Hd.
  pose proof (sanitizeAppName_no_dot name) as Hn.
  pose proof (sanitizeAppName_no_dot channel) as Hc.
  split; [| split; [reflexivity | split]].
  - rewrite (onStateChange_segments namespace devices (_sanitizeId raw) "apps"
               (_sanitizeAppName name) ["launch"]); [| exact Hack | exact Hin |].
    + cbn. rewrite andb_false_r. reflexivity.
    + unfold launchButton, appFolderPath. rewrite !append_assoc.
      change (".apps." +:+ _sanitizeAppName name +:+ ".launch")
        with (String dot ("apps" +:+ String dot (_sanitizeAppName name +:+ String dot "launch"))).
      rewrite (split_dot_segment _ _ Hd), (split_dot_segment "apps" _ eq_refl),
        (split_dot_segment _ _ Hn). reflexivity.
  - rewrite (onStateChange_segments namespace devices (_sanitizeId raw) "apps"
               (_sanitizeAppName name) ["channels"; _sanitizeAppName channel]);
      [| exact Hack | exact Hin |].
    + cbn. rewrite andb_false_r. reflexivity.
    + unfold channelButton, channelsPath, appFolderPath. rewrite !append_assoc.
      change (".apps." +:+ _sanitizeAppName name +:+ ".channels" +:+ "." +:+
              _sanitizeAppName channel)
        with (String dot ("apps" +:+ String dot (_sanitizeAppName name +:+
              String dot ("channels" +:+ String dot (_sanitizeAppName channel))))).
      rewrite (split_dot_segment _ _ Hd), (split_dot_segment "apps" _ eq_refl),
        (split_dot_segment _ _ Hn), (split_dot_segment "channels" _ eq_refl),
        (split_dot_last _ Hc). reflexivity.
  - unfold channelPath, channelButton, channelsPath, appFolderPath.
    rewrite !append_assoc. reflexivity.
Qed.

End RouterProperties.

Section RoutingTable.
Context {E : Engine}.

Lemma onStateChange_guards (namespace : string) (devices : gset string) (id : string)
    (state : option State) (deviceId : string) (c : Call) :
  onStateChange namespace devices id state = Dispatched deviceId c ->
  deviceId ∈ devices /\
  String.prefix (namespace +:+ ".") id = true /\
  exists st, state = Some st /\ ack st = false.
Proof.
  unfold onStateChange. destruct state as [st|]; [| discriminate].
  destruct (ack st) eqn:Hack; [discriminate |].
  destruct (String.prefix (namespace +:+ ".") id) eqn:Hp; [| discriminate].
  cbn [negb].
  destruct (length _ <? 3); [discriminate |].
  match goal with |- context [bool_decide ?P] => destruct (bool_decide P) eqn:Hd end;
    [| discriminate].
  apply bool_decide_eq_true_1 in Hd.
  destruct (dispatch _ _); [| discriminate].
  intros H. injection H as <- _. split; [exact Hd |]. split; [reflexivity |].
  now exists st.
Qed.

(** X17.  The routing of the state tree.  [onStateChange] calls a
    handler only for a change that is not acknowledged, of a state of
    this adapter instance, below a registered device.  For such a change
    below the device [deviceId], each writable state of the tree has its
    handler: [remote.<command>] calls [handleRemoteCommand] with the
    command, [power.state] calls [handlePowerCommand], [playing.position]
    calls [handleSeek] and [apps.launch] calls [handleAppLaunch], each
    with the new value; the states [apps.list], [apps.current] and
    [apps.currentId] are never taken for legacy app buttons, every other
    state directly below [apps] is. *)
Theorem state_tree_routing (namespace : string) (devices : gset string) :
  (forall id state deviceId c,
     onStateChange namespace devices id state = Dispatched deviceId c ->
     deviceId ∈ devices /\ String.prefix (namespace +:+ ".") id = true /\
     exists st, state = Some st /\ ack st = false) /\
  (forall deviceId command st,
     deviceId ∈ devices -> no_dot deviceId = true -> no_dot command = true ->
     ack st = false ->
     let changed rel :=
       onStateChange namespace devices (namespace +:+ "." +:+ deviceId +:+ "." +:+ rel)
         (Some st) in
     changed ("remote." +:+ command) = Dispatched deviceId (handleRemoteCommand command) /\
     changed "power.state" = Dispatched deviceId (handlePowerCommand (val st)) /\
     changed "playing.position" = Dispatched deviceId (handleSeek (val st)) /\
     changed "apps.launch" = Dispatched deviceId (handleAppLaunch (val st)) /\
     changed "apps.list" = Ignored /\
     changed "apps.current" = Ignored /\
     changed "apps.currentId" = Ignored /\
     (command <> "launch" -> command <> "list" -> command <> "current" ->
      command <> "currentId" ->
      changed ("apps." +:+ command) = Dispatched deviceId (handleAppButton command))).
Proof.
  split; [intros id state deviceId c; apply onStateChange_guards |].
  intros deviceId command st Hin Hd Hc Hack changed.
  assert (forall channel stateName,
            no_dot channel = true -> no_dot stateName = true ->
            changed (channel +:+ String dot stateName) =
            match dispatch [deviceId; channel; stateName] (val st) with
            | Some c => Dispatched deviceId c
            | None => Ignored
            end) as Hchange.
  { intros channel stateName H1 H2. unfold changed.
    apply onStateChange_segments; [exact Hack | exact Hin |].
    change (deviceId +:+ "." +:+ channel +:+ String dot stateName)
      with (deviceId +:+ String dot (channel +:+ String dot stateName)).
    now rewrite (split_dot_segment _ _ Hd), (split_dot_segment _ _ H1), (split_dot_last _ H2). }
  repeat split.
  - change ("remote." +:+ command) with ("remote" +:+ String dot command).
    now rewrite Hchange.
  - change (changed "power.state") with (changed ("power" +:+ String dot "state")).
    now rewrite Hchange.
  - change (changed "playing.position") with (changed ("playing" +:+ String dot "position")).
    now rewrite Hchange.
  - change (changed "apps.launch") with (changed ("apps" +:+ String dot "launch")).
    now rewrite Hchange.
  - change (changed "apps.list") with (changed ("apps" +:+ String dot "list")).
    now rewrite Hchange.
  - change (changed "apps.current") with (changed ("apps" +:+ String dot "current")).
    now rewrite Hchange.
  - change (changed "apps.currentId") with (changed ("apps" +:+ String dot "currentId")).
    now rewrite Hchange.
  - intros H1 H2 H3 H4. change ("apps." +:+ command) with ("apps" +:+ String dot command).
    rewrite Hchange; [| reflexivity | exact Hc]. cbn.
    apply String.eqb_neq in H1, H2, H3, H4. now rewrite H1, H2, H3, H4.
Qed.

End RoutingTable.

(** ** Push events and polled snapshots *)

Import Backend Wiring.

Section PushAnatomy.
Context {E : Engine}.

Lemma lower_or_cases (v : value num) (d : string) :
  (not_a_string v = false /\ exists s, lower_or v d = ([], Normal s)) \/
  (not_a_string v = true /\
   lower_or v d = ([], Throw "(intermediate value).toLowerCase is not a function")).
Proof.
  unfold lower_or, or_else, not_a_string.
  destruct v as [| | b | n | s | items | fields]; cbn [truthy];
    try (left; split; [reflexivity | eexists; reflexivity]);
    try (right; split; reflexivity).
  - destruct b; [right | left]; split; try reflexivity. eexists; reflexivity.
  - destruct (num_truthy n); [right | left]; split; try reflexivity. eexists; reflexivity.
  - left. split; [now rewrite andb_false_r |].
    destruct (JS.truthy s); eexists; reflexivity.
Qed.

(** [_processPushEvent] in terms of the object [getPlaying] builds. *)
Lemma processPushEvent_parts (event : list (string * value num)) :
  _processPushEvent event =
  if has_key "title" event || has_key "device_state" event then
    match playing_of (VObj event) with
    | (_, Normal data) =>
        (power_part event ++ [Update (EvPlaying data)] ++ volume_part event ++
         connection_part event, Normal tt)
    | (_, Throw m) => (power_part event, Throw m)
    end
  else (power_part event ++ volume_part event ++ connection_part event, Normal tt).
Proof.
  unfold _processPushEvent, playing_of, power_part, volume_part, connection_part.
  cbn [get].
  destruct (has_key "power_state" event), (has_key "title" event || has_key "device_state" event),
    (has_key "volume" event), (has_key "connection" event);
    try reflexivity;
    destruct (lower_or_cases (field "media_type" event) "unknown") as [[_ [mt ->]] | [_ ->]];
    try reflexivity;
    destruct (lower_or_cases (field "device_state" event) "idle") as [[_ [ds ->]] | [_ ->]];
    try reflexivity;
    destruct (lower_or_cases (field "shuffle" event) "off") as [[_ [sh ->]] | [_ ->]];
    try reflexivity;
    destruct (lower_or_cases (field "repeat" event) "off") as [[_ [rp ->]] | [_ ->]];
    reflexivity.
Qed.

Lemma playing_of_throws (event : list (string * value num)) :
  (exists m, (playing_of (VObj event)).2 = Throw m) <->
  exists k, In k lowered_fields /\ not_a_string (field k event) = true.
Proof.
  unfold playing_of, lowered_fields. cbn [get].
  destruct (lower_or_cases (field "media_type" event) "unknown") as [[N1 [mt ->]] | [N1 ->]];
    [| split; [intros _; exists "media_type"; split; [cbn; tauto | exact N1]
              | intros _; eexists; reflexivity]].
  destruct (lower_or_cases (field "device_state" event) "idle") as [[N2 [ds ->]] | [N2 ->]];
    [| split; [intros _; exists "device_state"; split; [cbn; tauto | exact N2]
              | intros _; eexists; reflexivity]].
  destruct (lower_or_cases (field "shuffle" event) "off") as [[N3 [sh ->]] | [N3 ->]];
    [| split; [intros _; exists "shuffle"; split; [cbn; tauto | exact N3]
              | intros _; eexists; reflexivity]].
  destruct (lower_or_cases (field "repeat" event) "off") as [[N4 [rp ->]] | [N4 ->]];
    [| split; [intros _; exists "repeat"; split; [cbn; tauto | exact N4]
              | intros _; eexists; reflexivity]].
  split.
  - intros [m H]. discriminate.
  - intros [k [Hk Hn]]. cbn in Hk.
    destruct Hk as [<- | [<- | [<- | [<- | []]]]]; congruence.
Qed.

Lemma playing_of_silent (result : value num) : (playing_of result).1 = [].
Proof.
  unfold playing_of.
  destruct (lower_or_cases (get "media_type" result) "unknown") as [[_ [mt ->]] | [_ ->]];
    [| reflexivity].
  destruct (lower_or_cases (get "device_state" result) "idle") as [[_ [ds ->]] | [_ ->]];
    [| reflexivity].
  destruct (lower_or_cases (get "shuffle" result) "off") as [[_ [sh ->]] | [_ ->]];
    [| reflexivity].
  assert (exists c, match result with
                    | VStr _ => throw "(intermediate value).toLowerCase is not a function"
                    | _ => lower_or (get "repeat" result) "off"
                    end = ([], c)) as [c ->].
  { destruct (lower_or_cases (get "repeat" result) "off") as [[_ [rp Hr]] | [_ Hr]];
      destruct result; rewrite ?Hr; eexists; reflexivity. }
  destruct c; reflexivity.
Qed.

Lemma getPlaying_resolved (r : ExecResult) (result : value num) :
  _execAtvscript r = Normal result -> getPlaying r = playing_of result.
Proof.
  intros H. unfold getPlaying. rewrite H.
  change (match playing_of result with (es', c) => ([] ++ es', c) end = playing_of result).
  now destruct (playing_of result).
Qed.

(** X18.  Push and poll agree.  For an object atvscript answers a
    [playing] call with, carrying a [title] or [device_state] key: the
    playing event [_processPushEvent] hands to [onUpdate] for a push
    line with that object carries exactly the snapshot [getPlaying]
    resolves with; the event is delivered if and only if [getPlaying]
    does not reject, and then it is delivered once: a line gives one
    playing event or none. *)
Theorem push_and_poll_agree (r : ExecResult) (event : list (string * value num))
    (data : Playing) :
  _execAtvscript r = Normal (VObj event) ->
  has_key "title" event || has_key "device_state" event = true ->
  (In (Update (EvPlaying data)) (_processPushEvent event).1
   <-> getPlaying r = ([], Normal data)) /\
  (forall data', In (Update (EvPlaying data')) (_processPushEvent event).1 ->
                 In (Update (EvPlaying data)) (_processPushEvent event).1 -> data' = data) /\
  List.length (List.filter is_playing_update (_processPushEvent event).1) =
  match (getPlaying r).2 with
  | Normal _ => 1
  | Throw _ => 0
  end.
Proof.
  intros Hr Hk. rewrite (getPlaying_resolved r _ Hr), processPushEvent_parts, Hk.
  assert (forall tail,
            List.length (List.filter is_playing_update
                           (power_part event ++ tail ++ volume_part event ++
                            connection_part event)) =
            List.length (List.filter is_playing_update tail)) as Hcount.
  { intros tail. rewrite !List.filter_app, !List.length_app.
    unfold power_part, volume_part, connection_part.
    destruct (has_key "power_state" event), (has_key "volume" event),
      (has_key "connection" event); cbn; lia. }
  pose proof (playing_of_silent (VObj event)) as Hs.
  assert (forall x d0, In (Update (EvPlaying x))
            (power_part event ++ [Update (EvPlaying d0)] ++ volume_part event ++
             connection_part event) -> x = d0) as Hin.
  { intros x d0 H. unfold power_part, volume_part, connection_part in H.
    destruct (has_key "power_state" event), (has_key "volume" event),
      (has_key "connection" event); cbn in H;
      repeat (destruct H as [H | H]; try discriminate; try (now injection H));
      contradiction. }
  destruct (playing_of (VObj event)) as [es [d0 | m]]; cbn [fst snd] in *; subst es.
  - split; [split | split].
    + intros H. now rewrite (Hin _ _ H).
    + intros H. injection H as ->. apply in_or_app. right. now left.
    + intros data' H1 H2. now rewrite (Hin _ _ H1), (Hin _ _ H2).
    + now rewrite Hcount.
  - assert (forall x, ~ In (Update (EvPlaying x)) (power_part event)) as Hno.
    { intros x. unfold power_part. destruct (has_key "power_state" event); cbn; [| tauto].
      intros [H | []]. discriminate. }
    split; [split | split].
    + intros H. now apply Hno in H.
    + discriminate.
    + intros data' H. now apply Hno in H.
    + unfold power_part. now destruct (has_key "power_state" event).
Qed.

(** X19.  A push line that parses, reports success and carries a [title]
    or [device_state] key, but has a truthy value that is no string in
    one of [media_type], [device_state], [shuffle] and [repeat]: the
    power event of the line (if it has the key) is delivered, then the
    handler logs the line as one it failed to parse; the playing, volume
    and connection events of the line are never delivered. *)
Theorem push_line_with_bad_field (line : string) (event : list (string * value num))
    (k : string) :
  JS.truthy (trim line) = true ->
  JSON_parse line = inr (VObj event) ->
  is_str "success" (field "result" event) = true ->
  has_key "title" event || has_key "device_state" event = true ->
  In k lowered_fields ->
  not_a_string (field k event) = true ->
  process_line line =
  power_part event ++ [Log debug ("Failed to parse push update line: " +:+ line)].
Proof.
  intros Ht Hp Hr Hk Hin Hn. unfold process_line. rewrite Ht, Hp, Hr. cbn [negb].
  rewrite processPushEvent_parts, Hk.
  destruct (proj2 (playing_of_throws event)) as [m Hm]; [now exists k |].
  destruct (playing_of (VObj event)) as [es c]. cbn [snd] in Hm. subst c. reflexivity.
Qed.






End PushAnatomy.

Section BackendCalls.
Context {E : Engine}.

(** X21.  What the promise of [_execAtvscript] settles with.  It
    resolves only with what [JSON.parse] made of the trimmed output of a
    run that ended without error, never with [null] and never with an
    object whose [result] is ['failure'].  Every rejection message
    starts with one of three prefixes, and the message about output that
    cannot be used quotes at most the first 200 characters of it. *)
Theorem execAtvscript_settles (r : ExecResult) :
  match _execAtvscript r with
  | Normal v =>
      (exists stdout, r = ExecDone stdout /\ JSON_parse (trim stdout) = inr v) /\
      v <> VNull /\ v <> VUndefined /\
      is_str "failure" (get "result" v) = false
  | Throw m =>
      (String.prefix "atvscript failed: " m = true /\
       exists message stderr, r = ExecFailed message stderr) \/
      (String.prefix "atvscript error: " m = true /\
       exists stdout fields, r = ExecDone stdout /\
         JSON_parse (trim stdout) = inr (VObj fields)) \/
      (String.prefix "Failed to parse atvscript output: " m = true /\
       exists reason stdout raw,
         r = ExecDone stdout /\
         m = "Failed to parse atvscript output: " +:+ reason +:+ ". Raw: " +:+ raw /\
         String.length raw <= 200 /\ exists rest, stdout = raw +:+ rest)
  end.
Proof.
  destruct r as [message stderr | stdout]; cbn [_execAtvscript].
  - left. split; [apply prefix_append | now exists message, stderr].
  - assert (forall reason,
              String.prefix "Failed to parse atvscript output: "
                (parse_failure reason stdout) = true /\
              exists reason0 stdout0 raw,
                ExecDone stdout = ExecDone stdout0 /\
                parse_failure reason stdout =
                "Failed to parse atvscript output: " +:+ reason0 +:+ ". Raw: " +:+ raw /\
                String.length raw <= 200 /\ exists rest, stdout0 = raw +:+ rest) as Hparse.
    { intros reason. split; [apply prefix_append |].
      exists reason, stdout, (substring0 200 stdout).
      split; [reflexivity |]. split; [reflexivity |].
      split; [apply substring0_length | apply substring0_prefix]. }
    destruct (JSON_parse (trim stdout)) as [m | v] eqn:Hp; [right; right; apply Hparse |].
    destruct v as [| | b | n | s | items | fields];
      try (right; right; apply Hparse);
      try (split; [now exists stdout | repeat split; discriminate]).
    destruct (is_str "failure" (field "result" fields)) eqn:Hf.
    + right. left. split; [apply prefix_append | now exists stdout, fields].
    + split; [now exists stdout |]. repeat split; try discriminate. exact Hf.
Qed.

Lemma getPlaying_silent (r : ExecResult) : (getPlaying r).1 = [].
Proof.
  unfold getPlaying. destruct (_execAtvscript r) as [v | m]; [| reflexivity].
  pose proof (playing_of_silent v) as H.
  change (match playing_of v with (es', c) => ([] ++ es', c) end.1 = []).
  now destruct (playing_of v).
Qed.

Lemma getPowerState_silent (r : ExecResult) : (getPowerState r).1 = [].
Proof.
  unfold getPowerState. destruct (_execAtvscript r) as [v | m]; reflexivity.
Qed.

Lemma updatePlayingStates_no_connected (data : Playing) (k : nat) (v : value num) :
  ~ In (SetState "info.connected" v) (firstn k (_updatePlayingStates data)).
Proof.
  unfold _updatePlayingStates.
  do 15 (destruct k as [|k]; [cbn; intuition discriminate |]).
  cbn; intuition discriminate.
Qed.

(** X22.  Poll mode on the pyatv backend.  After a poll tick whose
    state writes succeed, the manager is connected if and only if both
    atvscript calls of the tick, [playing] and [power_state], gave
    usable answers; the power state the device reports plays no part.
    [info.connected] is written only when the tick changes it, then
    with the new value, and the tick never enters the reconnect
    scheduler. *)
Theorem poll_tick_tracks_atvscript (d : DeviceManager) (playing_run power_run : ExecResult) :
  let r := poll_tick d (poll_env playing_run power_run None) in
  (connected r.1 = true <->
     (exists data, getPlaying playing_run = ([], Normal data)) /\
     (exists on, getPowerState power_run = ([], Normal on))) /\
  (connected r.1 = connected d -> forall v, ~ In (SetState "info.connected" v) r.2) /\
  (connected r.1 <> connected d ->
   In (SetState "info.connected" (VBool (connected r.1))) r.2) /\
  invokes_scheduler r.2 = false.
Proof.
  intros r. split; [| split; [| split]]; [| | | apply poll_tick_quiet].
  all: subst r; unfold poll_env.
  all: pose proof (getPlaying_silent playing_run) as H1;
    pose proof (getPowerState_silent power_run) as H2;
    destruct (getPlaying playing_run) as [es1 [data | m1]]; cbn [fst] in H1; subst es1;
    [destruct (getPowerState power_run) as [es2 [on | m2]]; cbn [fst] in H2; subst es2 |].
  all: unfold poll_tick, poll_try; cbn [fails playing power];
    destruct (connected d) eqn:Hc; cbn [fst snd connected set_connected]; rewrite ?Hc;
    cbn [fst snd connected set_connected].
  all: try (split; [intros _; split; eexists; reflexivity | reflexivity]).
  all: try (split; [discriminate | intros [[? H] [? H']]; discriminate]).
  all: try (intros _ v H; repeat (apply in_app_or in H; destruct H as [H | H]);
            try (now apply (updatePlayingStates_no_connected data 14 v));
            cbn in H; intuition discriminate).
  all: try (intros H; now elim H).
  all: try (intros _; repeat (apply in_or_app; right); cbn; tauto).
  all: try (intros H; discriminate).
Qed.

End BackendCalls.

Section LateEvents.
Context {E : Engine}.

(** A second connection loss right after a first is absorbed by the
    manager: it sets no timer, counts no attempt and leaves the manager
    as the first loss left it. *)
Lemma repeated_loss_is_absorbed (d : DeviceManager) (reason reason' : value num) :
  let d1 := (step d (PushInput (EvConnection false reason))).1 in
  let again := step d1 (PushInput (EvConnection false reason')) in
  again.1 = d1 /\ forall delay, ~ In (SetTimeout delay) again.2.
Proof.
  cbn [step _handlePushEvent negb]. unfold _scheduleReconnect.
  cbn [reconnectTimer reconnectAttempts].
  destruct (reconnectTimer d) as [x|] eqn:Ht.
  - cbn. split; [reflexivity | intros delay H; intuition discriminate].
  - destruct (N.leb MAX_RECONNECT_ATTEMPTS (reconnectAttempts d)) eqn:Hm.
    + cbn [fst snd reconnectTimer reconnectAttempts]. rewrite Hm. cbn.
      split; [reflexivity | intros delay H; intuition discriminate].
    + cbn. split; [reflexivity | intros delay H; intuition discriminate].
Qed.

(** X23.  [disconnect()] does not detach the manager from its push
    process: [stop()] leaves the handlers of the process registered, so
    the exit (or an error) of the process after a [disconnect()] still
    reaches [_handlePushEvent].  Below the attempt ceiling the manager
    then sets a reconnect timer, and when that timer fires and
    [startPushUpdates] does not throw, the manager holds a push handle
    and counts as connected again. *)
Theorem exit_after_disconnect_reconnects (d : DeviceManager) (rejects : option string)
    (buffer : string) (sig : Signal) (env : ConnectEnv) :
  (reconnectAttempts d < MAX_RECONNECT_ATTEMPTS)%N ->
  (exists code, sig = Exit code) \/ (exists message, sig = ProcError message) ->
  startPush_throws env = None ->
  let d1 := (disconnect d rejects).1 in
  let late := forward d1 (deliver buffer sig).2 in
  no_handles d1 /\
  reconnectTimer late.1 = Some (reconnect_delay (reconnectAttempts d)) /\
  In (SetTimeout (reconnect_delay (reconnectAttempts d))) late.2 /\
  enabled late.1 (ReconnectTimer None env) = true /\
  let d2 := (step late.1 (ReconnectTimer None env)).1 in
  pushHandle d2 = true /\ connected d2 = true /\
  In StartPush (step late.1 (ReconnectTimer None env)).2.
Proof.
  intros Ha Hsig Hs d1 late. apply N.leb_gt in Ha.
  assert (late = forward d1 [Update (EvConnection false (VStr "process_exit"))] \/
          late = forward d1 [Update (EvConnection false (VStr "process_error"))]) as Hl.
  { subst late. destruct Hsig as [[code ->] | [message ->]]; [left | right]; reflexivity. }
  split; [subst d1; unfold no_handles, disconnect; cbn; tauto |].
  assert (forall reason,
            let l := forward d1 [Update (EvConnection false reason)] in
            reconnectTimer l.1 = Some (reconnect_delay (reconnectAttempts d)) /\
            In (SetTimeout (reconnect_delay (reconnectAttempts d))) l.2 /\
            enabled l.1 (ReconnectTimer None env) = true /\
            pushHandle (step l.1 (ReconnectTimer None env)).1 = true /\
            connected (step l.1 (ReconnectTimer None env)).1 = true /\
            In StartPush (step l.1 (ReconnectTimer None env)).2) as Hgen.
  { intros reason. subst d1. cbn [forward _handlePushEvent negb disconnect fst].
    unfold _scheduleReconnect. cbn [reconnectTimer reconnectAttempts]. rewrite Ha.
    cbn [fst snd reconnectTimer enabled step].
    unfold reconnect_timer_fired, disconnect, connect. rewrite Hs.
    destruct (setState_rejects env); cbn; repeat split; tauto. }
  destruct Hl as [-> | ->]; apply Hgen.
Qed.

End LateEvents.

(** ** Finding and installing pyatv *)

Import Install.

Lemma string_length_append (a b : string) :
  String.length (a +:+ b) = String.length a + String.length b.
Proof.
  induction a as [|c a IH]; [reflexivity |]. rewrite append_cons. cbn. now rewrite IH.
Qed.

Lemma candidates_are_longer (fs : FileSystem) (name p : string) :
  In p (candidates fs name) -> String.length name < String.length p.
Proof.
  unfold candidates, known_paths, home_paths. intros H.
  apply in_app_or in H. destruct H as [H | H].
  - apply in_map_iff in H. destruct H as [dir [<- _]].
    rewrite !string_length_append. cbn. lia.
  - destruct (homes fs) as [users|]; [| contradiction].
    apply in_map_iff in H. destruct H as [user [<- _]].
    rewrite !string_length_append. cbn. lia.
Qed.

Lemma find_append {A : Type} (f : A -> bool) (l l' : list A) :
  List.find f (l ++ l') =
  match List.find f l with
  | Some x => Some x
  | None => List.find f l'
  end.
Proof.
  induction l as [|x l IH]; [reflexivity |]. cbn. now destruct (f x).
Qed.

Lemma findBinary_first (fs : FileSystem) (name : string) :
  findBinary fs name =
  match List.find (executable fs) (candidates fs name) with
  | Some fullPath => fullPath
  | None => name
  end.
Proof.
  unfold findBinary, candidates. rewrite find_append.
  now destruct (List.find (executable fs) (known_paths name)).
Qed.

Lemma findBinary_found (fs : FileSystem) (name : string) :
  findBinary fs name <> name ->
  executable fs (findBinary fs name) = true /\ In (findBinary fs name) (candidates fs name).
Proof.
  rewrite findBinary_first.
  destruct (List.find (executable fs) (candidates fs name)) as [p|] eqn:Hf; [| congruence].
  intros _. apply find_some in Hf. tauto.
Qed.

Lemma findBinary_bare (fs : FileSystem) (name : string) :
  findBinary fs name = name <-> existsb (executable fs) (candidates fs name) = false.
Proof.
  rewrite findBinary_first.
  destruct (List.find (executable fs) (candidates fs name)) as [p|] eqn:Hf.
  - apply find_some in Hf. destruct Hf as [Hin Hx]. split.
    + intros ->. apply candidates_are_longer in Hin. lia.
    + intros H. assert (existsb (executable fs) (candidates fs name) = true) as H'
        by (apply existsb_exists; now exists p). congruence.
  - split; [intros _ | reflexivity].
    destruct (existsb (executable fs) (candidates fs name)) eqn:He; [| reflexivity].
    apply existsb_exists in He. destruct He as [p [Hin Hx]].
    now rewrite (find_none _ _ Hf p Hin) in Hx.
Qed.

(** X24.  [findBinary] returns the first executable path among those it
    tries, in the order it tries them, and the bare name exactly when
    none of them is executable (no path it tries equals the name).  So
    the test of
    [checkInstalled] on its result is sound: [checkInstalled] resolves
    with [true] without running anything whenever a path tried for
    [atvscript] or [atvremote] is executable, and otherwise runs
    [atvscript scan --help] once and resolves with whether that ran
    without error. *)
Theorem checkInstalled_meaning (fs : FileSystem) (probe : option string) :
  (forall name,
     findBinary fs name =
     match List.find (executable fs) (candidates fs name) with
     | Some fullPath => fullPath
     | None => name
     end) /\
  (forall name,
     findBinary fs name <> name ->
     executable fs (findBinary fs name) = true /\
     In (findBinary fs name) (candidates fs name)) /\
  (forall name,
     findBinary fs name = name <-> existsb (executable fs) (candidates fs name) = false) /\
  checkInstalled fs probe =
  if existsb (executable fs) (candidates fs "atvscript" ++ candidates fs "atvremote")
  then ([], Normal true)
  else ([ExecFile "atvscript" ["scan"; "--help"]],
        Normal (match probe with None => true | Some _ => false end)).
Proof.
  split; [apply findBinary_first |].
  split; [apply findBinary_found |]. split; [apply findBinary_bare |].
  unfold checkInstalled. rewrite existsb_app.
  destruct (existsb (executable fs) (candidates fs "atvscript")) eqn:H1.
  - destruct (String.eqb (findBinary fs "atvscript") "atvscript") eqn:He; [| reflexivity].
    apply String.eqb_eq in He. apply findBinary_bare in He. congruence.
  - apply findBinary_bare in H1. rewrite H1, String.eqb_refl. cbn [negb orb].
    destruct (existsb (executable fs) (candidates fs "atvremote")) eqn:H2.
    + destruct (String.eqb (findBinary fs "atvremote") "atvremote") eqn:He; [| reflexivity].
      apply String.eqb_eq in He. apply findBinary_bare in He. congruence.
    + apply findBinary_bare in H2. rewrite H2, String.eqb_refl. reflexivity.
Qed.

(** X25.  [installPyatv] always resolves.  It runs between one and
    seven commands; it resolves with [true] exactly when the last
    command it ran was a [pip3] or [pip] installation of pyatv that
    succeeded, and no command is run after such a success; the success
    of an [apt-get] command alone never makes it [true].  It logs an
    error exactly when it resolves with [false]. *)
Theorem installPyatv_outcome (answers : nat -> option string) :
  exists r,
    (installPyatv answers).2 = Normal r /\
    let cmds := commands (installPyatv answers).1 in
    1 <= length cmds <= 7 /\
    (forall i c, i + 1 < length cmds -> nth_error cmds i = Some c ->
                 is_pyatv_install c && succeeded answers i = false) /\
    (r = true <->
     exists c, nth_error cmds (length cmds - 1) = Some c /\
               is_pyatv_install c && succeeded answers (length cmds - 1) = true) /\
    existsb is_final_error (installPyatv answers).1 = negb r.
Proof.
  unfold installPyatv, tryExec, succeeded.
  destruct (answers 0) as [m0|] eqn:A0.
  2: { exists true. split; [reflexivity |]. cbn. rewrite A0.
       split; [lia |]. split; [intros i c H; lia |]. split; [| reflexivity].
       split; [intros _; eexists; split; reflexivity | reflexivity]. }
  destruct (answers 1) as [m1|] eqn:A1.
  2: { exists true. split; [reflexivity |]. cbn.
       split; [lia |]. split; [| split; [| reflexivity]].
       - intros [|[|i]] c H Hc; try lia. injection Hc as <-. cbn. now rewrite A0.
       - split; [intros _; eexists; split; [reflexivity | cbn; now rewrite A1] | reflexivity]. }
  destruct (answers 2) as [m2|] eqn:A2; (destruct (answers 3) as [m3|] eqn:A3;
    [ destruct (answers 4) as [m4|] eqn:A4
    | destruct (answers 4) as [m4|] eqn:A4;
      [destruct (answers 5) as [m5|] eqn:A5; [destruct (answers 6) as [m6|] eqn:A6 |] |] ]).
  all: cbn; rewrite ?A0, ?A1, ?A2, ?A3, ?A4, ?A5, ?A6; cbn.
  all: eexists; (split; [reflexivity |]).
  all: split; [lia |].
  all: split;
    [ intros i c Hi Hc;
      do 7 (try (destruct i as [|i]; [injection Hc as <-; cbn;
                                      rewrite ?A0, ?A1, ?A2, ?A3, ?A4, ?A5, ?A6; reflexivity |]));
      lia
    | split; [| reflexivity] ].
  all: rewrite ?A0, ?A1, ?A2, ?A3, ?A4, ?A5, ?A6.
  all: try (split; [intros _; eexists; split; reflexivity | reflexivity]).
  all: split; [discriminate | intros [c [Hc H]]; injection Hc as <-; discriminate].
Qed.

(** ** The node-appletv-x backend *)

Section NodePlayback.
Import NodeBackend.
Context {E : Engine}.

(** X26.  [_mapNodePlaybackState] on a numeric playback state.  On an
    engine where the only numbers printed as [0] are falsy (as in
    JavaScript, where they are [0] and [-0]), a numeric [playbackState]
    is never mapped to ['paused']: no number reaches the entry
    [0: 'paused'] of the table, which the string ['0'] does reach.  A
    numeric state is mapped to ['playing'] exactly when it is truthy and
    printed as [1]. *)
Theorem playback_state_of_numbers (fields : list (string * value num)) (n : num) :
  field "playbackState" fields = VNum n ->
  (num_truthy n = true -> num_toString n <> "0") ->
  _mapNodePlaybackState (VObj fields) <> Named "paused" /\
  (_mapNodePlaybackState (VObj fields) = Named "playing" <->
   num_truthy n = true /\ num_toString n = "1") /\
  forall others,
    _mapNodePlaybackState (VObj (("playbackState", VStr "0") :: others)) = Named "paused".
Proof.
  intros Hf Hz. unfold _mapNodePlaybackState. rewrite Hf. cbn [truthy negb orb String_].
  split; [| split; [| reflexivity]].
  - destruct (num_truthy n); [| discriminate]. specialize (Hz eq_refl). cbn [negb].
    unfold stateMap. cbn [lookup].
    destruct (String.eqb (num_toString n) "0") eqn:H0;
      [now apply String.eqb_eq in H0 |].
    destruct (String.eqb (num_toString n) "1"); [discriminate |].
    destruct (String.eqb (num_toString n) "2"); [discriminate |].
    destruct (existsb _ _); discriminate.
  - destruct (num_truthy n); cbn [negb];
      [| split; [discriminate | intros [H _]; discriminate]].
    specialize (Hz eq_refl). unfold stateMap. cbn [lookup].
    destruct (String.eqb (num_toString n) "0") eqn:H0;
      [now apply String.eqb_eq in H0 |].
    destruct (String.eqb (num_toString n) "1") eqn:H1.
    + apply String.eqb_eq in H1. now split.
    + apply String.eqb_neq in H1.
      destruct (String.eqb (num_toString n) "2");
        [split; [discriminate | intros [_ H]; contradiction] |].
      destruct (existsb _ _); (split; [discriminate | intros [_ H]; contradiction]).
Qed.

End NodePlayback.

(** ** Unloading *)

Lemma pairAbort_lookup_other (b : PyatvBackend) (t : list ChildProcess) (q : nat) :
  _pairProcess b <> Some q -> (pairAbort b t).2 !! q = t !! q.
Proof.
  intros Hq. unfold pairAbort. destruct (_pairProcess b) as [pid|]; [| reflexivity].
  destruct (negb (is_killed t pid)); [| reflexivity]. cbn [snd]. unfold kill.
  apply list_lookup_alter_ne. congruence.
Qed.

Lemma pairAbort_keeps_dead (b : PyatvBackend) (t : list ChildProcess) (q : nat)
    (p' : ChildProcess) :
  (pairAbort b t).2 !! q = Some p' ->
  exists p, t !! q = Some p /\ (live p = false -> live p' = false).
Proof.
  unfold pairAbort. destruct (_pairProcess b) as [pid|]; [| intros H; now exists p'].
  destruct (negb (is_killed t pid)); [| intros H; now exists p']. cbn [snd]. unfold kill.
  destruct (decide (pid = q)) as [-> | Hne].
  - rewrite list_lookup_alter_eq. destruct (t !! q) as [p|]; [| discriminate]. cbn.
    intros H. injection H as <-. exists p. split; [reflexivity |].
    intros _. unfold live. destruct (exited p) eqn:He; cbn; rewrite ?He; cbn;
      first [reflexivity | apply andb_false_r].
  - rewrite list_lookup_alter_ne by exact Hne. intros H. now exists p'.
Qed.

Lemma abort_all_others (sessions : list (string * PyatvBackend)) (t : list ChildProcess)
    (q : nat) :
  (forall kb, In kb sessions -> _pairProcess kb.2 <> Some q) ->
  Unload.abort_all sessions t !! q = t !! q.
Proof.
  revert t. induction sessions as [|kb rest IH]; intros t H; [reflexivity |].
  cbn [Unload.abort_all fold_left]. fold (Unload.abort_all rest (pairAbort kb.2 t).2).
  rewrite IH by (intros kb' Hin; apply H; now right).
  apply pairAbort_lookup_other, H. now left.
Qed.

Lemma abort_all_keeps_dead (sessions : list (string * PyatvBackend)) (t : list ChildProcess)
    (q : nat) (p' : ChildProcess) :
  Unload.abort_all sessions t !! q = Some p' ->
  exists p, t !! q = Some p /\ (live p = false -> live p' = false).
Proof.
  revert t. induction sessions as [|kb rest IH]; intros t H; [now exists p' |].
  cbn [Unload.abort_all fold_left] in H. fold (Unload.abort_all rest (pairAbort kb.2 t).2) in H.
  destruct (IH _ H) as [p1 [H1 Hd1]].
  destruct (pairAbort_keeps_dead _ _ _ _ H1) as [p [Hp Hd]].
  exists p. split; [exact Hp | tauto].
Qed.

Lemma pairAbort_kills_own (b : PyatvBackend) (t : list ChildProcess) (pid : nat)
    (p : ChildProcess) :
  _pairProcess b = Some pid -> (pairAbort b t).2 !! pid = Some p -> live p = false.
Proof.
  intros Hb. unfold pairAbort. rewrite Hb. unfold is_killed.
  destruct (t !! pid) as [p0|] eqn:Hp.
  - destruct (killed p0) eqn:Hk; cbn [negb snd].
    + rewrite Hp. intros H. injection H as <-. unfold live. rewrite Hk. apply andb_false_r.
    + apply kill_not_live.
  - cbn [negb snd]. apply kill_not_live.
Qed.

Lemma abort_all_kills (sessions : list (string * PyatvBackend)) (t : list ChildProcess)
    (kb : string * PyatvBackend) (pid : nat) (p : ChildProcess) :
  In kb sessions ->
  _pairProcess kb.2 = Some pid ->
  Unload.abort_all sessions t !! pid = Some p ->
  live p = false.
Proof.
  revert t. induction sessions as [|kb0 rest IH]; intros t Hin Hb H; [contradiction |].
  cbn [Unload.abort_all fold_left] in H. fold (Unload.abort_all rest (pairAbort kb0.2 t).2) in H.
  destruct Hin as [-> | Hin]; [| now apply (IH _ Hin Hb H)].
  destruct (abort_all_keeps_dead _ _ _ _ H) as [p1 [H1 Hd]].
  apply Hd. now apply (pairAbort_kills_own kb.2 t pid).
Qed.

Section UnloadProperties.
Context {E : Engine}.

Lemma onUnload_processes (r : Unload.Runtime) (rejects : string -> option string) :
  Unload._pairingSessions (Unload.onUnload r rejects).1.1 = ∅ /\
  Unload.processes (Unload.onUnload r rejects).1.1 =
  Unload.abort_all (map_to_list (Unload._pairingSessions r)) (Unload.processes r).
Proof.
  unfold Unload.onUnload.
  destruct (Unload.disconnect_all (Unload.devices r) rejects) as [managers [es [[] | m]]];
    now split.
Qed.

(** X27.  [onUnload] and the pairing processes.  Whatever else happens
    during the unload, the registry of pairing sessions is empty
    afterwards and the pairing process of every session that was
    registered is no longer live.  A process that no registered session
    refers to is left exactly as it was: a pairing process whose session
    entry was overwritten survives the unload. *)
Theorem onUnload_aborts_registered_pairings (r : Unload.Runtime)
    (rejects : string -> option string) :
  let after := (Unload.onUnload r rejects).1.1 in
  Unload._pairingSessions after = ∅ /\
  (forall k b pid p,
     Unload._pairingSessions r !! k = Some b ->
     _pairProcess b = Some pid ->
     Unload.processes after !! pid = Some p ->
     live p = false) /\
  (forall pid,
     (forall k b, Unload._pairingSessions r !! k = Some b -> _pairProcess b <> Some pid) ->
     Unload.processes after !! pid = Unload.processes r !! pid).
Proof.
  intros after. destruct (onUnload_processes r rejects) as [Hs Hp].
  subst after. rewrite Hs, Hp. split; [reflexivity |]. split.
  - intros k b pid p Hk Hb H.
    apply (abort_all_kills (map_to_list (Unload._pairingSessions r)) (Unload.processes r)
             (k, b) pid p); [| exact Hb | exact H].
    apply list_elem_of_In, elem_of_map_to_list. exact Hk.
  - intros pid H. apply abort_all_others. intros [k b] Hin.
    apply list_elem_of_In, elem_of_map_to_list in Hin. now apply (H k).
Qed.

End UnloadProperties.

Section UnloadDevices.
Context {E : Engine}.

Lemma disconnect_all_effects (devs : list (string * DeviceManager))
    (rejects : string -> option string) (e : Unload.Effect) :
  In e (Unload.disconnect_all devs rejects).2.1 -> exists id e', e = Unload.OfManager id e'.
Proof.
  induction devs as [|[id m] rest IH]; [intros [] |]. cbn [Unload.disconnect_all].
  unfold disconnect. destruct (rejects id) as [msg|].
  - cbn. intros H. apply in_map_iff in H. destruct H as [e' [<- _]]. now exists id, e'.
  - destruct (Unload.disconnect_all rest rejects) as [rest' [es c]]. cbn [fst snd] in *.
    intros H. apply in_app_or in H. destruct H as [H | H]; [| now apply IH].
    apply in_map_iff in H. destruct H as [e' [<- _]]. now exists id, e'.
Qed.

Lemma disconnect_all_completes (devs : list (string * DeviceManager))
    (rejects : string -> option string) :
  (forall id, In id (List.map fst devs) -> rejects id = None) ->
  (Unload.disconnect_all devs rejects).1 =
    List.map (fun im => (im.1, (disconnect im.2 None).1)) devs /\
  (Unload.disconnect_all devs rejects).2.2 = Normal tt.
Proof.
  induction devs as [|[id m] rest IH]; intros H; [now split |].
  cbn [Unload.disconnect_all]. rewrite (H id) by now left.
  destruct IH as [IH1 IH2]; [intros x Hx; apply H; now right |].
  unfold disconnect at 1.
  destruct (Unload.disconnect_all rest rejects) as [rest' [es c]]. cbn [fst snd] in *.
  subst. now split.
Qed.

Lemma disconnect_all_stops (before rest : list (string * DeviceManager)) (id : string)
    (m : DeviceManager) (msg : string) (rejects : string -> option string) :
  (forall x, In x (List.map fst before) -> rejects x = None) ->
  rejects id = Some msg ->
  (Unload.disconnect_all (before ++ (id, m) :: rest) rejects).1 =
    List.map (fun im => (im.1, (disconnect im.2 None).1)) (before ++ [(id, m)]) ++ rest /\
  (Unload.disconnect_all (before ++ (id, m) :: rest) rejects).2.2 = Throw msg.
Proof.
  intros Hb Hid. induction before as [|[id0 m0] before IH].
  - rewrite !List.app_nil_l. cbn [Unload.disconnect_all]. rewrite Hid. now split.
  - rewrite <- List.app_comm_cons. cbn [Unload.disconnect_all].
    rewrite (Hb id0) by now left.
    destruct IH as [IH1 IH2]; [intros x Hx; apply Hb; now right |].
    unfold disconnect at 1.
    destruct (Unload.disconnect_all (before ++ (id, m) :: rest) rejects) as [rest' [es c]].
    cbn [fst snd] in *. subst. now split.
Qed.

(** X28.  [onUnload] and the device managers.  The callback is called
    exactly once, as the last thing, whatever fails.  When no
    [disconnect()] rejects, every manager has been disconnected, the
    registry of devices is empty and [info.connection] is set to false.
    When the [disconnect()] of a device rejects, the loop ends there:
    the managers behind it are left as they were, with their timers and
    push handles, the registry is not cleared, the error is logged and
    [info.connection] is not written. *)
Theorem onUnload_devices (r : Unload.Runtime) (rejects : string -> option string) :
  let after := (Unload.onUnload r rejects).1.1 in
  let managers := (Unload.onUnload r rejects).1.2 in
  let es := (Unload.onUnload r rejects).2 in
  (exists es', es = es' ++ [Unload.Callback] /\ ~ In Unload.Callback es') /\
  ((forall id, In id (List.map fst (Unload.devices r)) -> rejects id = None) ->
   managers = List.map (fun im => (im.1, (disconnect im.2 None).1)) (Unload.devices r) /\
   Unload.devices after = [] /\
   In (Unload.SetConnection false) es) /\
  (forall before id m rest msg,
     Unload.devices r = before ++ (id, m) :: rest ->
     (forall x, In x (List.map fst before) -> rejects x = None) ->
     rejects id = Some msg ->
     managers =
       List.map (fun im => (im.1, (disconnect im.2 None).1)) (before ++ [(id, m)]) ++ rest /\
     Unload.devices after = managers /\
     In (Unload.LogError ("Error during unload: " +:+ msg)) es /\
     ~ In (Unload.SetConnection false) es).
Proof.
  intros after managers es. subst after managers es. unfold Unload.onUnload.
  pose proof (disconnect_all_effects (Unload.devices r) rejects) as Heff.
  pose proof (disconnect_all_completes (Unload.devices r) rejects) as Hok.
  assert (forall (l : list Unload.Effect) e,
            (forall id e', e <> Unload.OfManager id e') ->
            e <> Unload.ClearAutoScan -> e <> Unload.ClearRefresh ->
            ~ In e
                ((if Unload.autoScanTimer r then [Unload.ClearAutoScan] else []) ++
                 match Unload.refreshTimer r with
                 | Some true => [Unload.ClearRefresh]
                 | _ => []
                 end) /\
            ((forall x, In x l -> exists id e', x = Unload.OfManager id e') -> ~ In e l))
    as Hnot.
  { intros l e H1 H2 H3. split.
    - destruct (Unload.autoScanTimer r), (Unload.refreshTimer r) as [[]|]; cbn;
        intuition congruence.
    - intros Hl Hin. destruct (Hl _ Hin) as [id [e' ->]]. now apply (H1 id e'). }
  split; [| split].
  - destruct (Unload.disconnect_all (Unload.devices r) rejects) as [managers [es [[] | m]]];
      cbn [fst snd] in *.
    + exists (((if Unload.autoScanTimer r then [Unload.ClearAutoScan] else []) ++
               match Unload.refreshTimer r with
               | Some true => [Unload.ClearRefresh]
               | _ => []
               end) ++ es ++ [Unload.SetConnection false]).
      split; [now rewrite <- !List.app_assoc |].
      destruct (Hnot es Unload.Callback) as [Ha Hb]; try discriminate.
      intros H. apply in_app_or in H. destruct H as [H | H]; [now apply Ha |].
      apply in_app_or in H. destruct H as [H | [H | []]]; [now apply Hb | discriminate].
    + exists (((if Unload.autoScanTimer r then [Unload.ClearAutoScan] else []) ++
               match Unload.refreshTimer r with
               | Some true => [Unload.ClearRefresh]
               | _ => []
               end) ++ es ++ [Unload.LogError ("Error during unload: " +:+ m)]).
      split; [now rewrite <- !List.app_assoc |].
      destruct (Hnot es Unload.Callback) as [Ha Hb]; try discriminate.
      intros H. apply in_app_or in H. destruct H as [H | H]; [now apply Ha |].
      apply in_app_or in H. destruct H as [H | [H | []]]; [now apply Hb | discriminate].
  - intros Hall. destruct (Hok Hall) as [H1 H2].
    destruct (Unload.disconnect_all (Unload.devices r) rejects) as [managers [es c]].
    cbn [fst snd] in *. subst. cbn [fst snd Unload.devices].
    split; [reflexivity |]. split; [reflexivity |].
    apply in_or_app. right. apply in_or_app. right. now left.
  - intros before id m rest msg Hd Hb Hid.
    destruct (disconnect_all_stops before rest id m msg rejects Hb Hid) as [H1 H2].
    rewrite <- Hd in H1, H2.
    destruct (Unload.disconnect_all (Unload.devices r) rejects) as [managers [es c]].
    cbn [fst snd] in *. subst. cbn [fst snd Unload.devices].
    split; [reflexivity |]. split; [reflexivity |]. split.
    + apply in_or_app. right. apply in_or_app. right. now left.
    + destruct (Hnot es (Unload.SetConnection false)) as [Ha Hb']; try discriminate.
      intros H. apply in_app_or in H. destruct H as [H | H]; [now apply Ha |].
      apply in_app_or in H. destruct H as [H | [H | [H | []]]];
        [now apply Hb' | discriminate | discriminate].
Qed.

End UnloadDevices.

(** ** Device arguments *)

Section DeviceArguments.
Context {E : Engine}.

(** X29.  The arguments [_buildDeviceArgs] puts in front of every
    atvscript command come in pairs of a flag and a value that is never
    empty, at most four pairs.  They start with the target arguments
    [pairStart] builds for a backend with the same identifier and
    address (the identifier taking precedence), and without a
    [credentials] object they are exactly those. *)
Theorem buildDeviceArgs_shape (c : Backend.DeviceConfig) (b : PyatvBackend) :
  Pairing.identifier b = Backend.identifier c ->
  Pairing.address b = Backend.address c ->
  List.Forall (fun a => a <> "") (_buildDeviceArgs c) /\
  Nat.even (List.length (_buildDeviceArgs c)) = true /\
  List.length (_buildDeviceArgs c) <= 8 /\
  exists creds,
    _buildDeviceArgs c = device_args b ++ creds /\
    (Backend.credentials c = None -> creds = []).
Proof.
  intros Hi Ha. unfold _buildDeviceArgs, device_args. rewrite Hi, Ha.
  destruct (Backend.credentials c) as [[m a k]|]; cbn [mrp airplay companion].
  - destruct (JS.truthy (Backend.identifier c)) eqn:H1;
      [| destruct (JS.truthy (Backend.address c)) eqn:H2];
      destruct (JS.truthy m) eqn:H3, (JS.truthy a) eqn:H4, (JS.truthy k) eqn:H5;
      rewrite ?truthy_true in *; cbn;
      (split; [repeat constructor; solve [assumption | discriminate] |]);
      (split; [reflexivity |]); (split; [lia |]);
      eexists; (split; [reflexivity | discriminate]).
  - destruct (JS.truthy (Backend.identifier c)) eqn:H1;
      [| destruct (JS.truthy (Backend.address c)) eqn:H2];
      rewrite ?truthy_true in *; cbn;
      (split; [repeat constructor; solve [assumption | discriminate] |]);
      (split; [reflexivity |]); (split; [lia |]);
      exists []; (split; [reflexivity | reflexivity]).
Qed.

End DeviceArguments.

(** ** The further properties on sample data *)

Lemma app_buttons_reach_their_objects_witness :
  onStateChange (E := Scenario.engine) Scenario.namespace Scenario.devices
    (Scenario.namespace +:+ "." +:+ launchButton (_sanitizeId Scenario.raw_id) "Apple TV+")
    (Some Scenario.pressed)
  = Dispatched (_sanitizeId Scenario.raw_id) (handleAppFolderLaunch (_sanitizeAppName "Apple TV+")).
Proof.
  assert (_sanitizeId Scenario.raw_id ∈ Scenario.devices) as Hin
    by (apply elem_of_singleton; reflexivity).
  exact (proj1 (app_buttons_reach_their_objects (E := Scenario.engine) Scenario.namespace
                  Scenario.devices Scenario.raw_id "Apple TV+" "Das Erste" Scenario.pressed
                  Hin eq_refl)).
Defined.

Lemma state_tree_routing_witness :
  onStateChange (E := Scenario.engine) Scenario.namespace Scenario.devices
    (Scenario.namespace +:+ "." +:+ "AA_BB_CC" +:+ "." +:+ "remote." +:+ "playPause")
    (Some Scenario.pressed)
  = Dispatched "AA_BB_CC" (handleRemoteCommand "playPause").
Proof.
  assert ("AA_BB_CC" ∈ Scenario.devices) as Hin by (apply elem_of_singleton; reflexivity).
  pose proof (proj2 (state_tree_routing (E := Scenario.engine) Scenario.namespace
                       Scenario.devices)
                "AA_BB_CC" "playPause" Scenario.pressed Hin eq_refl eq_refl eq_refl) as H.
  cbv zeta in H. exact (proj1 H).
Defined.

Lemma push_and_poll_agree_witness :
  getPlaying (E := Scenario.engine) (ExecDone Scenario.line_song) = ([], Normal Scenario.song).
Proof.
  apply (proj1 (push_and_poll_agree (E := Scenario.engine) (ExecDone Scenario.line_song)
                  Scenario.song_fields Scenario.song eq_refl eq_refl)).
  vm_compute. left. reflexivity.
Defined.

Lemma push_line_with_bad_field_witness :
  process_line (E := Scenario.engine) Scenario.line_bad =
  [Update (EvPower true);
   Push.Log debug ("Failed to parse push update line: " +:+ Scenario.line_bad)].
Proof.
  exact (push_line_with_bad_field (E := Scenario.engine) Scenario.line_bad Scenario.bad_fields
           "media_type" eq_refl eq_refl eq_refl eq_refl (or_introl eq_refl) eq_refl).
Defined.


Lemma poll_tick_tracks_atvscript_witness :
  In (SetState "info.connected" (VBool false))
    (poll_tick (E := Scenario.engine) Example.manager_polling
       (poll_env Scenario.timed_out Scenario.timed_out None)).2.
Proof.
  pose proof (poll_tick_tracks_atvscript (E := Scenario.engine) Example.manager_polling
                Scenario.timed_out Scenario.timed_out) as H.
  cbv zeta in H. destruct H as (_ & _ & H & _). apply H. discriminate.
Defined.

Lemma exit_after_disconnect_reconnects_witness :
  pushHandle
    (step (E := Example.engine)
       (forward (E := Example.engine)
          (disconnect (E := Example.engine) Example.manager_polling None).1
          (deliver (E := Example.engine) "" (Exit (Some 0))).2).1
       (ReconnectTimer None Example.connect_ok)).1 = true.
Proof.
  pose proof (exit_after_disconnect_reconnects (E := Example.engine) Example.manager_polling
                None "" (Exit (Some 0)) Example.connect_ok eq_refl
                (or_introl (ex_intro _ (Some 0) eq_refl)) eq_refl) as H.
  cbv zeta in H. destruct H as (_ & _ & _ & _ & H & _). exact H.
Defined.

Lemma checkInstalled_meaning_witness :
  findBinary Scenario.fs "atvscript" = "/usr/bin/atvscript" /\
  executable Scenario.fs (findBinary Scenario.fs "atvscript") = true /\
  checkInstalled Scenario.fs (Some "spawn atvscript ENOENT") = ([], Normal true).
Proof.
  destruct (checkInstalled_meaning Scenario.fs (Some "spawn atvscript ENOENT"))
    as (_ & Hfound & _ & Hcheck).
  split; [reflexivity |]. split; [| exact Hcheck].
  apply (Hfound "atvscript"). discriminate.
Defined.

Lemma installPyatv_outcome_witness :
  exists r, (installPyatv Scenario.answers).2 = Normal r.
Proof.
  destruct (installPyatv_outcome Scenario.answers) as [r [H _]]. now exists r.
Defined.

Lemma playback_state_of_numbers_witness :
  NodeBackend._mapNodePlaybackState (E := Example.engine)
    (VObj [("playbackState", VNum 0%Z)]) <> NodeBackend.Named "paused".
Proof.
  apply (playback_state_of_numbers (E := Example.engine)
           [("playbackState", VNum 0%Z)] 0%Z eq_refl).
  intros H. discriminate H.
Defined.

Lemma onUnload_aborts_registered_pairings_witness :
  exists p,
    Unload.processes (Unload.onUnload (E := Example.engine) Scenario.runtime
                        Scenario.no_rejection).1.1 !! 0 = Some p /\
    live p = false.
Proof.
  eexists. split; [vm_compute; reflexivity |].
  destruct (onUnload_aborts_registered_pairings (E := Example.engine) Scenario.runtime
              Scenario.no_rejection) as (_ & H & _).
  apply (H "tv" Example.pairing_backend 0); [vm_compute; reflexivity | reflexivity |].
  vm_compute. reflexivity.
Defined.

Lemma onUnload_devices_witness :
  Unload.devices (Unload.onUnload (E := Example.engine) Scenario.runtime
                    Scenario.no_rejection).1.1 = [].
Proof.
  pose proof (onUnload_devices (E := Example.engine) Scenario.runtime Scenario.no_rejection)
    as H.
  cbv zeta in H. destruct H as (_ & H & _).
  apply H. intros id _. reflexivity.
Defined.

Lemma buildDeviceArgs_shape_witness :
  _buildDeviceArgs Scenario.config = ["--id"; "tv"; "--airplay-credentials"; "a1b2c3"] /\
  List.Forall (fun a => a <> "") (_buildDeviceArgs Scenario.config).
Proof.
  split; [reflexivity |].
  exact (proj1 (buildDeviceArgs_shape Scenario.config Example.pairing_backend
                  eq_refl eq_refl)).
Defined.
